(** * Halide IRMatcher: constant folding and pattern matching

    A shallow embedding of [src/IRMatch.h] (namespace
    [Halide::Internal::IRMatcher]): the match state, the constant-fold
    kernels, the pattern structs with their [match] / [make] /
    [make_folded_const] members, and the [Rewriter].

    The pattern structs are templates over the types of their operands,
    and call whatever members those types offer; here each struct is a
    type constructor and the three members are three classes, so that a
    struct has a member exactly when its operands have the members it
    calls.  A partial specialisation is an instance at the specialised
    type.  The members taking the match state by reference are functions
    in a state monad over the match state, the counter of
    [to_special_expr] and the next free address.

    Embedded: [MatcherState], [to_expr], [to_special_expr], [equal], the
    wildcards, [Const], [BinOp] and [CmpOp] with their folders, [NotOp],
    [SelectOp], [BroadcastOp], [NegateOp], [IsConstOp], [FoldOp],
    [BindOp], [evaluate_predicate] and [Rewriter] on an instance that is a
    node. *)

From Stdlib Require Import ZArith Bool List String Lia.
From Stdlib Require Import Floats.SpecFloat.
Import ListNotations.
Local Open Scope Z_scope.

Set Warnings "-register-all".

(** ** Machine integers

    [int64_t] and [uint64_t] values are integers of [Z]; every operation
    that can leave the range writes its wrap-around out. *)

Definition wrap_u64 (z : Z) : Z := z mod 2 ^ 64.
Definition wrap_i64 (z : Z) : Z := (z + 2 ^ 63) mod 2 ^ 64 - 2 ^ 63.
Definition wrap_u16 (z : Z) : Z := z mod 2 ^ 16.
Definition wrap_i32 (z : Z) : Z := (z + 2 ^ 31) mod 2 ^ 32 - 2 ^ 31.

(** [a + b], [a - b], [a * b], [-a] on [int64_t] (two's complement). *)
Definition add64 (a b : Z) : Z := wrap_i64 (a + b).
Definition sub64 (a b : Z) : Z := wrap_i64 (a - b).
Definition mul64 (a b : Z) : Z := wrap_i64 (a * b).
Definition neg64 (a : Z) : Z := wrap_i64 (- a).
(** [a << n] keeps the low 64 bits; [a >> n] is the arithmetic shift. *)
Definition shl64 (a n : Z) : Z := wrap_i64 (Z.shiftl a n).
Definition sar64 (a n : Z) : Z := Z.shiftr a n.

(** The same on [uint64_t]; [>>] is the logical shift. *)
Definition addu64 (a b : Z) : Z := wrap_u64 (a + b).
Definition subu64 (a b : Z) : Z := wrap_u64 (a - b).
Definition mulu64 (a b : Z) : Z := wrap_u64 (a * b).
Definition negu64 (a : Z) : Z := wrap_u64 (- a).
Definition shlu64 (a n : Z) : Z := wrap_u64 (Z.shiftl a n).
Definition shru64 (a n : Z) : Z := Z.shiftr a n.

(** The value of a [bits]-wide two's-complement integer whose low [bits]
    bits are those of [z]: truncation followed by sign extension. *)
Definition sign_extend (bits z : Z) : Z :=
  (z + 2 ^ (bits - 1)) mod 2 ^ bits - 2 ^ (bits - 1).

(** [z] is representable as a [bits]-wide signed integer. *)
Definition fits_signed (bits z : Z) : bool :=
  (- 2 ^ (bits - 1) <=? z) && (z <? 2 ^ (bits - 1)).

(** ** IEEE binary64

    A [double] is kept as its 64-bit pattern, which is what the union
    [halide_scalar_value_t] stores; arithmetic and comparisons go through
    the decoded [spec_float].  All NaNs decode to the one [S754_nan]. *)

Module F64.

Definition prec : Z := 53.
Definition emax : Z := 1024.
Definition sign_bit : Z := 2 ^ 63.

Definition of_bits (b : Z) : spec_float :=
  let s := Z.testbit b 63 in
  let e := Z.land (Z.shiftr b 52) 2047 in
  let m := Z.land b (2 ^ 52 - 1) in
  if e =? 0 then
    if m =? 0 then S754_zero s else S754_finite s (Z.to_pos m) (-1074)
  else if e =? 2047 then
    if m =? 0 then S754_infinity s else S754_nan
  else S754_finite s (Z.to_pos (m + 2 ^ 52)) (e - 1075).

Definition to_bits (f : spec_float) : Z :=
  match f with
  | S754_zero s => if s then sign_bit else 0
  | S754_infinity s => (if s then sign_bit else 0) + 2047 * 2 ^ 52
  | S754_nan => 2047 * 2 ^ 52 + 2 ^ 51
  | S754_finite s m e =>
      (if s then sign_bit else 0) +
      (if Zpos m <? 2 ^ 52 then Zpos m
       else (e + 1075) * 2 ^ 52 + (Zpos m - 2 ^ 52))
  end.

Definition lift2 (f : spec_float -> spec_float -> spec_float) (a b : Z) : Z :=
  to_bits (f (of_bits a) (of_bits b)).

Definition add : Z -> Z -> Z := lift2 (SFadd prec emax).
Definition sub : Z -> Z -> Z := lift2 (SFsub prec emax).
Definition mul : Z -> Z -> Z := lift2 (SFmul prec emax).
Definition div : Z -> Z -> Z := lift2 (SFdiv prec emax).
Definition neg (a : Z) : Z := Z.lxor a sign_bit.

Definition eqb (a b : Z) : bool := SFeqb (of_bits a) (of_bits b).
Definition ltb (a b : Z) : bool := SFltb (of_bits a) (of_bits b).
Definition leb (a b : Z) : bool := SFleb (of_bits a) (of_bits b).

(** [(double) n] for an integer [n]. *)
Definition of_int (n : Z) : Z := to_bits (binary_normalize prec emax n 0 false).

(** [std::floor]. *)
Definition SFfloor (f : spec_float) : spec_float :=
  match f with
  | S754_finite s m e =>
      if 0 <=? e then f
      else
        let q := Z.shiftr (Zpos m) (- e) in
        let exact := Zpos m =? Z.shiftl q (- e) in
        let n := if s then (if exact then - q else - q - 1) else q in
        binary_normalize prec emax n 0 s
  | _ => f
  end.

Definition floor (a : Z) : Z := to_bits (SFfloor (of_bits a)).

End F64.

(** ** Type descriptors ([halide_type_t])

    [bits] is a [uint8_t] and [lanes] a [uint16_t].  No immediate carries
    the fourth type code [halide_type_handle], and the [default:] arms of
    the switches over the code are marked unreachable in the source; the
    code is therefore one of the three below. *)

Inductive halide_type_code_t : Type :=
| halide_type_int
| halide_type_uint
| halide_type_float.

Record halide_type_t : Type := mk_type {
  code : halide_type_code_t;
  bits : Z;
  lanes : Z
}.

Definition code_eqb (a b : halide_type_code_t) : bool :=
  match a, b with
  | halide_type_int, halide_type_int
  | halide_type_uint, halide_type_uint
  | halide_type_float, halide_type_float => true
  | _, _ => false
  end.

(** [operator==] on types. *)
Definition type_eqb (a b : halide_type_t) : bool :=
  code_eqb (code a) (code b) && (bits a =? bits b) && (lanes a =? lanes b).

Definition set_code (t : halide_type_t) (c : halide_type_code_t) := mk_type c (bits t) (lanes t).
Definition set_bits (t : halide_type_t) (b : Z) := mk_type (code t) b (lanes t).
Definition set_lanes (t : halide_type_t) (l : Z) := mk_type (code t) (bits t) l.

(** [MatcherState]'s values of the lanes field with special meaning. *)
Definition signed_integer_overflow : Z := 0x8000.
Definition indeterminate_expression : Z := 0x4000.
Definition special_values_mask : Z := 0xc000.

(** [t.lanes |= flags]. *)
Definition or_lanes (t : halide_type_t) (flags : Z) : halide_type_t :=
  set_lanes t (Z.lor (lanes t) flags).

(** ** Helpers declared in [IROperator.h] *)

(** Modelled from the spec: [add_would_overflow], [sub_would_overflow] and
    [mul_would_overflow] are declared in [IROperator.h], which is not part
    of the sources at hand.  They answer whether the exact mathematical
    result of the operation would not fit in [bits] bits. *)
Definition add_would_overflow (bits a b : Z) : bool := negb (fits_signed bits (a + b)).
Definition sub_would_overflow (bits a b : Z) : bool := negb (fits_signed bits (a - b)).
Definition mul_would_overflow (bits a b : Z) : bool := negb (fits_signed bits (a * b)).

(** Modelled from the spec: [div_imp] and [mod_imp] are defined in
    [IROperator.h], which is not part of the sources at hand.  Integer
    division is floor division, [mod (a, b) = a - b * floor (a / b)]; the
    [double] modulus uses the same formula. *)
Definition div_imp (a b : Z) : Z := wrap_i64 (a / b).
Definition mod_imp (a b : Z) : Z := wrap_i64 (a mod b).
Definition mod_imp_f64 (a b : Z) : Z :=
  F64.sub a (F64.mul b (F64.floor (F64.div a b))).

(** ** Constant-fold kernels *)

Inductive bin_op : Type := Add | Sub | Mul | Div | Mod | Min | Max | And | Or.

(** [constant_fold_bin_op<Op>(halide_type_t &, int64_t, int64_t)]: the
    type is passed by reference, so the kernel returns it with the value. *)
Definition constant_fold_bin_op_i64 (op : bin_op) (t : halide_type_t) (a b : Z)
  : halide_type_t * Z :=
  match op with
  | Add =>
      let t := or_lanes t (if (32 <=? bits t) && add_would_overflow (bits t) a b
                           then signed_integer_overflow else 0) in
      let dead_bits := 64 - bits t in
      (t, sar64 (shl64 (add64 a b) dead_bits) dead_bits)
  | Sub =>
      let t := or_lanes t (if (32 <=? bits t) && sub_would_overflow (bits t) a b
                           then signed_integer_overflow else 0) in
      let dead_bits := 64 - bits t in
      (t, sar64 (shl64 (sub64 a b) dead_bits) dead_bits)
  | Mul =>
      let t := or_lanes t (if (32 <=? bits t) && mul_would_overflow (bits t) a b
                           then signed_integer_overflow else 0) in
      let dead_bits := 64 - bits t in
      (t, sar64 (shl64 (mul64 a b) dead_bits) dead_bits)
  | Div =>
      if b =? 0 then (or_lanes t indeterminate_expression, 0)
      else (t, div_imp a b)
  | Mod =>
      if b =? 0 then (or_lanes t indeterminate_expression, 0)
      else (t, mod_imp a b)
  | Min => (t, Z.min a b)
  | Max => (t, Z.max a b)
  | And => (t, 0)
  | Or => (t, 0)
  end.

(** [constant_fold_bin_op<Op>(halide_type_t &, uint64_t, uint64_t)]. *)
Definition constant_fold_bin_op_u64 (op : bin_op) (t : halide_type_t) (a b : Z)
  : halide_type_t * Z :=
  let ones := wrap_u64 (-1) in
  match op with
  | Add => (t, Z.land (addu64 a b) (shru64 ones (64 - bits t)))
  | Sub => (t, Z.land (subu64 a b) (shru64 ones (64 - bits t)))
  | Mul => (t, Z.land (mulu64 a b) (shru64 ones (64 - bits t)))
  | Div =>
      if b =? 0 then (or_lanes t indeterminate_expression, 0)
      else (t, a / b)
  | Mod =>
      if b =? 0 then (or_lanes t indeterminate_expression, 0)
      else (t, a mod b)
  | Min => (t, Z.min a b)
  | Max => (t, Z.max a b)
  | And => (t, Z.land a b)
  | Or => (t, Z.lor a b)
  end.

(** [constant_fold_bin_op<Op>(halide_type_t &, double, double)];
    [std::min (a, b)] is [(b < a) ? b : a] and [std::max (a, b)] is
    [(a < b) ? b : a]. *)
Definition constant_fold_bin_op_f64 (op : bin_op) (t : halide_type_t) (a b : Z)
  : halide_type_t * Z :=
  match op with
  | Add => (t, F64.add a b)
  | Sub => (t, F64.sub a b)
  | Mul => (t, F64.mul a b)
  | Div => (t, F64.div a b)
  | Mod => (t, mod_imp_f64 a b)
  | Min => (t, if F64.ltb b a then b else a)
  | Max => (t, if F64.ltb a b then b else a)
  | And => (t, F64.of_int 0)
  | Or => (t, F64.of_int 0)
  end.

(** [constant_fold_cmp_op<Op>]: the three overloads. *)
Inductive cmp_op : Type := LT | GT | LE | GE | EQ | NE.

Definition constant_fold_cmp_op_i64 (op : cmp_op) (a b : Z) : Z :=
  Z.b2z match op with
        | LT => a <? b | GT => a >? b | LE => a <=? b
        | GE => a >=? b | EQ => a =? b | NE => negb (a =? b)
        end.

Definition constant_fold_cmp_op_u64 (op : cmp_op) (a b : Z) : Z :=
  constant_fold_cmp_op_i64 op a b.

Definition constant_fold_cmp_op_f64 (op : cmp_op) (a b : Z) : Z :=
  Z.b2z match op with
        | LT => F64.ltb a b | GT => F64.ltb b a | LE => F64.leb a b
        | GE => F64.leb b a | EQ => F64.eqb a b | NE => negb (F64.eqb a b)
        end.

(** ** Scalar values ([halide_scalar_value_t])

    A 64-bit union read as [int64_t], [uint64_t] or [double]; the model
    keeps the bit pattern and gives the three views. *)

Record halide_scalar_value_t : Type := mk_scalar { u_u64 : Z }.

Definition u_i64 (v : halide_scalar_value_t) : Z := wrap_i64 (u_u64 v).
Definition u_f64 (v : halide_scalar_value_t) : Z := u_u64 v.
Definition of_i64 (x : Z) : halide_scalar_value_t := mk_scalar (wrap_u64 x).
Definition of_u64 (x : Z) : halide_scalar_value_t := mk_scalar x.
Definition of_f64 (x : Z) : halide_scalar_value_t := mk_scalar x.

(** ** IR nodes

    [IR.h] is not part of the sources at hand; the nodes below are the
    ones the matcher reads, with the fields it reads.  Every node carries
    its address [p] (the matcher compares nodes by address in [equal]) and
    its type. *)

Definition ptr : Type := N.

Module IRNodeType.
Inductive t : Type :=
| IntImm | UIntImm | FloatImm | StringImm | Cast | Variable_
| Add | Sub | Mul | Div | Mod | Min | Max
| EQ | NE | LT | LE | GT | GE
| And | Or | Not | Select | Load_ | Ramp | Broadcast | Call | Let_ | Shuffle.

Definition eq_dec (a b : t) : {a = b} + {a <> b}.
Proof. decide equality. Defined.

Definition eqb (a b : t) : bool := if eq_dec a b then true else false.
End IRNodeType.

(** Leaf and binding nodes the matcher never looks into. *)
Inductive other_node : Type := StringImm | Variable_ | Load_ | Let_ | Shuffle.

Inductive BaseExprNode : Type :=
| IntImm (p : ptr) (t : halide_type_t) (value : Z)
| UIntImm (p : ptr) (t : halide_type_t) (value : Z)
| FloatImm (p : ptr) (t : halide_type_t) (value : Z)
| Cast (p : ptr) (t : halide_type_t) (value : BaseExprNode)
| Binary (p : ptr) (t : halide_type_t) (op : bin_op) (a b : BaseExprNode)
| Compare (p : ptr) (t : halide_type_t) (op : cmp_op) (a b : BaseExprNode)
| Not (p : ptr) (t : halide_type_t) (a : BaseExprNode)
| Select (p : ptr) (t : halide_type_t) (condition true_value false_value : BaseExprNode)
| Ramp (p : ptr) (t : halide_type_t) (base stride : BaseExprNode) (lanes : Z)
| Broadcast (p : ptr) (t : halide_type_t) (value : BaseExprNode) (lanes : Z)
| Call (p : ptr) (t : halide_type_t) (name : string) (args : list BaseExprNode)
| Other (p : ptr) (t : halide_type_t) (kind : other_node) (name : string).

(** An [Expr] is a handle on a node, or undefined ([Expr()]). *)
Definition Expr : Type := option BaseExprNode.

(** [&e]. *)
Definition addr (e : BaseExprNode) : ptr :=
  match e with
  | IntImm p _ _ | UIntImm p _ _ | FloatImm p _ _ | Cast p _ _
  | Binary p _ _ _ _ | Compare p _ _ _ _ | Not p _ _ | Select p _ _ _ _
  | Ramp p _ _ _ _ | Broadcast p _ _ _ | Call p _ _ _ | Other p _ _ _ => p
  end.

(** [e.type]. *)
Definition type_of (e : BaseExprNode) : halide_type_t :=
  match e with
  | IntImm _ t _ | UIntImm _ t _ | FloatImm _ t _ | Cast _ t _
  | Binary _ t _ _ _ | Compare _ t _ _ _ | Not _ t _ | Select _ t _ _ _
  | Ramp _ t _ _ _ | Broadcast _ t _ _ | Call _ t _ _ | Other _ t _ _ => t
  end.

(** [Op::_node_type] for the operators and comparisons. *)
Definition bin_node_type (op : bin_op) : IRNodeType.t :=
  match op with
  | Add => IRNodeType.Add | Sub => IRNodeType.Sub | Mul => IRNodeType.Mul
  | Div => IRNodeType.Div | Mod => IRNodeType.Mod | Min => IRNodeType.Min
  | Max => IRNodeType.Max | And => IRNodeType.And | Or => IRNodeType.Or
  end.

Definition cmp_node_type (op : cmp_op) : IRNodeType.t :=
  match op with
  | LT => IRNodeType.LT | GT => IRNodeType.GT | LE => IRNodeType.LE
  | GE => IRNodeType.GE | EQ => IRNodeType.EQ | NE => IRNodeType.NE
  end.

(** [e.node_type]. *)
Definition node_type (e : BaseExprNode) : IRNodeType.t :=
  match e with
  | IntImm _ _ _ => IRNodeType.IntImm
  | UIntImm _ _ _ => IRNodeType.UIntImm
  | FloatImm _ _ _ => IRNodeType.FloatImm
  | Cast _ _ _ => IRNodeType.Cast
  | Binary _ _ op _ _ => bin_node_type op
  | Compare _ _ op _ _ => cmp_node_type op
  | Not _ _ _ => IRNodeType.Not
  | Select _ _ _ _ _ => IRNodeType.Select
  | Ramp _ _ _ _ _ => IRNodeType.Ramp
  | Broadcast _ _ _ _ => IRNodeType.Broadcast
  | Call _ _ _ _ => IRNodeType.Call
  | Other _ _ StringImm _ => IRNodeType.StringImm
  | Other _ _ Variable_ _ => IRNodeType.Variable_
  | Other _ _ Load_ _ => IRNodeType.Load_
  | Other _ _ Let_ _ => IRNodeType.Let_
  | Other _ _ Shuffle _ => IRNodeType.Shuffle
  end.

(** Functions of the repository that the header only declares or takes
    from [IROperator.h] / [IREquality.h]: they are parameters of the
    development. *)
Class IRHelpers : Type := {
  (** [equal_helper (a, b)], called on nodes of equal type and kind. *)
  equal_helper : BaseExprNode -> BaseExprNode -> bool;
  (** [is_const (e)] and [is_zero (e)]. *)
  is_const : Expr -> bool;
  is_zero : Expr -> bool
}.

(** [equal]: a fast version of expression equality. *)
Definition equal `{IRHelpers} (a b : BaseExprNode) : bool :=
  (addr a =? addr b)%N ||
  (type_eqb (type_of a) (type_of b) &&
   IRNodeType.eqb (node_type a) (node_type b) &&
   equal_helper a b).

(** ** Match state *)

(** The legal wildcard indices: [static_assert (i >= 0 && i < max_wild)]. *)
Inductive wild : Type := w0 | w1 | w2 | w3 | w4.

Definition max_wild : Z := 5.

Definition index (i : wild) : Z :=
  match i with w0 => 0 | w1 => 1 | w2 => 2 | w3 => 3 | w4 => 4 end.

Definition wild_eqb (i j : wild) : bool := index i =? index j.

(** An array of [max_wild] cells and the assignment to one cell. *)
Definition array (A : Type) : Type := wild -> A.

Definition store {A : Type} (f : array A) (i : wild) (v : A) : array A :=
  fun j => if wild_eqb i j then v else f j.

(** The constructor leaves the three arrays uninitialised, and [reset]
    does nothing: a state is any content of the arrays. *)
Record MatcherState : Type := mk_state {
  bindings : array BaseExprNode;
  bound_const : array halide_scalar_value_t;
  bound_const_type : array halide_type_t
}.

Definition set_binding (i : wild) (n : BaseExprNode) (s : MatcherState) : MatcherState :=
  mk_state (store (bindings s) i n) (bound_const s) (bound_const_type s).

Definition get_binding (i : wild) (s : MatcherState) : BaseExprNode :=
  bindings s i.

Definition set_bound_const (i : wild) (val : halide_scalar_value_t) (t : halide_type_t)
  (s : MatcherState) : MatcherState :=
  mk_state (bindings s) (store (bound_const s) i val) (store (bound_const_type s) i t).

Definition get_bound_const (i : wild) (s : MatcherState)
  : halide_scalar_value_t * halide_type_t :=
  (bound_const s i, bound_const_type s i).

Definition reset (s : MatcherState) : MatcherState := s.

(** [bound & binds], as a condition. *)
Definition is_bound (bound binds : Z) : bool := negb (Z.land bound binds =? 0).

(** ** State of a call

    [make] and [make_folded_const] receive the match state by reference;
    [to_special_expr] increments a function-local [static
    std::atomic<int>]; building a node allocates it. *)

Record Env : Type := mk_env {
  state : MatcherState;
  counter : Z;
  brk : ptr
}.

Definition M (A : Type) : Type := Env -> A * Env.

Definition ret {A : Type} (x : A) : M A := fun w => (x, w).

Definition bind {A B : Type} (m : M A) (k : A -> M B) : M B :=
  fun w => let (x, w') := m w in k x w'.

Notation "x <- m ;; k" := (bind m (fun x => k))
  (at level 61, m at next level, right associativity).
Notation "' pat <- m ;; k" := (bind m (fun x => match x with pat => k end))
  (at level 61, pat pattern, m at next level, right associativity).

Definition get_state : M MatcherState := fun w => (state w, w).

Definition modify_state (f : MatcherState -> MatcherState) : M unit :=
  fun w => (tt, mk_env (f (state w)) (counter w) (brk w)).

(** [counter++] on the atomic [int]: the old value is returned and the
    increment wraps. *)
Definition counter_post_increment : M Z :=
  fun w => (counter w, mk_env (state w) (wrap_i32 (counter w + 1)) (brk w)).

(** The address of a newly allocated node. *)
Definition new_node : M ptr :=
  fun w => (brk w, mk_env (state w) (counter w) (brk w + 1)%N).

(** ** Node constructors *)

Definition Int (bits : Z) : halide_type_t := mk_type halide_type_int bits 1.
Definition UInt (bits : Z) : halide_type_t := mk_type halide_type_uint bits 1.
Definition Float (bits : Z) : halide_type_t := mk_type halide_type_float bits 1.

Definition Call_indeterminate_expression : string := "indeterminate_expression"%string.
Definition Call_signed_integer_overflow : string := "signed_integer_overflow"%string.

(** Modelled from the spec: [IntImm::make], [UIntImm::make],
    [FloatImm::make], [Broadcast::make], [Call::make], [Not::make] and the
    conversion of an [int] to an [Expr] are defined in [IR.cpp], which is
    not part of the sources at hand.  Each builds a new node of its kind
    with the given fields; a [Broadcast] has the type of its value with
    the given lane count; an undefined operand gives no node. *)
Definition IntImm_make (t : halide_type_t) (v : Z) : M Expr :=
  p <- new_node ;; ret (Some (IntImm p t v)).

Definition UIntImm_make (t : halide_type_t) (v : Z) : M Expr :=
  p <- new_node ;; ret (Some (UIntImm p t v)).

Definition FloatImm_make (t : halide_type_t) (v : Z) : M Expr :=
  p <- new_node ;; ret (Some (FloatImm p t v)).

Definition Expr_of_int (x : Z) : M Expr := IntImm_make (Int 32) x.

Definition Broadcast_make (e : Expr) (n : Z) : M Expr :=
  match e with
  | Some v => p <- new_node ;; ret (Some (Broadcast p (set_lanes (type_of v) n) v n))
  | None => ret None
  end.

Fixpoint defined_args (args : list Expr) : option (list BaseExprNode) :=
  match args with
  | [] => Some []
  | Some x :: rest =>
      match defined_args rest with
      | Some xs => Some (x :: xs)
      | None => None
      end
  | None :: _ => None
  end.

Definition Call_make (t : halide_type_t) (name : string) (args : list Expr) : M Expr :=
  match defined_args args with
  | Some xs => p <- new_node ;; ret (Some (Call p t name xs))
  | None => ret None
  end.

Definition Not_make (e : Expr) : M Expr :=
  match e with
  | Some v => p <- new_node ;; ret (Some (Not p (type_of v) v))
  | None => ret None
  end.

(** ** Turning a folded constant into an expression *)

Definition to_special_expr (ty : halide_type_t) : M Expr :=
  let flags := Z.land (lanes ty) special_values_mask in
  let ty := set_lanes ty (wrap_u16 (Z.land (lanes ty) (Z.lnot special_values_mask))) in
  if negb (Z.land flags indeterminate_expression =? 0) then
    c <- counter_post_increment ;;
    arg <- Expr_of_int c ;;
    Call_make ty Call_indeterminate_expression [arg]
  else if negb (Z.land flags signed_integer_overflow =? 0) then
    c <- counter_post_increment ;;
    arg <- Expr_of_int c ;;
    Call_make ty Call_signed_integer_overflow [arg]
  else ret None.

(** [to_expr (val, ty, state)]. *)
Definition to_expr (val : halide_scalar_value_t) (ty : halide_type_t) : M Expr :=
  let scalar_type := ty in
  if negb (Z.land (lanes scalar_type) special_values_mask =? 0) then
    to_special_expr scalar_type
  else
    let n := lanes scalar_type in
    let scalar_type := set_lanes scalar_type 1 in
    e <- match code scalar_type with
         | halide_type_int => IntImm_make scalar_type (u_i64 val)
         | halide_type_uint => UIntImm_make scalar_type (u_u64 val)
         | halide_type_float => FloatImm_make scalar_type (u_f64 val)
         end ;;
    if 1 <? n then Broadcast_make e n else ret e.

(** ** The pattern interface

    A pattern type declares [binds] and offers some of [match], [make]
    and [make_folded_const]; the templates use whichever members they
    call.  [match]'s template argument [bound] is its first argument. *)

Class pattern_tag (P : Type) : Type := { binds : Z }.
Arguments binds P {_}.

Class Matcher (P : Type) : Type := {
  match_ : Z -> P -> BaseExprNode -> MatcherState -> bool * MatcherState
}.

Class Maker (P : Type) : Type := { make : P -> M Expr }.

Class Folder (P : Type) : Type := {
  make_folded_const : P -> M (halide_scalar_value_t * halide_type_t)
}.

(** [a && b] on two matches, the second not run when the first fails. *)
Definition and_then (m1 m2 : MatcherState -> bool * MatcherState)
  : MatcherState -> bool * MatcherState :=
  fun s => let (r, s1) := m1 s in if r then m2 s1 else (false, s1).

(** The node under an outer [Broadcast], if there is one. *)
Definition peel_broadcast (e : BaseExprNode) : BaseExprNode :=
  match e with
  | Broadcast _ _ value _ => value
  | _ => e
  end.

(** ** Constant wildcards *)

Inductive WildConstInt (i : wild) : Type := mkWildConstInt.
Inductive WildConstUInt (i : wild) : Type := mkWildConstUInt.
Inductive WildConstFloat (i : wild) : Type := mkWildConstFloat.
Inductive WildConst (i : wild) : Type := mkWildConst.
Arguments mkWildConstInt {i}.
Arguments mkWildConstUInt {i}.
Arguments mkWildConstFloat {i}.
Arguments mkWildConst {i}.

Definition WildConstInt_match (i : wild) (bound : Z) (e : BaseExprNode)
  (s : MatcherState) : bool * MatcherState :=
  let op := peel_broadcast e in
  match op with
  | IntImm _ _ value =>
      if is_bound bound (Z.shiftl 1 (index i)) then
        let (val, type) := get_bound_const i s in
        (type_eqb (type_of op) type && (value =? u_i64 val), s)
      else (true, set_bound_const i (of_i64 value) (type_of e) s)
  | _ => (false, s)
  end.

Definition WildConstUInt_match (i : wild) (bound : Z) (e : BaseExprNode)
  (s : MatcherState) : bool * MatcherState :=
  let op := peel_broadcast e in
  match op with
  | UIntImm _ _ value =>
      if is_bound bound (Z.shiftl 1 (index i)) then
        let (val, type) := get_bound_const i s in
        (type_eqb (type_of op) type && (value =? u_u64 val), s)
      else (true, set_bound_const i (of_u64 value) (type_of e) s)
  | _ => (false, s)
  end.

Definition WildConstFloat_match (i : wild) (bound : Z) (e : BaseExprNode)
  (s : MatcherState) : bool * MatcherState :=
  let ty := type_of e in
  let op := peel_broadcast e in
  match op with
  | FloatImm _ _ value =>
      if is_bound bound (Z.shiftl 1 (index i)) then
        let (val, type) := get_bound_const i s in
        (type_eqb (type_of op) type && F64.eqb value (u_f64 val), s)
      else (true, set_bound_const i (of_f64 value) ty s)
  | _ => (false, s)
  end.

Definition WildConst_match (i : wild) (bound : Z) (e : BaseExprNode)
  (s : MatcherState) : bool * MatcherState :=
  match peel_broadcast e with
  | IntImm _ _ _ => WildConstInt_match i bound e s
  | UIntImm _ _ _ => WildConstUInt_match i bound e s
  | FloatImm _ _ _ => WildConstFloat_match i bound e s
  | _ => (false, s)
  end.

(** [make] and [make_folded_const] are the same in the four structs. *)
Definition WildConst_make (i : wild) : M Expr :=
  s <- get_state ;;
  let (val, type) := get_bound_const i s in
  to_expr val type.

Definition WildConst_make_folded_const (i : wild)
  : M (halide_scalar_value_t * halide_type_t) :=
  s <- get_state ;; ret (get_bound_const i s).

#[export] Instance WildConstInt_tag i : pattern_tag (WildConstInt i) :=
  {| binds := Z.shiftl 1 (index i) |}.
#[export] Instance WildConstUInt_tag i : pattern_tag (WildConstUInt i) :=
  {| binds := Z.shiftl 1 (index i) |}.
#[export] Instance WildConstFloat_tag i : pattern_tag (WildConstFloat i) :=
  {| binds := Z.shiftl 1 (index i) |}.
#[export] Instance WildConst_tag i : pattern_tag (WildConst i) :=
  {| binds := Z.shiftl 1 (index i) |}.

#[export] Instance WildConstInt_Matcher i : Matcher (WildConstInt i) :=
  {| match_ bound _ := WildConstInt_match i bound |}.
#[export] Instance WildConstUInt_Matcher i : Matcher (WildConstUInt i) :=
  {| match_ bound _ := WildConstUInt_match i bound |}.
#[export] Instance WildConstFloat_Matcher i : Matcher (WildConstFloat i) :=
  {| match_ bound _ := WildConstFloat_match i bound |}.
#[export] Instance WildConst_Matcher i : Matcher (WildConst i) :=
  {| match_ bound _ := WildConst_match i bound |}.

#[export] Instance WildConstInt_Maker i : Maker (WildConstInt i) :=
  {| make _ := WildConst_make i |}.
#[export] Instance WildConstUInt_Maker i : Maker (WildConstUInt i) :=
  {| make _ := WildConst_make i |}.
#[export] Instance WildConstFloat_Maker i : Maker (WildConstFloat i) :=
  {| make _ := WildConst_make i |}.
#[export] Instance WildConst_Maker i : Maker (WildConst i) :=
  {| make _ := WildConst_make i |}.

#[export] Instance WildConstInt_Folder i : Folder (WildConstInt i) :=
  {| make_folded_const _ := WildConst_make_folded_const i |}.
#[export] Instance WildConstUInt_Folder i : Folder (WildConstUInt i) :=
  {| make_folded_const _ := WildConst_make_folded_const i |}.
#[export] Instance WildConstFloat_Folder i : Folder (WildConstFloat i) :=
  {| make_folded_const _ := WildConst_make_folded_const i |}.
#[export] Instance WildConst_Folder i : Folder (WildConst i) :=
  {| make_folded_const _ := WildConst_make_folded_const i |}.

(** ** Subtree wildcard *)

Inductive Wild (i : wild) : Type := mkWild.
Arguments mkWild {i}.

#[export] Instance Wild_tag i : pattern_tag (Wild i) :=
  {| binds := Z.shiftl 1 (index i + 16) |}.

Definition Wild_match `{IRHelpers} (i : wild) (bound : Z) (e : BaseExprNode)
  (s : MatcherState) : bool * MatcherState :=
  if is_bound bound (binds (Wild i)) then (equal (get_binding i s) e, s)
  else (true, set_binding i e s).

#[export] Instance Wild_Matcher `{IRHelpers} i : Matcher (Wild i) :=
  {| match_ bound _ := Wild_match i bound |}.

#[export] Instance Wild_Maker i : Maker (Wild i) :=
  {| make _ := s <- get_state ;; ret (Some (get_binding i s)) |}.

(** ** Literal constant *)

(** [val] is an [int]. *)
Record Const : Type := mkConst { Const_val : Z }.

#[export] Instance Const_tag : pattern_tag Const := {| binds := 0 |}.

Definition Const_match (bound : Z) (c : Const) (e : BaseExprNode)
  (s : MatcherState) : bool * MatcherState :=
  match peel_broadcast e with
  | IntImm _ _ value => (value =? Const_val c, s)
  | UIntImm _ _ value => (value =? wrap_u64 (Const_val c), s)
  | FloatImm _ _ value => (F64.eqb value (F64.of_int (Const_val c)), s)
  | _ => (false, s)
  end.

#[export] Instance Const_Matcher : Matcher Const := {| match_ := Const_match |}.

(** ** Binary operators *)

Record BinOp (Op : bin_op) (A B : Type) : Type := mkBinOp { BinOp_a : A; BinOp_b : B }.
Arguments mkBinOp {Op A B}.
Arguments BinOp_a {Op A B}.
Arguments BinOp_b {Op A B}.

Definition bin_op_eqb (x y : bin_op) : bool :=
  IRNodeType.eqb (bin_node_type x) (bin_node_type y).

(** [std::is_same<Op, And>::value] and [std::is_same<Op, Or>::value]. *)
Definition is_And (op : bin_op) : bool := match op with And => true | _ => false end.
Definition is_Or (op : bin_op) : bool := match op with Or => true | _ => false end.

#[export] Instance BinOp_tag Op A B `{pattern_tag A} `{pattern_tag B}
  : pattern_tag (BinOp Op A B) :=
  {| binds := Z.lor (binds A) (binds B) |}.

Definition BinOp_match {Op A B} `{pattern_tag A} `{Matcher A} `{Matcher B}
  (bound : Z) (p : BinOp Op A B) (e : BaseExprNode) : MatcherState -> bool * MatcherState :=
  match e with
  | Binary _ _ op ea eb =>
      if bin_op_eqb op Op then
        and_then (match_ bound (BinOp_a p) ea)
                 (match_ (Z.lor bound (binds A)) (BinOp_b p) eb)
      else fun s => (false, s)
  | _ => fun s => (false, s)
  end.

#[export] Instance BinOp_Matcher Op A B `{pattern_tag A} `{Matcher A} `{Matcher B}
  : Matcher (BinOp Op A B) :=
  {| match_ := BinOp_match |}.

(** The switch over the type code that calls the kernel of the operands'
    kind. *)
Definition fold_bin_op (op : bin_op) (c : halide_type_code_t) (ty : halide_type_t)
  (i64_a i64_b u64_a u64_b f64_a f64_b : Z) : halide_scalar_value_t * halide_type_t :=
  match c with
  | halide_type_int =>
      let (ty, v) := constant_fold_bin_op_i64 op ty i64_a i64_b in (of_i64 v, ty)
  | halide_type_uint =>
      let (ty, v) := constant_fold_bin_op_u64 op ty u64_a u64_b in (of_u64 v, ty)
  | halide_type_float =>
      let (ty, v) := constant_fold_bin_op_f64 op ty f64_a f64_b in (of_f64 v, ty)
  end.

(** [BinOpFolder<Op, A, B>::make_folded_const]. *)
Definition BinOpFolder_make_folded_const {A B} `{Folder A} `{Folder B}
  (Op : bin_op) (a : A) (b : B) : M (halide_scalar_value_t * halide_type_t) :=
  '(val_a, type_a) <- make_folded_const a ;;
  if (is_And Op && (u_u64 val_a =? 0)) || (is_Or Op && (u_u64 val_a =? 1)) then
    ret (val_a, type_a)
  else
    '(val_b, type_b) <- make_folded_const b ;;
    let ty := or_lanes type_a (lanes type_b) in
    ret (fold_bin_op Op (code type_a) ty
           (u_i64 val_a) (u_i64 val_b) (u_u64 val_a) (u_u64 val_b)
           (u_f64 val_a) (u_f64 val_b)).

(** [BinOpFolder<Op, A, Const>::make_folded_const]. *)
Definition BinOpFolder_A_Const_make_folded_const {A} `{Folder A}
  (Op : bin_op) (a : A) (b : Const) : M (halide_scalar_value_t * halide_type_t) :=
  '(val, ty) <- make_folded_const a ;;
  ret (fold_bin_op Op (code ty) ty
         (u_i64 val) (Const_val b) (u_u64 val) (wrap_u64 (Const_val b))
         (u_f64 val) (F64.of_int (Const_val b))).

(** [BinOpFolder<Op, Const, B>::make_folded_const]. *)
Definition BinOpFolder_Const_B_make_folded_const {B} `{Folder B}
  (Op : bin_op) (a : Const) (b : B) : M (halide_scalar_value_t * halide_type_t) :=
  '(val, ty) <- make_folded_const b ;;
  ret (fold_bin_op Op (code ty) ty
         (Const_val a) (u_i64 val) (wrap_u64 (Const_val a)) (u_u64 val)
         (F64.of_int (Const_val a)) (u_f64 val)).

#[export] Instance BinOp_Folder Op A B `{Folder A} `{Folder B} : Folder (BinOp Op A B) :=
  {| make_folded_const p := BinOpFolder_make_folded_const Op (BinOp_a p) (BinOp_b p) |}.

#[export] Instance BinOp_A_Const_Folder Op A `{Folder A} : Folder (BinOp Op A Const) :=
  {| make_folded_const p :=
       BinOpFolder_A_Const_make_folded_const Op (BinOp_a p) (BinOp_b p) |}.

#[export] Instance BinOp_Const_B_Folder Op B `{Folder B} : Folder (BinOp Op Const B) :=
  {| make_folded_const p :=
       BinOpFolder_Const_B_make_folded_const Op (BinOp_a p) (BinOp_b p) |}.

(** [operator&&] and [operator||]: two patterns, a pattern and an [int],
    an [int] and a pattern.  The last two both put the literal second. *)
Definition op_and {A B} (a : A) (b : B) : BinOp And A B := mkBinOp a b.
Definition op_and_int {A} (a : A) (b : Z) : BinOp And A Const := mkBinOp a (mkConst b).
Definition int_op_and {A} (b : Z) (a : A) : BinOp And A Const := mkBinOp a (mkConst b).
Definition op_or {A B} (a : A) (b : B) : BinOp Or A B := mkBinOp a b.
Definition op_or_int {A} (a : A) (b : Z) : BinOp Or A Const := mkBinOp a (mkConst b).
Definition int_op_or {A} (b : Z) (a : A) : BinOp Or A Const := mkBinOp a (mkConst b).

(** [operator/] and [operator%] on two patterns. *)
Definition op_div {A B} (a : A) (b : B) : BinOp Div A B := mkBinOp a b.
Definition op_mod {A B} (a : A) (b : B) : BinOp Mod A B := mkBinOp a b.

(** ** Comparisons *)

Record CmpOp (Op : cmp_op) (A B : Type) : Type := mkCmpOp { CmpOp_a : A; CmpOp_b : B }.
Arguments mkCmpOp {Op A B}.
Arguments CmpOp_a {Op A B}.
Arguments CmpOp_b {Op A B}.

Definition cmp_op_eqb (x y : cmp_op) : bool :=
  IRNodeType.eqb (cmp_node_type x) (cmp_node_type y).

#[export] Instance CmpOp_tag Op A B `{pattern_tag A} `{pattern_tag B}
  : pattern_tag (CmpOp Op A B) :=
  {| binds := Z.lor (binds A) (binds B) |}.

Definition CmpOp_match {Op A B} `{pattern_tag A} `{Matcher A} `{Matcher B}
  (bound : Z) (p : CmpOp Op A B) (e : BaseExprNode) : MatcherState -> bool * MatcherState :=
  match e with
  | Compare _ _ op ea eb =>
      if cmp_op_eqb op Op then
        and_then (match_ bound (CmpOp_a p) ea)
                 (match_ (Z.lor bound (binds A)) (CmpOp_b p) eb)
      else fun s => (false, s)
  | _ => fun s => (false, s)
  end.

#[export] Instance CmpOp_Matcher Op A B `{pattern_tag A} `{Matcher A} `{Matcher B}
  : Matcher (CmpOp Op A B) :=
  {| match_ := CmpOp_match |}.

Definition fold_cmp_op (op : cmp_op) (c : halide_type_code_t)
  (i64_a i64_b u64_a u64_b f64_a f64_b : Z) : halide_scalar_value_t :=
  match c with
  | halide_type_int => of_u64 (constant_fold_cmp_op_i64 op i64_a i64_b)
  | halide_type_uint => of_u64 (constant_fold_cmp_op_u64 op u64_a u64_b)
  | halide_type_float => of_u64 (constant_fold_cmp_op_f64 op f64_a f64_b)
  end.

(** [CmpOpFolder<Op, A, B>::make_folded_const]. *)
Definition CmpOpFolder_make_folded_const {A B} `{Folder A} `{Folder B}
  (Op : cmp_op) (a : A) (b : B) : M (halide_scalar_value_t * halide_type_t) :=
  '(val_a, type_a) <- make_folded_const a ;;
  '(val_b, type_b) <- make_folded_const b ;;
  let ty := mk_type halide_type_uint 1 (Z.lor (lanes type_a) (lanes type_b)) in
  ret (fold_cmp_op Op (code type_a)
         (u_i64 val_a) (u_i64 val_b) (u_u64 val_a) (u_u64 val_b)
         (u_f64 val_a) (u_f64 val_b), ty).

(** [CmpOpFolder<Op, Const, B>::make_folded_const]. *)
Definition CmpOpFolder_Const_B_make_folded_const {B} `{Folder B}
  (Op : cmp_op) (a : Const) (b : B) : M (halide_scalar_value_t * halide_type_t) :=
  '(val, ty) <- make_folded_const b ;;
  ret (fold_cmp_op Op (code ty)
         (Const_val a) (u_i64 val) (wrap_u64 (Const_val a)) (u_u64 val)
         (F64.of_int (Const_val a)) (u_f64 val),
       set_code (set_bits ty 1) halide_type_uint).

(** [CmpOpFolder<Op, A, Const>::make_folded_const]. *)
Definition CmpOpFolder_A_Const_make_folded_const {A} `{Folder A}
  (Op : cmp_op) (a : A) (b : Const) : M (halide_scalar_value_t * halide_type_t) :=
  '(val, ty) <- make_folded_const a ;;
  ret (fold_cmp_op Op (code ty)
         (u_i64 val) (Const_val b) (u_u64 val) (wrap_u64 (Const_val b))
         (u_f64 val) (F64.of_int (Const_val b)),
       set_code (set_bits ty 1) halide_type_uint).

#[export] Instance CmpOp_Folder Op A B `{Folder A} `{Folder B} : Folder (CmpOp Op A B) :=
  {| make_folded_const p := CmpOpFolder_make_folded_const Op (CmpOp_a p) (CmpOp_b p) |}.

#[export] Instance CmpOp_A_Const_Folder Op A `{Folder A} : Folder (CmpOp Op A Const) :=
  {| make_folded_const p :=
       CmpOpFolder_A_Const_make_folded_const Op (CmpOp_a p) (CmpOp_b p) |}.

#[export] Instance CmpOp_Const_B_Folder Op B `{Folder B} : Folder (CmpOp Op Const B) :=
  {| make_folded_const p :=
       CmpOpFolder_Const_B_make_folded_const Op (CmpOp_a p) (CmpOp_b p) |}.

(** ** Not, Select, Broadcast *)

Record NotOp (A : Type) : Type := mkNotOp { NotOp_a : A }.
Arguments mkNotOp {A}.
Arguments NotOp_a {A}.

#[export] Instance NotOp_tag A `{pattern_tag A} : pattern_tag (NotOp A) :=
  {| binds := binds A |}.

Definition NotOp_match {A} `{Matcher A} (bound : Z) (p : NotOp A) (e : BaseExprNode)
  : MatcherState -> bool * MatcherState :=
  match e with
  | Not _ _ a => match_ bound (NotOp_a p) a
  | _ => fun s => (false, s)
  end.

#[export] Instance NotOp_Matcher A `{Matcher A} : Matcher (NotOp A) :=
  {| match_ := NotOp_match |}.

#[export] Instance NotOp_Maker A `{Maker A} : Maker (NotOp A) :=
  {| make p := e <- make (NotOp_a p) ;; Not_make e |}.

Definition NotOp_make_folded_const {A} `{Folder A} (p : NotOp A)
  : M (halide_scalar_value_t * halide_type_t) :=
  '(val, ty) <- make_folded_const (NotOp_a p) ;;
  ret (of_u64 (if u_u64 val =? 0 then 1 else 0), ty).

#[export] Instance NotOp_Folder A `{Folder A} : Folder (NotOp A) :=
  {| make_folded_const := NotOp_make_folded_const |}.

Record SelectOp (C T F : Type) : Type :=
  mkSelectOp { SelectOp_c : C; SelectOp_t : T; SelectOp_f : F }.
Arguments mkSelectOp {C T F}.
Arguments SelectOp_c {C T F}.
Arguments SelectOp_t {C T F}.
Arguments SelectOp_f {C T F}.

#[export] Instance SelectOp_tag C T F `{pattern_tag C} `{pattern_tag T} `{pattern_tag F}
  : pattern_tag (SelectOp C T F) :=
  {| binds := Z.lor (Z.lor (binds C) (binds T)) (binds F) |}.

Definition SelectOp_match {C T F} `{pattern_tag C} `{pattern_tag T}
  `{Matcher C} `{Matcher T} `{Matcher F}
  (bound : Z) (p : SelectOp C T F) (e : BaseExprNode) : MatcherState -> bool * MatcherState :=
  match e with
  | Select _ _ condition true_value false_value =>
      and_then (match_ bound (SelectOp_c p) condition)
        (and_then (match_ (Z.lor bound (binds C)) (SelectOp_t p) true_value)
           (match_ (Z.lor (Z.lor bound (binds C)) (binds T)) (SelectOp_f p) false_value))
  | _ => fun s => (false, s)
  end.

#[export] Instance SelectOp_Matcher C T F `{pattern_tag C} `{pattern_tag T}
  `{Matcher C} `{Matcher T} `{Matcher F} : Matcher (SelectOp C T F) :=
  {| match_ := SelectOp_match |}.

(** [lanes] is an [int]; [-1] matches any number of lanes. *)
Record BroadcastOp (A : Type) : Type :=
  mkBroadcastOp { BroadcastOp_a : A; BroadcastOp_lanes : Z }.
Arguments mkBroadcastOp {A}.
Arguments BroadcastOp_a {A}.
Arguments BroadcastOp_lanes {A}.

#[export] Instance BroadcastOp_tag A `{pattern_tag A} : pattern_tag (BroadcastOp A) :=
  {| binds := binds A |}.

Definition BroadcastOp_match {A} `{Matcher A} (bound : Z) (p : BroadcastOp A)
  (e : BaseExprNode) : MatcherState -> bool * MatcherState :=
  match e with
  | Broadcast _ _ value n =>
      if (BroadcastOp_lanes p =? -1) || (BroadcastOp_lanes p =? n) then
        match_ bound (BroadcastOp_a p) value
      else fun s => (false, s)
  | _ => fun s => (false, s)
  end.

#[export] Instance BroadcastOp_Matcher A `{Matcher A} : Matcher (BroadcastOp A) :=
  {| match_ := BroadcastOp_match |}.

#[export] Instance BroadcastOp_Maker A `{Maker A} : Maker (BroadcastOp A) :=
  {| make p := e <- make (BroadcastOp_a p) ;; Broadcast_make e (BroadcastOp_lanes p) |}.

(** ** Negation *)

Record NegateOp (A : Type) : Type := mkNegateOp { NegateOp_a : A }.
Arguments mkNegateOp {A}.
Arguments NegateOp_a {A}.

#[export] Instance NegateOp_tag A `{pattern_tag A} : pattern_tag (NegateOp A) :=
  {| binds := binds A |}.

Definition NegateOp_match {A} `{IRHelpers} `{Matcher A} (bound : Z) (p : NegateOp A)
  (e : BaseExprNode) : MatcherState -> bool * MatcherState :=
  match e with
  | Binary _ _ Sub a b =>
      and_then (match_ bound (NegateOp_a p) b) (fun s => (is_zero (Some a), s))
  | _ => fun s => (false, s)
  end.

#[export] Instance NegateOp_Matcher A `{IRHelpers} `{Matcher A} : Matcher (NegateOp A) :=
  {| match_ := NegateOp_match |}.

Definition NegateOp_make_folded_const {A} `{Folder A} (p : NegateOp A)
  : M (halide_scalar_value_t * halide_type_t) :=
  '(val, ty) <- make_folded_const (NegateOp_a p) ;;
  let dead_bits := 64 - bits ty in
  match code ty with
  | halide_type_int =>
      if (32 <=? bits ty) && negb (u_i64 val =? 0)
         && (shl64 (u_i64 val) (65 - bits ty) =? 0)
      then ret (val, or_lanes ty signed_integer_overflow)
      else ret (of_i64 (sar64 (shl64 (neg64 (u_i64 val)) dead_bits) dead_bits), ty)
  | halide_type_uint =>
      ret (of_u64 (shru64 (shlu64 (negu64 (u_u64 val)) dead_bits) dead_bits), ty)
  | halide_type_float =>
      ret (of_f64 (F64.neg (u_f64 val)), ty)
  end.

#[export] Instance NegateOp_Folder A `{Folder A} : Folder (NegateOp A) :=
  {| make_folded_const := NegateOp_make_folded_const |}.

(** ** Ramp and Cast *)

Record RampOp (A B : Type) : Type :=
  mkRampOp { RampOp_a : A; RampOp_b : B; RampOp_lanes : Z }.
Arguments mkRampOp {A B}.
Arguments RampOp_a {A B}.
Arguments RampOp_b {A B}.
Arguments RampOp_lanes {A B}.

#[export] Instance RampOp_tag A B `{pattern_tag A} `{pattern_tag B}
  : pattern_tag (RampOp A B) :=
  {| binds := Z.lor (binds A) (binds B) |}.

Definition RampOp_match {A B} `{pattern_tag A} `{Matcher A} `{Matcher B}
  (bound : Z) (p : RampOp A B) (e : BaseExprNode) : MatcherState -> bool * MatcherState :=
  match e with
  | Ramp _ _ base stride _ =>
      and_then (match_ bound (RampOp_a p) base)
               (match_ (Z.lor bound (binds A)) (RampOp_b p) stride)
  | _ => fun s => (false, s)
  end.

#[export] Instance RampOp_Matcher A B `{pattern_tag A} `{Matcher A} `{Matcher B}
  : Matcher (RampOp A B) :=
  {| match_ := RampOp_match |}.

(** [type] is the target type of the cast the pattern makes. *)
Record CastOp (A : Type) : Type := mkCastOp { CastOp_type : halide_type_t; CastOp_a : A }.
Arguments mkCastOp {A}.
Arguments CastOp_type {A}.
Arguments CastOp_a {A}.

#[export] Instance CastOp_tag A `{pattern_tag A} : pattern_tag (CastOp A) :=
  {| binds := binds A |}.

Definition CastOp_match {A} `{Matcher A} (bound : Z) (p : CastOp A) (e : BaseExprNode)
  : MatcherState -> bool * MatcherState :=
  match e with
  | Cast _ _ value => match_ bound (CastOp_a p) value
  | _ => fun s => (false, s)
  end.

#[export] Instance CastOp_Matcher A `{Matcher A} : Matcher (CastOp A) :=
  {| match_ := CastOp_match |}.

(** ** Matching against an instance that is itself a pattern

    Besides [match (const BaseExprNode &)], the combinators have a
    [match] overload that takes an instance of their own struct: the
    rewriter can be given [add (a, b)] of two expressions without the sum
    being built.  The class below is [match] over both kinds of instance;
    on a node it is the first overload. *)

Class InstanceMatcher (P I : Type) : Type := {
  match_pattern : Z -> P -> I -> MatcherState -> bool * MatcherState
}.

#[export] Instance node_InstanceMatcher P `{Matcher P} : InstanceMatcher P BaseExprNode :=
  {| match_pattern := match_ |}.

#[export] Instance BinOp_InstanceMatcher Op Op2 A B A2 B2 `{pattern_tag A}
  `{InstanceMatcher A A2} `{InstanceMatcher B B2}
  : InstanceMatcher (BinOp Op A B) (BinOp Op2 A2 B2) :=
  {| match_pattern bound p op :=
       if bin_op_eqb Op Op2 then
         and_then (match_pattern bound (BinOp_a p) (BinOp_a op))
                  (match_pattern (Z.lor bound (binds A)) (BinOp_b p) (BinOp_b op))
       else fun s => (false, s) |}.

#[export] Instance CmpOp_InstanceMatcher Op Op2 A B A2 B2 `{pattern_tag A}
  `{InstanceMatcher A A2} `{InstanceMatcher B B2}
  : InstanceMatcher (CmpOp Op A B) (CmpOp Op2 A2 B2) :=
  {| match_pattern bound p op :=
       if cmp_op_eqb Op Op2 then
         and_then (match_pattern bound (CmpOp_a p) (CmpOp_a op))
                  (match_pattern (Z.lor bound (binds A)) (CmpOp_b p) (CmpOp_b op))
       else fun s => (false, s) |}.

#[export] Instance NotOp_InstanceMatcher A A2 `{InstanceMatcher A A2}
  : InstanceMatcher (NotOp A) (NotOp A2) :=
  {| match_pattern bound p op := match_pattern bound (NotOp_a p) (NotOp_a op) |}.

#[export] Instance SelectOp_InstanceMatcher C T F C2 T2 F2
  `{pattern_tag C} `{pattern_tag T}
  `{InstanceMatcher C C2} `{InstanceMatcher T T2} `{InstanceMatcher F F2}
  : InstanceMatcher (SelectOp C T F) (SelectOp C2 T2 F2) :=
  {| match_pattern bound p op :=
       and_then (match_pattern bound (SelectOp_c p) (SelectOp_c op))
         (and_then (match_pattern (Z.lor bound (binds C)) (SelectOp_t p) (SelectOp_t op))
            (match_pattern (Z.lor (Z.lor bound (binds C)) (binds T))
               (SelectOp_f p) (SelectOp_f op))) |}.

#[export] Instance BroadcastOp_InstanceMatcher A A2 `{InstanceMatcher A A2}
  : InstanceMatcher (BroadcastOp A) (BroadcastOp A2) :=
  {| match_pattern bound p op :=
       and_then (match_pattern bound (BroadcastOp_a p) (BroadcastOp_a op))
         (fun s => ((BroadcastOp_lanes p =? BroadcastOp_lanes op)
                    || (BroadcastOp_lanes p =? -1)
                    || (BroadcastOp_lanes op =? -1), s)) |}.

#[export] Instance RampOp_InstanceMatcher A B A2 B2 `{pattern_tag A}
  `{InstanceMatcher A A2} `{InstanceMatcher B B2}
  : InstanceMatcher (RampOp A B) (RampOp A2 B2) :=
  {| match_pattern bound p op :=
       and_then (match_pattern bound (RampOp_a p) (RampOp_a op))
                (match_pattern (Z.lor bound (binds A)) (RampOp_b p) (RampOp_b op)) |}.

#[export] Instance NegateOp_InstanceMatcher A A2 `{InstanceMatcher A A2}
  : InstanceMatcher (NegateOp A) (NegateOp A2) :=
  {| match_pattern bound p op := match_pattern bound (NegateOp_a p) (NegateOp_a op) |}.

#[export] Instance CastOp_InstanceMatcher A A2 `{InstanceMatcher A A2}
  : InstanceMatcher (CastOp A) (CastOp A2) :=
  {| match_pattern bound p op := match_pattern bound (CastOp_a p) (CastOp_a op) |}.

(** [add (a, b)], [select (c, t, f)] and the like on expressions. *)
Definition instance_of_binary (op : bin_op) (a b : BaseExprNode)
  : BinOp op BaseExprNode BaseExprNode := mkBinOp a b.
Definition instance_of_select (c t f : BaseExprNode)
  : SelectOp BaseExprNode BaseExprNode BaseExprNode := mkSelectOp c t f.

(** ** Predicate and replacement helpers *)

Record IsConstOp (A : Type) : Type := mkIsConstOp { IsConstOp_a : A }.
Arguments mkIsConstOp {A}.
Arguments IsConstOp_a {A}.

#[export] Instance IsConstOp_tag A `{pattern_tag A} : pattern_tag (IsConstOp A) :=
  {| binds := binds A |}.

Definition IsConstOp_make_folded_const {A} `{IRHelpers} `{Maker A} (p : IsConstOp A)
  : M (halide_scalar_value_t * halide_type_t) :=
  e <- make (IsConstOp_a p) ;;
  ret (of_u64 (if is_const e then 1 else 0), mk_type halide_type_uint 64 1).

#[export] Instance IsConstOp_Folder A `{IRHelpers} `{Maker A} : Folder (IsConstOp A) :=
  {| make_folded_const := IsConstOp_make_folded_const |}.

Record FoldOp (A : Type) : Type := mkFoldOp { FoldOp_a : A }.
Arguments mkFoldOp {A}.
Arguments FoldOp_a {A}.

#[export] Instance FoldOp_tag A `{pattern_tag A} : pattern_tag (FoldOp A) :=
  {| binds := binds A |}.

Definition FoldOp_make {A} `{Folder A} (p : FoldOp A) : M Expr :=
  '(c, ty) <- make_folded_const (FoldOp_a p) ;;
  to_expr c ty.

#[export] Instance FoldOp_Maker A `{Folder A} : Maker (FoldOp A) :=
  {| make := FoldOp_make |}.

Record BindOp (i : wild) (A : Type) : Type := mkBindOp { BindOp_a : A }.
Arguments mkBindOp {i A}.
Arguments BindOp_a {i A}.

#[export] Instance BindOp_tag i A `{pattern_tag A} : pattern_tag (BindOp i A) :=
  {| binds := Z.lor (binds A) (Z.shiftl 1 (index i)) |}.

Definition BindOp_make_folded_const {i A} `{Folder A} (p : BindOp i A)
  : M (halide_scalar_value_t * halide_type_t) :=
  '(val, ty) <- make_folded_const (BindOp_a p) ;;
  _ <- modify_state (set_bound_const i val ty) ;;
  ret (of_u64 1, mk_type halide_type_uint 1 1).

#[export] Instance BindOp_Folder i A `{Folder A} : Folder (BindOp i A) :=
  {| make_folded_const := BindOp_make_folded_const |}.

(** [bind (WildConst<i> c, A a)]. *)
Definition bind_ {i A} (c : WildConst i) (a : A) : BindOp i A := mkBindOp a.

(** ** Rule application *)

(** [evaluate_predicate] on a pattern. *)
Definition evaluate_predicate {P} `{Folder P} (p : P) : M bool :=
  '(c, ty) <- make_folded_const p ;;
  ret (negb (u_u64 c =? 0) && (Z.land (lanes ty) special_values_mask =? 0)).

(** [Rewriter<Instance>], with a node as the instance. *)
Record Rewriter : Type := mkRewriter {
  instance : BaseExprNode;
  result : Expr;
  rw_state : MatcherState
}.

(** The outcome of a call of [operator()], made with the counter at [c]
    and the next free address at [b]: its return value, the rewriter
    afterwards and the two globals afterwards. *)
Definition outcome : Type := bool * Rewriter * (Z * ptr).

Definition no_match (rw : Rewriter) (w : Env) : outcome :=
  (false, mkRewriter (instance rw) (result rw) (state w), (counter w, brk w)).

Definition matched (rw : Rewriter) (r : Expr) (w : Env) : outcome :=
  (true, mkRewriter (instance rw) r (state w), (counter w, brk w)).

(** [operator() (before, after)] with a pattern [after]. *)
Definition Rewriter_call {Before After} `{Matcher Before} `{Maker After}
  (before : Before) (after : After) (rw : Rewriter) (c : Z) (b : ptr) : outcome :=
  let s := reset (rw_state rw) in
  let (m, s) := match_ 0 before (instance rw) s in
  if m then
    let (r, w) := make after (mk_env s c b) in matched rw r w
  else no_match rw (mk_env s c b).

(** [operator() (before, after)] with an expression [after]. *)
Definition Rewriter_call_expr {Before} `{Matcher Before}
  (before : Before) (after : Expr) (rw : Rewriter) (c : Z) (b : ptr) : outcome :=
  let s := reset (rw_state rw) in
  let (m, s) := match_ 0 before (instance rw) s in
  if m then matched rw after (mk_env s c b)
  else no_match rw (mk_env s c b).

(** [operator() (before, after, pred)] with a pattern [after]. *)
Definition Rewriter_call_pred {Before After Predicate}
  `{Matcher Before} `{Maker After} `{Folder Predicate}
  (before : Before) (after : After) (pred : Predicate)
  (rw : Rewriter) (c : Z) (b : ptr) : outcome :=
  let s := reset (rw_state rw) in
  let (m, s) := match_ 0 before (instance rw) s in
  if m then
    let (ok, w) := evaluate_predicate pred (mk_env s c b) in
    if ok then
      let (r, w) := make after w in matched rw r w
    else no_match rw w
  else no_match rw (mk_env s c b).

(** [operator() (before, after, pred)] with an expression [after]. *)
Definition Rewriter_call_expr_pred {Before Predicate}
  `{Matcher Before} `{Folder Predicate}
  (before : Before) (after : Expr) (pred : Predicate)
  (rw : Rewriter) (c : Z) (b : ptr) : outcome :=
  let s := reset (rw_state rw) in
  let (m, s) := match_ 0 before (instance rw) s in
  if m then
    let (ok, w) := evaluate_predicate pred (mk_env s c b) in
    if ok then matched rw after w else no_match rw w
  else no_match rw (mk_env s c b).

(** ** Vocabulary of the statements *)

(** The flag [flag] is set in the lanes field of [t]. *)
Definition has_flag (t : halide_type_t) (flag : Z) : bool :=
  negb (Z.land (lanes t) flag =? 0).

(** The exact mathematical result of the three ring operations. *)
Definition exact_result (op : bin_op) (a b : Z) : option Z :=
  match op with
  | Add => Some (a + b)
  | Sub => Some (a - b)
  | Mul => Some (a * b)
  | _ => None
  end.

(** The value of an immediate of the given kind, if the node is one. *)
Definition IntImm_value (e : BaseExprNode) : option Z :=
  match e with IntImm _ _ v => Some v | _ => None end.
Definition UIntImm_value (e : BaseExprNode) : option Z :=
  match e with UIntImm _ _ v => Some v | _ => None end.
Definition FloatImm_value (e : BaseExprNode) : option Z :=
  match e with FloatImm _ _ v => Some v | _ => None end.

(** The immediate node at address [p] that holds the payload [val] as the
    scalar type [t] reads it. *)
Definition scalar_immediate (p : ptr) (t : halide_type_t) (val : halide_scalar_value_t)
  : BaseExprNode :=
  match code t with
  | halide_type_int => IntImm p t (u_i64 val)
  | halide_type_uint => UIntImm p t (u_u64 val)
  | halide_type_float => FloatImm p t (u_f64 val)
  end.

(** The id carried by a call of one of the two reserved intrinsics. *)
Definition poison_id (e : Expr) : option Z :=
  match e with
  | Some (Call _ _ _ [IntImm _ _ c]) => Some c
  | _ => None
  end.

(** The intrinsic a poisoned type is emitted as. *)
Definition poison_intrinsic (ty : halide_type_t) : string :=
  if has_flag ty indeterminate_expression then Call_indeterminate_expression
  else Call_signed_integer_overflow.

(** [t'] is [t] up to flags added: same code, bits and lane count, and
    every flag of [t]. *)
Definition type_kept (t t' : halide_type_t) : Prop :=
  code t' = code t /\ bits t' = bits t /\
  Z.land (lanes t') 0x3FFF = Z.land (lanes t) 0x3FFF /\
  (forall flag, has_flag t flag = true -> has_flag t' flag = true).

(** The payload is a truth value. *)
Definition is_bool (v : halide_scalar_value_t) : Prop := u_u64 v = 0 \/ u_u64 v = 1.

(** The short-circuit test of [BinOpFolder]. *)
Definition short_circuits (op : bin_op) (val_a : halide_scalar_value_t) : bool :=
  (is_And op && (u_u64 val_a =? 0)) || (is_Or op && (u_u64 val_a =? 1)).

(** The node with every address replaced by 0: what is left is the
    structure that expressions are compared by. *)
Fixpoint erase (e : BaseExprNode) : BaseExprNode :=
  match e with
  | IntImm _ t v => IntImm 0%N t v
  | UIntImm _ t v => UIntImm 0%N t v
  | FloatImm _ t v => FloatImm 0%N t v
  | Cast _ t v => Cast 0%N t (erase v)
  | Binary _ t op a b => Binary 0%N t op (erase a) (erase b)
  | Compare _ t op a b => Compare 0%N t op (erase a) (erase b)
  | Not _ t a => Not 0%N t (erase a)
  | Select _ t c x y => Select 0%N t (erase c) (erase x) (erase y)
  | Ramp _ t base stride n => Ramp 0%N t (erase base) (erase stride) n
  | Broadcast _ t v n => Broadcast 0%N t (erase v) n
  | Call _ t name args => Call 0%N t name (map erase args)
  | Other _ t k name => Other 0%N t k name
  end.

(** A well-typed scalar constant: an immediate whose type has the code of
    its kind and one lane, and whose value is in the range of the field
    that holds it. *)
Definition scalar_constant (e : BaseExprNode) : bool :=
  match e with
  | IntImm _ t v =>
      code_eqb (code t) halide_type_int && (lanes t =? 1) && fits_signed 64 v
  | UIntImm _ t v => code_eqb (code t) halide_type_uint && (lanes t =? 1)
  | FloatImm _ t v => code_eqb (code t) halide_type_float && (lanes t =? 1)
  | _ => false
  end.

(** A scalar constant, or the broadcast of one to [n] lanes, of the
    scalar's type with [n] lanes. *)
Definition broadcast_of_constant (n : Z) (e : BaseExprNode) : bool :=
  match e with
  | Broadcast _ t v m =>
      scalar_constant v && type_eqb t (set_lanes (type_of v) n) && (m =? n)
  | _ => false
  end.

(** Two states hold the same content in the cells that [inmask] selects:
    bit [j] selects the bound constant [j] and its type, bit [j + 16] the
    binding [j]. *)
Definition agree_on (inmask : Z -> bool) (s1 s2 : MatcherState) : Prop :=
  forall j : wild,
    (inmask (index j) = true ->
     bound_const s1 j = bound_const s2 j /\
     bound_const_type s1 j = bound_const_type s2 j) /\
    (inmask (index j + 16) = true -> bindings s1 j = bindings s2 j).

(** A match run with the mask [bound] by a pattern that binds [binds]
    reads only the cells of [bound]: from two states that agree there it
    answers the same, and when it succeeds the two states it leaves agree
    on the cells of [bound] and [binds]. *)
Definition reads_bound (bound binds : Z) (m : MatcherState -> bool * MatcherState)
  : Prop :=
  forall s1 s2 : MatcherState,
    agree_on (Z.testbit bound) s1 s2 ->
    fst (m s1) = fst (m s2) /\
    (fst (m s1) = true ->
     agree_on (Z.testbit (Z.lor bound binds)) (snd (m s1)) (snd (m s2))).

(** It writes only the cells of [binds] that are not in [bound]. *)
Definition writes_unbound (bound binds : Z) (m : MatcherState -> bool * MatcherState)
  : Prop :=
  forall s : MatcherState,
    agree_on (fun k => Z.testbit bound k || negb (Z.testbit binds k)) s (snd (m s)).

(** The two properties for every use of a pattern type. *)
Definition reads_bound_cells_only (P : Type) `{pattern_tag P} `{Matcher P} : Prop :=
  forall (bound : Z) (p : P) (e : BaseExprNode),
    reads_bound bound (binds P) (match_ bound p e).

Definition writes_unbound_cells_only (P : Type) `{pattern_tag P} `{Matcher P} : Prop :=
  forall (bound : Z) (p : P) (e : BaseExprNode),
    writes_unbound bound (binds P) (match_ bound p e).

(** Two states of a call agree on the cells of [m] and on the two
    globals. *)
Definition env_agree (m : Z) (u1 u2 : Env) : Prop :=
  agree_on (Z.testbit m) (state u1) (state u2) /\
  counter u1 = counter u2 /\ brk u1 = brk u2.

(** A computation reads of the match state only the cells of [m]: from
    two agreeing states it returns the same and leaves agreeing states. *)
Definition reads_cells {X : Type} (m : Z) (f : M X) : Prop :=
  forall u1 u2 : Env,
    env_agree m u1 u2 ->
    fst (f u1) = fst (f u2) /\ env_agree m (snd (f u1)) (snd (f u2)).

Definition fold_reads (m : Z) (P : Type) `{Folder P} : Prop :=
  forall p : P, reads_cells m (make_folded_const p).

Definition make_reads (m : Z) (P : Type) `{Maker P} : Prop :=
  forall p : P, reads_cells m (make p).

(** ** Concrete inputs of the examples *)

(** Some content of a rewriter's state before its first use. *)
Definition some_state : MatcherState :=
  mk_state (fun _ => Other 0%N (Int 32) Variable_ "uninitialised"%string)
           (fun _ => mk_scalar 0) (fun _ => Int 32).

Definition some_env : Env := mk_env some_state 0 100%N.

(** The state after [c0] was bound to the [int32] constant [v]. *)
Definition bound_int32 (v : Z) : Env :=
  mk_env (set_bound_const w0 (of_i64 v) (Int 32) some_state) 0 100%N.

(** The state after [c0] was bound to the [bool] constant [a], [c1] to
    the [int32] constant [x] and [c2] to the [int32] constant [y]. *)
Definition bound_bool_int32_int32 (a x y : Z) : Env :=
  mk_env (set_bound_const w2 (of_i64 y) (Int 32)
            (set_bound_const w1 (of_i64 x) (Int 32)
               (set_bound_const w0 (of_u64 a) (UInt 1) some_state)))
         0 100%N.

(** [c1 / c2 == c1], a predicate that folds to a poisoned truth value
    when [c2] is bound to zero. *)
Definition quotient_is_c1
  : CmpOp EQ (BinOp Div (WildConstInt w1) (WildConstInt w2)) (WildConstInt w1) :=
  mkCmpOp (op_div mkWildConstInt mkWildConstInt) mkWildConstInt.

(** An implementation of the helper functions, for the examples:
    immediates compare by value (doubles with [==]), other leaves by name,
    and the constants are the immediates and their broadcasts. *)
Definition sample_equal_helper (a b : BaseExprNode) : bool :=
  match a, b with
  | IntImm _ _ x, IntImm _ _ y => x =? y
  | UIntImm _ _ x, UIntImm _ _ y => x =? y
  | FloatImm _ _ x, FloatImm _ _ y => F64.eqb x y
  | Other _ _ _ x, Other _ _ _ y => String.eqb x y
  | _, _ => false
  end.

Definition sample_is_const (e : Expr) : bool :=
  match e with
  | Some n =>
      match peel_broadcast n with
      | IntImm _ _ _ | UIntImm _ _ _ | FloatImm _ _ _ => true
      | _ => false
      end
  | None => false
  end.

Definition sample_is_zero (e : Expr) : bool :=
  match e with
  | Some n =>
      match peel_broadcast n with
      | IntImm _ _ v | UIntImm _ _ v => v =? 0
      | FloatImm _ _ v => F64.eqb v 0
      | _ => false
      end
  | None => false
  end.

Definition sample_helpers : IRHelpers :=
  {| equal_helper := sample_equal_helper;
     is_const := sample_is_const;
     is_zero := sample_is_zero |}.

(** The variable [y] of type [int32] at address 7, and another node for
    the same variable at address 8. *)
Definition var_y : BaseExprNode := Other 7%N (Int 32) Variable_ "y"%string.
Definition var_y' : BaseExprNode := Other 8%N (Int 32) Variable_ "y"%string.
Definition var_z : BaseExprNode := Other 9%N (Int 32) Variable_ "z"%string.

(** The [int32] constant 3 and its broadcast to four lanes, the [double]
    constants [+0.0], [-0.0] and a NaN. *)
Definition three : BaseExprNode := IntImm 1%N (Int 32) 3.
Definition three_x4 : BaseExprNode :=
  Broadcast 2%N (mk_type halide_type_int 32 4) three 4.
Definition plus_zero : BaseExprNode := FloatImm 3%N (Float 64) 0.
Definition minus_zero : BaseExprNode := FloatImm 4%N (Float 64) F64.sign_bit.
Definition a_nan : BaseExprNode := FloatImm 5%N (Float 64) 0x7FF8000000000000.

(** * Properties *)

(** ** Arithmetic of the shift idiom *)

Lemma pow2_pos (n : Z) : 0 <= n -> 0 < 2 ^ n.
Proof. intros. apply Z.pow_pos_nonneg; lia. Qed.

Lemma wrap_i64_sign_extend (x : Z) : wrap_i64 x = sign_extend 64 x.
Proof. reflexivity. Qed.

Lemma sign_extend_mod (bits x y : Z) :
  0 < bits -> x mod 2 ^ bits = y mod 2 ^ bits -> sign_extend bits x = sign_extend bits y.
Proof.
  intros Hb Hxy. unfold sign_extend. f_equal.
  replace (2 ^ bits) with (2 * 2 ^ (bits - 1)) in *
    by (rewrite <- Z.pow_succ_r by lia; f_equal; lia).
  rewrite (Z.add_mod x), (Z.add_mod y), Hxy by (pose proof (pow2_pos (bits - 1)); lia).
  reflexivity.
Qed.

Lemma sign_extend_range (bits x : Z) :
  0 < bits -> - 2 ^ (bits - 1) <= sign_extend bits x < 2 ^ (bits - 1).
Proof.
  intros Hb. unfold sign_extend.
  assert (H2 : 2 ^ bits = 2 * 2 ^ (bits - 1))
    by (rewrite <- Z.pow_succ_r by lia; f_equal; lia).
  pose proof (pow2_pos (bits - 1) ltac:(lia)).
  pose proof (Z.mod_pos_bound (x + 2 ^ (bits - 1)) (2 ^ bits) ltac:(lia)). lia.
Qed.

Lemma sign_extend_small (bits x : Z) :
  0 < bits -> - 2 ^ (bits - 1) <= x < 2 ^ (bits - 1) -> sign_extend bits x = x.
Proof.
  intros Hb Hx. unfold sign_extend.
  assert (H2 : 2 ^ bits = 2 * 2 ^ (bits - 1))
    by (rewrite <- Z.pow_succ_r by lia; f_equal; lia).
  rewrite Z.mod_small by lia. lia.
Qed.

Lemma sign_extend_mod_same (bits x : Z) :
  0 < bits -> (sign_extend bits x) mod 2 ^ bits = x mod 2 ^ bits.
Proof.
  intros Hb. unfold sign_extend.
  pose proof (pow2_pos bits ltac:(lia)).
  assert (H2 : 2 ^ bits = 2 * 2 ^ (bits - 1))
    by (rewrite <- Z.pow_succ_r by lia; f_equal; lia).
  rewrite Zminus_mod, Z.mod_mod, <- Zminus_mod by lia.
  f_equal. lia.
Qed.

(** Shifting left by [64 - bits] within 64 bits scales the sign extension. *)
Lemma shl64_sign_extend (bits x : Z) :
  0 < bits <= 64 -> shl64 x (64 - bits) = 2 ^ (64 - bits) * sign_extend bits x.
Proof.
  intros Hb. unfold shl64, wrap_i64, sign_extend.
  rewrite Z.shiftl_mul_pow2 by lia.
  pose proof (pow2_pos (64 - bits) ltac:(lia)) as Hd.
  pose proof (pow2_pos bits ltac:(lia)) as Hp.
  assert (H63 : 2 ^ 63 = 2 ^ (64 - bits) * 2 ^ (bits - 1))
    by (rewrite <- Z.pow_add_r by lia; f_equal; lia).
  assert (H64 : 2 ^ 64 = 2 ^ (64 - bits) * 2 ^ bits)
    by (rewrite <- Z.pow_add_r by lia; f_equal; lia).
  rewrite H63, H64.
  replace (x * 2 ^ (64 - bits) + 2 ^ (64 - bits) * 2 ^ (bits - 1))
    with (2 ^ (64 - bits) * (x + 2 ^ (bits - 1))) by ring.
  rewrite Z.mul_mod_distr_l by lia. ring.
Qed.

(** [((x << dead_bits) >> dead_bits)] drops the high bits and sign-extends
    them back. *)
Lemma sar_shl_sign_extend (bits x : Z) :
  0 < bits <= 64 ->
  sar64 (shl64 x (64 - bits)) (64 - bits) = sign_extend bits x.
Proof.
  intros Hb. rewrite shl64_sign_extend by lia. unfold sar64.
  rewrite Z.shiftr_div_pow2 by lia.
  pose proof (pow2_pos (64 - bits) ltac:(lia)).
  rewrite Z.mul_comm, Z.div_mul by lia. reflexivity.
Qed.

Lemma sar_shl_wrap (bits x : Z) :
  0 < bits <= 64 ->
  sar64 (shl64 (wrap_i64 x) (64 - bits)) (64 - bits) = sign_extend bits x.
Proof.
  intros Hb. rewrite sar_shl_sign_extend by lia.
  apply sign_extend_mod; [lia|].
  rewrite wrap_i64_sign_extend.
  assert (H64 : 2 ^ 64 = 2 ^ (64 - bits) * 2 ^ bits)
    by (rewrite <- Z.pow_add_r by lia; f_equal; lia).
  pose proof (pow2_pos (64 - bits) ltac:(lia)).
  pose proof (pow2_pos bits ltac:(lia)).
  pose proof (sign_extend_mod_same 64 x ltac:(lia)) as Hm.
  assert (Hdiv : (2 ^ bits | 2 ^ 64)) by (exists (2 ^ (64 - bits)); lia).
  rewrite <- (Z.mod_mod_divide (sign_extend 64 x) (2 ^ 64) (2 ^ bits) Hdiv).
  rewrite <- (Z.mod_mod_divide x (2 ^ 64) (2 ^ bits) Hdiv).
  rewrite Hm. reflexivity.
Qed.

Lemma fits_signed_true (bits z : Z) :
  fits_signed bits z = true <-> - 2 ^ (bits - 1) <= z < 2 ^ (bits - 1).
Proof. unfold fits_signed. rewrite andb_true_iff, Z.leb_le, Z.ltb_lt. tauto. Qed.

Lemma land_pow2 (l n : Z) :
  0 <= n -> Z.land l (2 ^ n) = if Z.testbit l n then 2 ^ n else 0.
Proof.
  intros Hn. apply Z.bits_inj'. intros k Hk.
  rewrite Z.land_spec, Z.pow2_bits_eqb by lia.
  destruct (Z.eqb_spec n k) as [->|Hne].
  - destruct (Z.testbit l k); [|now rewrite Z.bits_0].
    now rewrite Z.pow2_bits_true by lia.
  - rewrite andb_false_r. destruct (Z.testbit l n); [|now rewrite Z.bits_0].
    now rewrite Z.pow2_bits_false by lia.
Qed.

Lemma has_flag_testbit (t : halide_type_t) (n : Z) :
  0 <= n -> has_flag t (2 ^ n) = Z.testbit (lanes t) n.
Proof.
  intros Hn. unfold has_flag. rewrite land_pow2 by lia.
  pose proof (pow2_pos n Hn).
  destruct (Z.testbit (lanes t) n); simpl; [|reflexivity].
  destruct (Z.eqb_spec (2 ^ n) 0); [lia|reflexivity].
Qed.

Lemma has_overflow_or_lanes (t : halide_type_t) (c : bool) :
  has_flag (or_lanes t (if c then signed_integer_overflow else 0)) signed_integer_overflow
  = has_flag t signed_integer_overflow || c.
Proof.
  change signed_integer_overflow with (2 ^ 15).
  rewrite !has_flag_testbit by lia. unfold or_lanes, set_lanes. cbn [lanes].
  rewrite Z.lor_spec. destruct c; [now rewrite (Z.pow2_bits_true 15) by lia|].
  now rewrite Z.bits_0, orb_false_r.
Qed.

Lemma has_indeterminate_or_lanes (t : halide_type_t) :
  has_flag (or_lanes t indeterminate_expression) indeterminate_expression = true.
Proof.
  change indeterminate_expression with (2 ^ 14).
  rewrite has_flag_testbit by lia. unfold or_lanes, set_lanes. cbn [lanes].
  rewrite Z.lor_spec. rewrite (Z.pow2_bits_true 14) by lia. apply orb_true_r.
Qed.

(** ** Signed addition, subtraction and multiplication *)

Lemma constant_fold_ring_op (op : bin_op) (t : halide_type_t) (a b r : Z) :
  exact_result op a b = Some r ->
  constant_fold_bin_op_i64 op t a b =
  (or_lanes t (if (32 <=? bits t) && negb (fits_signed (bits t) r)
               then signed_integer_overflow else 0),
   sar64 (shl64 (wrap_i64 r) (64 - bits t)) (64 - bits t)).
Proof.
  destruct op; simpl; intros [= <-]; reflexivity.
Qed.

(** C3: for a type [t] of 1 to 64 bits, the signed kernel folding [a + b], [a - b]
    or [a * b] (exact result [r]) yields the 64-bit result truncated and
    sign-extended to [bits t]; the type comes back with
    [signed_integer_overflow] or-ed into its lanes exactly when
    [bits t >= 32] and [r] does not fit in [bits t] bits, so on a type
    that did not carry the flag, the flag is set if and only if that is
    the case; and when [r] fits, the payload is [r] itself. *)
Theorem fold_signed_add_sub_mul (op : bin_op) (t : halide_type_t) (a b r : Z) :
  0 < bits t <= 64 ->
  exact_result op a b = Some r ->
  let (t', v) := constant_fold_bin_op_i64 op t a b in
  v = sign_extend (bits t) r /\
  t' = or_lanes t (if (32 <=? bits t) && negb (fits_signed (bits t) r)
                   then signed_integer_overflow else 0) /\
  (has_flag t signed_integer_overflow = false ->
   (has_flag t' signed_integer_overflow = true <->
    32 <= bits t /\ fits_signed (bits t) r = false)) /\
  (fits_signed (bits t) r = true ->
   v = r /\ has_flag t' signed_integer_overflow = has_flag t signed_integer_overflow).
Proof.
  intros Hb Hr. rewrite (constant_fold_ring_op _ _ _ _ _ Hr).
  rewrite sar_shl_wrap by lia.
  split; [reflexivity|]. split; [reflexivity|]. split.
  - intros Hclean. rewrite has_overflow_or_lanes, Hclean. simpl.
    rewrite andb_true_iff, Z.leb_le, negb_true_iff. tauto.
  - intros Hfit. split.
    + apply sign_extend_small; [lia|]. now apply fits_signed_true.
    + rewrite has_overflow_or_lanes, Hfit. simpl.
      now rewrite andb_false_r, orb_false_r.
Qed.

Lemma fold_signed_add_sub_mul_witness :
  (let (t', v) := constant_fold_bin_op_i64 Add (Int 32) 2147483647 1 in
   v = -2147483648 /\ has_flag t' signed_integer_overflow = true) /\
  (let (t', v) := constant_fold_bin_op_i64 Mul (Int 16) 300 300 in
   v = 24464 /\ has_flag t' signed_integer_overflow = false) /\
  (let (t', v) := constant_fold_bin_op_i64 Sub (Int 32) 3 5 in
   v = -2 /\ has_flag t' signed_integer_overflow = false).
Proof.
  pose proof (fold_signed_add_sub_mul Add (Int 32) 2147483647 1 2147483648
                ltac:(simpl; lia) eq_refl) as H1.
  pose proof (fold_signed_add_sub_mul Mul (Int 16) 300 300 90000
                ltac:(simpl; lia) eq_refl) as H2.
  pose proof (fold_signed_add_sub_mul Sub (Int 32) 3 5 (-2)
                ltac:(simpl; lia) eq_refl) as H3.
  destruct (constant_fold_bin_op_i64 Add (Int 32) 2147483647 1) as [t1 v1].
  destruct (constant_fold_bin_op_i64 Mul (Int 16) 300 300) as [t2 v2].
  destruct (constant_fold_bin_op_i64 Sub (Int 32) 3 5) as [t3 v3].
  destruct H1 as (Hv1 & Ht1 & _ & _).
  destruct H2 as (Hv2 & Ht2 & _ & _).
  destruct H3 as (Hv3 & Ht3 & _ & _).
  subst. repeat split; reflexivity.
Defined.

(** ** Division and modulus by zero *)

(** C4: for both integer kernels, folding [a / 0] and [a % 0] returns the
    payload 0 and the type with [indeterminate_expression] or-ed into its
    lanes, so the flag is set; with a non-zero divisor the type comes back
    unchanged, so no flag is added. *)
Theorem fold_div_mod_by_zero (op : bin_op) (t : halide_type_t) (a b : Z) :
  op = Div \/ op = Mod ->
  constant_fold_bin_op_i64 op t a 0 = (or_lanes t indeterminate_expression, 0) /\
  constant_fold_bin_op_u64 op t a 0 = (or_lanes t indeterminate_expression, 0) /\
  has_flag (or_lanes t indeterminate_expression) indeterminate_expression = true /\
  (b <> 0 ->
   fst (constant_fold_bin_op_i64 op t a b) = t /\
   fst (constant_fold_bin_op_u64 op t a b) = t).
Proof.
  intros Hop. repeat split;
    try apply has_indeterminate_or_lanes;
    destruct Hop; subst op; cbn [constant_fold_bin_op_i64 constant_fold_bin_op_u64];
    try reflexivity;
    destruct (Z.eqb_spec b 0); try contradiction; reflexivity.
Qed.

Lemma fold_div_mod_by_zero_witness :
  constant_fold_bin_op_i64 Mod (Int 32) 7 0 = (mk_type halide_type_int 32 0x4001, 0) /\
  constant_fold_bin_op_u64 Mod (UInt 8) 7 0 = (mk_type halide_type_uint 8 0x4001, 0) /\
  fst (constant_fold_bin_op_i64 Mod (Int 32) (-7) 2) = Int 32.
Proof.
  destruct (fold_div_mod_by_zero Mod (Int 32) 7 1 (or_intror eq_refl)) as (H1 & _).
  destruct (fold_div_mod_by_zero Mod (UInt 8) 7 1 (or_intror eq_refl)) as (_ & H2 & _).
  destruct (fold_div_mod_by_zero Mod (Int 32) (-7) 2 (or_intror eq_refl)) as (_ & _ & _ & H3).
  split; [exact H1|]. split; [exact H2|].
  apply H3. discriminate.
Defined.

(** The same through [BinOpFolder]: a quotient or remainder pattern whose
    operands are of an integer type and whose divisor folds to 0 folds to
    the payload 0 with the indeterminate flag on the merged type. *)
Lemma fold_division_by_zero_pattern {A B : Type} `{Folder A} `{Folder B}
  (op : bin_op) (a : A) (b : B) (w : Env) :
  op = Div \/ op = Mod ->
  let '((val_a, type_a), wa) := make_folded_const a w in
  let '((val_b, type_b), wb) := make_folded_const b wa in
  code type_a <> halide_type_float ->
  u_u64 val_b = 0 ->
  make_folded_const (@mkBinOp op A B a b) w
  = ((mk_scalar 0,
      or_lanes (or_lanes type_a (lanes type_b)) indeterminate_expression), wb).
Proof.
  intros Hop.
  destruct (make_folded_const a w) as [[val_a type_a] wa] eqn:Ha.
  destruct (make_folded_const b wa) as [[val_b type_b] wb] eqn:Hb.
  intros Hcode Hzero.
  cbn [make_folded_const BinOp_Folder BinOp_a BinOp_b].
  unfold BinOpFolder_make_folded_const, bind. rewrite Ha.
  assert (Hns : (is_And op && (u_u64 val_a =? 0)) || (is_Or op && (u_u64 val_a =? 1))
                = false) by (destruct Hop; subst op; reflexivity).
  rewrite Hns, Hb. unfold ret, fold_bin_op, u_i64. rewrite Hzero.
  destruct (code type_a); [| |contradiction];
    destruct Hop; subst op; reflexivity.
Qed.

(** ** Negation *)

Lemma wrap_i64_small (x : Z) : - 2 ^ 63 <= x < 2 ^ 63 -> wrap_i64 x = x.
Proof. intros. rewrite wrap_i64_sign_extend. apply sign_extend_small; lia. Qed.

Lemma u_i64_of_i64 (x : Z) : u_i64 (of_i64 x) = wrap_i64 x.
Proof.
  unfold u_i64, of_i64, wrap_u64. cbn [u_u64].
  rewrite !wrap_i64_sign_extend. apply sign_extend_mod; [lia|].
  apply Z.mod_mod. lia.
Qed.

Lemma pow2_le_63 (bits : Z) : 0 < bits <= 64 -> 2 ^ (bits - 1) <= 2 ^ 63.
Proof. intros. apply Z.pow_le_mono_r; lia. Qed.

(** The guard of the overflow branch, on a constant of the type: the
    value is non-zero and its low [bits - 1] bits are zero exactly when
    it is the most negative value. *)
Lemma negate_guard (bits v : Z) :
  1 < bits <= 64 ->
  - 2 ^ (bits - 1) <= v < 2 ^ (bits - 1) ->
  negb (v =? 0) && (shl64 v (65 - bits) =? 0) = (v =? - 2 ^ (bits - 1)).
Proof.
  intros Hb Hv.
  replace (65 - bits) with (64 - (bits - 1)) by lia.
  rewrite shl64_sign_extend by lia.
  pose proof (pow2_pos (64 - (bits - 1)) ltac:(lia)) as Hd.
  pose proof (pow2_pos (bits - 1) ltac:(lia)) as Hp.
  pose proof (sign_extend_mod_same (bits - 1) v ltac:(lia)) as Hm.
  destruct (Z.eqb_spec v (- 2 ^ (bits - 1))) as [Hmin|Hmin].
  - assert (Hs : sign_extend (bits - 1) v = 0).
    { rewrite (sign_extend_mod (bits - 1) v 0); [apply sign_extend_small; lia|lia|].
      subst v. rewrite Z.mod_0_l by lia.
      rewrite Z.mod_opp_l_z; [reflexivity|lia|apply Z.mod_same; lia]. }
    rewrite Hs, Z.mul_0_r, Z.eqb_refl, andb_true_r.
    destruct (Z.eqb_spec v 0); [lia|reflexivity].
  - destruct (Z.eqb_spec v 0) as [H0|H0]; [reflexivity|]. cbn [negb andb].
    destruct (Z.eqb_spec (2 ^ (64 - (bits - 1)) * sign_extend (bits - 1) v) 0)
      as [He|He]; [|reflexivity].
    exfalso.
    assert (Hs : sign_extend (bits - 1) v = 0)
      by (apply Z.mul_eq_0 in He; destruct He; [lia|assumption]).
    rewrite Hs, Z.mod_0_l in Hm by lia.
    symmetry in Hm. apply Z.mod_divide in Hm; [|lia].
    destruct Hm as [k Hk].
    remember (2 ^ (bits - 1)) as P eqn:HP. clear HP Hd.
    assert (Hk' : k = 0 \/ k = -1) by nia.
    destruct Hk'; subst k; lia.
Qed.

(** C6: let the operand fold to a signed constant [v] of a type of 32 to
    64 bits that carries no overflow flag.  Folding the negation leaves
    the state as the operand left it; it sets [signed_integer_overflow] if
    and only if [v] is the most negative value of the type (the payload
    and the rest of the type are then unchanged); otherwise the type is
    unchanged and the payload is [((-v) << (64 - bits)) >> (64 - bits)],
    which is [-v]. *)
Theorem negate_fold_signed {A : Type} `{Folder A} (a : A) (w w' : Env)
  (val : halide_scalar_value_t) (ty : halide_type_t) :
  make_folded_const a w = ((val, ty), w') ->
  code ty = halide_type_int ->
  32 <= bits ty <= 64 ->
  fits_signed (bits ty) (u_i64 val) = true ->
  has_flag ty signed_integer_overflow = false ->
  let '((val', ty'), w'') := make_folded_const (mkNegateOp a) w in
  let v := u_i64 val in
  let dead_bits := 64 - bits ty in
  w'' = w' /\
  (has_flag ty' signed_integer_overflow = true <-> v = - 2 ^ (bits ty - 1)) /\
  (v = - 2 ^ (bits ty - 1) ->
   val' = val /\ ty' = or_lanes ty signed_integer_overflow) /\
  (v <> - 2 ^ (bits ty - 1) ->
   ty' = ty /\
   u_i64 val' = sar64 (shl64 (neg64 v) dead_bits) dead_bits /\
   u_i64 val' = - v).
Proof.
  intros Ha Hcode Hb Hfit Hclean.
  apply fits_signed_true in Hfit.
  cbn [make_folded_const NegateOp_Folder]. unfold NegateOp_make_folded_const, bind.
  cbn [NegateOp_a]. rewrite Ha, Hcode.
  assert (H32 : (32 <=? bits ty) = true) by (apply Z.leb_le; lia).
  rewrite H32, andb_true_l, negate_guard by lia.
  pose proof (pow2_le_63 (bits ty) ltac:(lia)) as H63.
  pose proof (pow2_pos (bits ty - 1) ltac:(lia)) as Hp.
  destruct (Z.eqb_spec (u_i64 val) (- 2 ^ (bits ty - 1))) as [Hmin|Hmin]; unfold ret.
  - split; [reflexivity|]. split.
    + pose proof (has_overflow_or_lanes ty true) as Hf. cbn in Hf.
      rewrite Hf, orb_true_r. tauto.
    + split; [tauto|]. intros Hne. contradiction.
  - split; [reflexivity|]. split; [rewrite Hclean; split; [discriminate|contradiction]|].
    split; [contradiction|]. intros _.
    assert (Hsar : sar64 (shl64 (neg64 (u_i64 val)) (64 - bits ty)) (64 - bits ty)
                   = - u_i64 val).
    { unfold neg64. rewrite sar_shl_wrap by lia. apply sign_extend_small; lia. }
    split; [reflexivity|].
    rewrite u_i64_of_i64, Hsar. split; apply wrap_i64_small; lia.
Qed.

Lemma negate_fold_signed_witness :
  (let '((val', ty'), _) := make_folded_const (mkNegateOp (@mkWildConstInt w0))
                              (bound_int32 (-2147483648)) in
   has_flag ty' signed_integer_overflow = true) /\
  (let '((val', ty'), _) := make_folded_const (mkNegateOp (@mkWildConstInt w0))
                              (bound_int32 5) in
   u_i64 val' = -5 /\ ty' = Int 32).
Proof.
  pose proof (negate_fold_signed (@mkWildConstInt w0) (bound_int32 (-2147483648))
                (bound_int32 (-2147483648)) (of_i64 (-2147483648)) (Int 32)
                eq_refl eq_refl ltac:(simpl; lia) eq_refl eq_refl) as H1.
  pose proof (negate_fold_signed (@mkWildConstInt w0) (bound_int32 5)
                (bound_int32 5) (of_i64 5) (Int 32)
                eq_refl eq_refl ltac:(simpl; lia) eq_refl eq_refl) as H2.
  destruct (make_folded_const (mkNegateOp (@mkWildConstInt w0))
              (bound_int32 (-2147483648))) as [[v1 t1] e1].
  destruct (make_folded_const (mkNegateOp (@mkWildConstInt w0))
              (bound_int32 5)) as [[v2 t2] e2].
  destruct H1 as (_ & Hf & _). destruct H2 as (_ & _ & _ & Hn).
  split.
  - apply Hf. reflexivity.
  - destruct Hn as (Ht & _ & Hv); [discriminate|]. split; [exact Hv|exact Ht].
Defined.

(** ** Bind *)

Lemma store_same {A : Type} (f : array A) (i : wild) (v : A) : store f i v i = v.
Proof. unfold store, wild_eqb. now rewrite Z.eqb_refl. Qed.

Lemma get_set_bound_const (i : wild) (val : halide_scalar_value_t)
  (ty : halide_type_t) (s : MatcherState) :
  get_bound_const i (set_bound_const i val ty s) = (val, ty).
Proof. unfold get_bound_const, set_bound_const. cbn. now rewrite !store_same. Qed.

(** C10: folding [BindOp<i, A>] first folds [a], then stores the value and
    the whole type it produced, flags included, as the bound constant [i],
    and returns the value 1 of type [uint] with 1 bit and [lanes = 1], so
    without flags; as a predicate it evaluates to true whatever [a]
    produced. *)
Theorem bind_fold (i : wild) {A : Type} `{Folder A} (a : A) (w : Env) :
  let '((val, ty), w') := make_folded_const a w in
  let after := mk_env (set_bound_const i val ty (state w')) (counter w') (brk w') in
  make_folded_const (@mkBindOp i A a) w =
    ((of_u64 1, mk_type halide_type_uint 1 1), after) /\
  get_bound_const i (state after) = (val, ty) /\
  has_flag (mk_type halide_type_uint 1 1) special_values_mask = false /\
  evaluate_predicate (@mkBindOp i A a) w = (true, after).
Proof.
  destruct (make_folded_const a w) as [[val ty] w'] eqn:Ha.
  assert (Hf : make_folded_const (@mkBindOp i A a) w =
               ((of_u64 1, mk_type halide_type_uint 1 1),
                mk_env (set_bound_const i val ty (state w')) (counter w') (brk w'))).
  { cbn [make_folded_const BindOp_Folder].
    unfold BindOp_make_folded_const, bind. cbn [BindOp_a]. rewrite Ha. reflexivity. }
  split; [exact Hf|]. split; [apply get_set_bound_const|]. split; [reflexivity|].
  unfold evaluate_predicate, bind. rewrite Hf. reflexivity.
Qed.

(** [bind (c3, c1 / c2)] with [c2] bound to zero: the poisoned quotient is
    stored with its flag, and the predicate is true. *)
Example bind_of_poisoned_value :
  let p := @mkBindOp w3 _ (op_div (@mkWildConstInt w1) (@mkWildConstInt w2)) in
  let '(ok, after) := evaluate_predicate p (bound_bool_int32_int32 0 7 0) in
  ok = true /\
  get_bound_const w3 (state after) = (mk_scalar 0, mk_type halide_type_int 32 0x4001).
Proof. vm_compute. split; reflexivity. Qed.

(** ** Short circuit of [And] and [Or] *)

(** C5, as the code has it: when neither operand is a literal, an [And]
    whose first operand folds to 0 and an [Or] whose first operand folds
    to 1 return that operand's value, type and final state, whatever the
    second operand is: the second operand is not folded.  When the second
    field is a literal [Const] (which is also what [0 && p] and [1 || p]
    build, with [p] in the first field), or the first field is, the
    pattern operand is always folded and the kernel runs on its type, so
    on a [uint] operand the result is the bitwise [&] or [|] with the
    literal, of the operand's type with the operand's flags. *)
Theorem and_or_short_circuit {A B : Type} `{Folder A} `{Folder B}
  (op : bin_op) (a : A) (b : B) (k : Z) (w : Env) :
  let '((val_a, type_a), w') := make_folded_const a w in
  ((op = And /\ u_u64 val_a = 0) \/ (op = Or /\ u_u64 val_a = 1) ->
   make_folded_const (@mkBinOp op A B a b) w = ((val_a, type_a), w')) /\
  (code type_a = halide_type_uint ->
   make_folded_const (int_op_and k a) w = ((of_u64 (Z.land (u_u64 val_a) (wrap_u64 k)), type_a), w') /\
   make_folded_const (int_op_or k a) w = ((of_u64 (Z.lor (u_u64 val_a) (wrap_u64 k)), type_a), w') /\
   make_folded_const (@mkBinOp And Const A (mkConst k) a) w =
     ((of_u64 (Z.land (wrap_u64 k) (u_u64 val_a)), type_a), w') /\
   make_folded_const (@mkBinOp Or Const A (mkConst k) a) w =
     ((of_u64 (Z.lor (wrap_u64 k) (u_u64 val_a)), type_a), w')).
Proof.
  destruct (make_folded_const a w) as [[val_a type_a] w'] eqn:Ha.
  split.
  - intros Hsc. cbn [make_folded_const BinOp_Folder BinOp_a BinOp_b].
    unfold BinOpFolder_make_folded_const, bind. rewrite Ha.
    destruct Hsc as [[-> Hv]|[-> Hv]]; rewrite Hv; reflexivity.
  - intros Hcode. unfold int_op_and, int_op_or.
    cbn [make_folded_const BinOp_A_Const_Folder BinOp_Const_B_Folder BinOp_a BinOp_b].
    unfold BinOpFolder_A_Const_make_folded_const,
      BinOpFolder_Const_B_make_folded_const, bind.
    rewrite Ha, Hcode. repeat split; reflexivity.
Qed.

Lemma and_or_short_circuit_witness :
  make_folded_const (op_and (@mkWildConstUInt w0) quotient_is_c1)
    (bound_bool_int32_int32 0 7 0)
  = ((of_u64 0, UInt 1), bound_bool_int32_int32 0 7 0) /\
  make_folded_const (op_or (@mkWildConstUInt w0) quotient_is_c1)
    (bound_bool_int32_int32 1 7 0)
  = ((of_u64 1, UInt 1), bound_bool_int32_int32 1 7 0) /\
  make_folded_const (int_op_and 1 (@mkWildConstUInt w0)) (bound_bool_int32_int32 1 7 0)
  = ((of_u64 1, UInt 1), bound_bool_int32_int32 1 7 0).
Proof.
  pose proof (and_or_short_circuit And (@mkWildConstUInt w0) quotient_is_c1 1
                (bound_bool_int32_int32 0 7 0)) as H1.
  pose proof (and_or_short_circuit Or (@mkWildConstUInt w0) quotient_is_c1 1
                (bound_bool_int32_int32 1 7 0)) as H2.
  cbn in H1, H2.
  destruct H1 as (H1 & _). destruct H2 as (H2 & H3).
  split; [apply H1; left; split; reflexivity|].
  split; [apply H2; right; split; reflexivity|].
  apply H3. reflexivity.
Defined.

(** The claim C5 as stated fails when an operand is a literal: [0 && p],
    and the [And] with the literal 0 in its first field, fold to the value
    0 with the indeterminate flag that folding [p] produced; likewise
    [1 || p] and the [Or] with the literal 1 first. *)
Lemma short_circuit_literal_counterexample :
  let p := quotient_is_c1 in
  let w := bound_bool_int32_int32 0 7 0 in
  (let '((v, ty), _) := make_folded_const (int_op_and 0 p) w in
   u_u64 v = 0 /\ has_flag ty special_values_mask = true) /\
  (let '((v, ty), _) := make_folded_const (@mkBinOp And _ _ (mkConst 0) p) w in
   u_u64 v = 0 /\ has_flag ty special_values_mask = true) /\
  (let '((v, ty), _) := make_folded_const (int_op_or 1 p) w in
   u_u64 v = 1 /\ has_flag ty special_values_mask = true) /\
  (let '((v, ty), _) := make_folded_const (@mkBinOp Or _ _ (mkConst 1) p) w in
   u_u64 v = 1 /\ has_flag ty special_values_mask = true).
Proof. vm_compute. repeat split; reflexivity. Qed.

(** ** Rule application *)

Lemma has_flag_special_values (t : halide_type_t) :
  has_flag t special_values_mask
  = has_flag t signed_integer_overflow || has_flag t indeterminate_expression.
Proof.
  unfold has_flag.
  change special_values_mask
    with (Z.lor signed_integer_overflow indeterminate_expression).
  rewrite Z.land_lor_distr_r.
  destruct (Z.eqb_spec (Z.land (lanes t) signed_integer_overflow) 0) as [E1|E1];
    destruct (Z.eqb_spec (Z.land (lanes t) indeterminate_expression) 0) as [E2|E2];
    cbn [negb orb];
    match goal with
    | |- negb (?x =? 0) = _ => destruct (Z.eqb_spec x 0) as [E|E]
    end; try reflexivity; exfalso.
  - apply E. apply Z.lor_eq_0_iff. tauto.
  - apply Z.lor_eq_0_iff in E. tauto.
  - apply Z.lor_eq_0_iff in E. tauto.
  - apply Z.lor_eq_0_iff in E. tauto.
Qed.

Lemma evaluate_predicate_spec {P : Type} `{Folder P} (p : P) (w : Env) :
  let '((v, ty), w') := make_folded_const p w in
  evaluate_predicate p w
  = (negb (u_u64 v =? 0) && negb (has_flag ty special_values_mask), w').
Proof.
  unfold evaluate_predicate, bind.
  destruct (make_folded_const p w) as [[v ty] w'].
  unfold ret, has_flag. now rewrite negb_involutive.
Qed.

(** C1: a call of the rewriter with a rule [(before, after, pred)]
    returns true if and only if [before] matches the instance from the
    empty bound mask and [pred], folded by [make_folded_const] in the
    state the match left, has a non-zero payload and a type with neither
    [signed_integer_overflow] nor [indeterminate_expression] in its lanes;
    the result is then [after.make] run in the state the predicate left,
    and is otherwise left as it was. *)
Theorem rewriter_rule_fires {Before After Predicate : Type}
  `{Matcher Before} `{Maker After} `{Folder Predicate}
  (before : Before) (after : After) (pred : Predicate)
  (rw : Rewriter) (c : Z) (b : ptr) :
  let '(m, s) := match_ 0 before (instance rw) (rw_state rw) in
  let '((v, ty), w) := make_folded_const pred (mk_env s c b) in
  let '(ok, rw', _) := Rewriter_call_pred before after pred rw c b in
  (ok = true <->
   m = true /\ u_u64 v <> 0 /\
   has_flag ty signed_integer_overflow = false /\
   has_flag ty indeterminate_expression = false) /\
  (ok = true -> result rw' = fst (make after w)) /\
  (ok = false -> result rw' = result rw).
Proof.
  unfold Rewriter_call_pred, reset.
  destruct (match_ 0 before (instance rw) (rw_state rw)) as [m s].
  pose proof (evaluate_predicate_spec pred (mk_env s c b)) as Hp.
  destruct (make_folded_const pred (mk_env s c b)) as [[v ty] w].
  destruct m.
  - rewrite Hp, has_flag_special_values.
    destruct (Z.eqb_spec (u_u64 v) 0) as [Hv|Hv];
      destruct (has_flag ty signed_integer_overflow);
      destruct (has_flag ty indeterminate_expression); cbn [negb andb orb];
      try (unfold no_match; cbn [result];
           repeat split; try discriminate; try reflexivity;
           intros (_ & Hnz & Ho & Hi); congruence).
    destruct (make after w) as [r w2]. unfold matched. cbn [result fst].
    repeat split; try discriminate; try reflexivity; assumption.
  - unfold no_match. cbn [result].
    repeat split; try discriminate; try reflexivity.
    intros (Hm & _); discriminate.
Qed.

Lemma rewriter_rule_fires_witness :
  fst (fst (Rewriter_call_pred (@mkWildConstInt w0) (@mkWildConstInt w0)
              (@mkCmpOp NE _ _ (@mkWildConstInt w0) (mkConst 0))
              (mkRewriter (IntImm 1%N (Int 32) 5) None some_state) 0 100%N)) = true /\
  fst (fst (Rewriter_call_pred (@mkWildConstInt w0) (@mkWildConstInt w0)
              (@mkCmpOp NE _ _ (@mkWildConstInt w0) (mkConst 0))
              (mkRewriter (IntImm 1%N (Int 32) 0) None some_state) 0 100%N)) = false.
Proof.
  pose proof (rewriter_rule_fires (@mkWildConstInt w0) (@mkWildConstInt w0)
                (@mkCmpOp NE _ _ (@mkWildConstInt w0) (mkConst 0))
                (mkRewriter (IntImm 1%N (Int 32) 5) None some_state) 0 100%N) as H1.
  pose proof (rewriter_rule_fires (@mkWildConstInt w0) (@mkWildConstInt w0)
                (@mkCmpOp NE _ _ (@mkWildConstInt w0) (mkConst 0))
                (mkRewriter (IntImm 1%N (Int 32) 0) None some_state) 0 100%N) as H2.
  cbn in H1, H2. destruct H1 as (H1 & _). destruct H2 as (H2 & _).
  split.
  - vm_compute. apply H1. repeat split; try reflexivity. discriminate.
  - vm_compute. destruct (Bool.bool_dec false true) as [E|_]; [|reflexivity].
    apply H2 in E. destruct E as (_ & Hnz & _). exfalso. apply Hnz. reflexivity.
Defined.

(** The overload whose replacement is an expression fires under the same
    condition and stages that expression. *)
Lemma rewriter_expr_rule_fires {Before Predicate : Type}
  `{Matcher Before} `{Folder Predicate}
  (before : Before) (after : Expr) (pred : Predicate)
  (rw : Rewriter) (c : Z) (b : ptr) :
  let '(m, s) := match_ 0 before (instance rw) (rw_state rw) in
  let '((v, ty), _) := make_folded_const pred (mk_env s c b) in
  let '(ok, rw', _) := Rewriter_call_expr_pred before after pred rw c b in
  ok = m && negb (u_u64 v =? 0) && negb (has_flag ty special_values_mask) /\
  result rw' = if ok then after else result rw.
Proof.
  unfold Rewriter_call_expr_pred, reset.
  destruct (match_ 0 before (instance rw) (rw_state rw)) as [m s].
  pose proof (evaluate_predicate_spec pred (mk_env s c b)) as Hp.
  destruct (make_folded_const pred (mk_env s c b)) as [[v ty] w].
  destruct m; [|split; reflexivity].
  rewrite Hp. cbn [andb].
  destruct (negb (u_u64 v =? 0) && negb (has_flag ty special_values_mask));
    split; reflexivity.
Qed.

(** Without a predicate the rule fires exactly when [before] matches. *)
Lemma rewriter_plain_rule_fires {Before After : Type}
  `{Matcher Before} `{Maker After}
  (before : Before) (after : After) (rw : Rewriter) (c : Z) (b : ptr) :
  let '(m, s) := match_ 0 before (instance rw) (rw_state rw) in
  let '(ok, rw', _) := Rewriter_call before after rw c b in
  ok = m /\
  result rw' = if m then fst (make after (mk_env s c b)) else result rw.
Proof.
  unfold Rewriter_call, reset.
  destruct (match_ 0 before (instance rw) (rw_state rw)) as [m s].
  destruct m; [|split; reflexivity].
  destruct (make after (mk_env s c b)) as [r w]. split; reflexivity.
Qed.

(** ** [IsConstOp] *)

(** C9, as the code has it: folding [IsConstOp<A>] runs [a.make] and
    returns the payload 1 if [is_const] holds of the expression made and 0
    otherwise, of type [uint] with 64 bits and [lanes = 1], in the state
    [a.make] left. *)
Theorem is_const_fold {A : Type} `{IRHelpers} `{Maker A} (a : A) (w : Env) :
  let '(e, w') := make a w in
  make_folded_const (mkIsConstOp a) w
  = ((of_u64 (if is_const e then 1 else 0), mk_type halide_type_uint 64 1), w').
Proof.
  cbn [make_folded_const IsConstOp_Folder].
  unfold IsConstOp_make_folded_const, bind. cbn [IsConstOp_a].
  destruct (make a w) as [e w']. reflexivity.
Qed.

(** The claim C9 as stated fails on the width: the type returned for
    [is_const (c0)], with [c0] bound to the [int32] constant 5, has 64
    bits, not 1. *)
Lemma is_const_bits_counterexample :
  let '((v, ty), _) :=
    @make_folded_const _ (@IsConstOp_Folder _ sample_helpers _)
      (mkIsConstOp (@mkWildConstInt w0)) (bound_int32 5) in
  u_u64 v = 1 /\ code ty = halide_type_uint /\ bits ty = 64 /\ bits ty <> 1.
Proof. vm_compute. repeat split; discriminate. Qed.

(** ** Subtree wildcard *)

Lemma is_bound_testbit (bound n : Z) :
  0 <= n -> is_bound bound (Z.shiftl 1 n) = Z.testbit bound n.
Proof.
  intros Hn. unfold is_bound. rewrite Z.shiftl_1_l, land_pow2 by lia.
  pose proof (pow2_pos n Hn).
  destruct (Z.testbit bound n); [|reflexivity].
  destruct (Z.eqb_spec (2 ^ n) 0); [lia|reflexivity].
Qed.

Lemma index_nonneg (i : wild) : 0 <= index i < max_wild.
Proof. destruct i; unfold max_wild; simpl; lia. Qed.

(** C8: [Wild<i>] tests bit [i + 16] of the bound mask.  When it is
    clear, the match succeeds on any node and binds it.  When it is set,
    the state is untouched and the match succeeds if and only if
    [equal (prev, e)] for the node [prev] bound before; [equal] holds of
    two nodes at the same address, and of nodes at different addresses
    exactly when their types and kinds agree and [equal_helper] holds. *)
Theorem wild_match `{IRHelpers} (i : wild) (bound : Z) (e : BaseExprNode)
  (s : MatcherState) :
  (Z.testbit bound (index i + 16) = false ->
   match_ bound (@mkWild i) e s = (true, set_binding i e s) /\
   get_binding i (set_binding i e s) = e) /\
  (Z.testbit bound (index i + 16) = true ->
   match_ bound (@mkWild i) e s = (equal (get_binding i s) e, s)) /\
  (forall a b : BaseExprNode,
     (addr a = addr b -> equal a b = true) /\
     (addr a <> addr b ->
      equal a b = type_eqb (type_of a) (type_of b)
                  && IRNodeType.eqb (node_type a) (node_type b)
                  && equal_helper a b)).
Proof.
  pose proof (index_nonneg i) as Hi.
  cbn [match_ Wild_Matcher]. unfold Wild_match. cbn [binds Wild_tag].
  rewrite is_bound_testbit by lia.
  split; [|split].
  - intros ->. split; [reflexivity|]. unfold get_binding, set_binding. cbn.
    apply store_same.
  - intros ->. reflexivity.
  - intros a b. unfold equal. split.
    + intros ->. now rewrite N.eqb_refl.
    + intros Hne. destruct (N.eqb_spec (addr a) (addr b)); [contradiction|reflexivity].
Qed.

Lemma wild_match_witness :
  @match_ _ (@Wild_Matcher sample_helpers w0) 0 mkWild var_y some_state
  = (true, set_binding w0 var_y some_state) /\
  @match_ _ (@Wild_Matcher sample_helpers w0) 65536 mkWild var_y'
    (set_binding w0 var_y some_state)
  = (true, set_binding w0 var_y some_state) /\
  @match_ _ (@Wild_Matcher sample_helpers w0) 65536 mkWild var_z
    (set_binding w0 var_y some_state)
  = (false, set_binding w0 var_y some_state) /\
  @equal sample_helpers var_y var_y = true.
Proof.
  destruct (@wild_match sample_helpers w0 0 var_y some_state) as (H1 & _ & _).
  destruct (@wild_match sample_helpers w0 65536 var_y'
              (set_binding w0 var_y some_state)) as (_ & H2 & _).
  destruct (@wild_match sample_helpers w0 65536 var_z
              (set_binding w0 var_y some_state)) as (_ & H3 & H4).
  split; [apply H1; reflexivity|].
  split; [rewrite H2 by reflexivity; reflexivity|].
  split; [rewrite H3 by reflexivity; reflexivity|].
  apply (proj1 (H4 var_y var_y)). reflexivity.
Defined.

(** ** Emission of folded constants *)

Lemma clear_special_values (l : Z) :
  0 <= l < 2 ^ 16 ->
  wrap_u16 (Z.land l (Z.lnot special_values_mask)) = Z.land l 0x3FFF.
Proof.
  intros Hl.
  assert (E : Z.land l (Z.lnot special_values_mask) = Z.land l 0x3FFF).
  { rewrite <- (Z.mod_small l (2 ^ 16)) by lia.
    rewrite <- Z.land_ones, <- !Z.land_assoc by lia. reflexivity. }
  rewrite E. unfold wrap_u16.
  change 0x3FFF with (Z.ones 14). rewrite Z.land_ones by lia.
  pose proof (Z.mod_pos_bound l (2 ^ 14) ltac:(lia)).
  apply Z.mod_small. lia.
Qed.

Lemma cleared_has_no_flag (ty : halide_type_t) :
  has_flag (set_lanes ty (Z.land (lanes ty) 0x3FFF)) special_values_mask = false.
Proof.
  unfold has_flag, set_lanes. cbn [lanes].
  rewrite <- Z.land_assoc.
  change (Z.land 0x3FFF special_values_mask) with 0.
  now rewrite Z.land_0_r.
Qed.

Lemma wrap_i32_succ_neq (c : Z) : wrap_i32 (c + 1) <> c.
Proof.
  unfold wrap_i32. intros E.
  pose proof (Z.mod_pos_bound (c + 1 + 2 ^ 31) (2 ^ 32) ltac:(lia)) as Hb.
  assert (Hc : 0 <= c + 2 ^ 31 < 2 ^ 32) by lia.
  destruct (Z.eq_dec (c + 2 ^ 31) (2 ^ 32 - 1)) as [Hmax|Hmax].
  - replace (c + 1 + 2 ^ 31) with (2 ^ 32) in E by lia.
    rewrite Z.mod_same in E by lia. lia.
  - rewrite Z.mod_small in E by lia. lia.
Qed.

Lemma wrap_i32_succ (c : Z) :
  - 2 ^ 31 <= c < 2 ^ 31 - 1 -> wrap_i32 (c + 1) = c + 1.
Proof. intros Hc. unfold wrap_i32. rewrite Z.mod_small by lia. lia. Qed.

Lemma to_special_expr_poisoned (ty : halide_type_t) (w : Env) :
  0 <= lanes ty < 2 ^ 16 ->
  has_flag ty special_values_mask = true ->
  to_special_expr ty w =
  (Some (Call (brk w + 1)%N (set_lanes ty (Z.land (lanes ty) 0x3FFF))
           (poison_intrinsic ty) [IntImm (brk w) (Int 32) (counter w)]),
   mk_env (state w) (wrap_i32 (counter w + 1)) (brk w + 1 + 1)%N).
Proof.
  intros Hl Hp. unfold to_special_expr, poison_intrinsic.
  rewrite clear_special_values by lia.
  rewrite has_flag_special_values in Hp.
  rewrite <- !Z.land_assoc.
  change (Z.land special_values_mask indeterminate_expression)
    with indeterminate_expression.
  change (Z.land special_values_mask signed_integer_overflow)
    with signed_integer_overflow.
  fold (has_flag ty indeterminate_expression).
  fold (has_flag ty signed_integer_overflow).
  destruct (has_flag ty indeterminate_expression); [reflexivity|].
  rewrite orb_false_r in Hp. rewrite Hp. reflexivity.
Qed.

(** C7: turning a folded constant [(val, ty)] into an expression.  When
    [ty] carries a flag, the result is a call of
    [indeterminate_expression] (if that flag is set) or of
    [signed_integer_overflow] (otherwise), of the type [ty] with both
    flags cleared, whose one argument is the [int] immediate holding the
    counter, and the counter is incremented; the ids of two poisoned
    constants emitted one after the other are the counter and its
    successor, which differ, and the successor is larger unless the
    counter was [INT_MAX].  When [ty] carries no flag, the result is the
    scalar immediate, under a [Broadcast] of [lanes ty] lanes and of type
    [ty] when [lanes ty > 1]. *)
Theorem to_expr_emits (val : halide_scalar_value_t) (ty : halide_type_t) (w : Env) :
  0 <= lanes ty < 2 ^ 16 ->
  (has_flag ty special_values_mask = true ->
   to_expr val ty w =
   (Some (Call (brk w + 1)%N (set_lanes ty (Z.land (lanes ty) 0x3FFF))
            (poison_intrinsic ty) [IntImm (brk w) (Int 32) (counter w)]),
    mk_env (state w) (wrap_i32 (counter w + 1)) (brk w + 1 + 1)%N) /\
   has_flag (set_lanes ty (Z.land (lanes ty) 0x3FFF)) special_values_mask = false /\
   (- 2 ^ 31 <= counter w < 2 ^ 31 - 1 -> wrap_i32 (counter w + 1) = counter w + 1) /\
   (forall (val2 : halide_scalar_value_t) (ty2 : halide_type_t),
      0 <= lanes ty2 < 2 ^ 16 ->
      has_flag ty2 special_values_mask = true ->
      let '(e1, env1) := to_expr val ty w in
      let '(e2, _) := to_expr val2 ty2 env1 in
      poison_id e1 = Some (counter w) /\
      poison_id e2 = Some (wrap_i32 (counter w + 1)) /\
      poison_id e1 <> poison_id e2)) /\
  (has_flag ty special_values_mask = false ->
   (1 < lanes ty ->
    to_expr val ty w =
    (Some (Broadcast (brk w + 1)%N ty
             (scalar_immediate (brk w) (set_lanes ty 1) val) (lanes ty)),
     mk_env (state w) (counter w) (brk w + 1 + 1)%N)) /\
   (lanes ty <= 1 ->
    to_expr val ty w =
    (Some (scalar_immediate (brk w) (set_lanes ty 1) val),
     mk_env (state w) (counter w) (brk w + 1)%N))).
Proof.
  intros Hl. split.
  - intros Hp.
    assert (E : forall v t u, 0 <= lanes t < 2 ^ 16 ->
                has_flag t special_values_mask = true ->
                to_expr v t u =
                (Some (Call (brk u + 1)%N (set_lanes t (Z.land (lanes t) 0x3FFF))
                         (poison_intrinsic t) [IntImm (brk u) (Int 32) (counter u)]),
                 mk_env (state u) (wrap_i32 (counter u + 1)) (brk u + 1 + 1)%N)).
    { intros v t u Ht Hf. unfold to_expr. fold (has_flag t special_values_mask).
      rewrite Hf. now apply to_special_expr_poisoned. }
    split; [now apply E|]. split; [apply cleared_has_no_flag|].
    split; [apply wrap_i32_succ|].
    intros val2 ty2 Hl2 Hp2. rewrite (E val ty w Hl Hp).
    rewrite (E val2 ty2 _ Hl2 Hp2). cbn [poison_id counter].
    split; [reflexivity|]. split; [reflexivity|].
    intros [= Heq]. symmetry in Heq. now apply wrap_i32_succ_neq in Heq.
  - intros Hp. unfold to_expr. fold (has_flag ty special_values_mask).
    rewrite Hp. cbn [negb]. unfold bind, scalar_immediate.
    destruct ty as [c b l]. cbn [code lanes set_lanes bits] in *. split.
    + intros Hv. apply Z.ltb_lt in Hv. rewrite Hv.
      destruct c; reflexivity.
    + intros Hs. destruct (Z.ltb_spec 1 l); [lia|].
      destruct c; reflexivity.
Qed.

Lemma to_expr_emits_witness :
  poison_id (fst (to_expr (of_i64 0) (mk_type halide_type_int 32 0x8001) some_env)) = Some 0 /\
  fst (to_expr (of_i64 3) (mk_type halide_type_int 32 4) some_env)
  = Some (Broadcast 101%N (mk_type halide_type_int 32 4) (IntImm 100%N (Int 32) 3) 4) /\
  fst (to_expr (of_i64 3) (Int 32) some_env) = Some (IntImm 100%N (Int 32) 3).
Proof.
  destruct (to_expr_emits (of_i64 0) (mk_type halide_type_int 32 0x8001) some_env
              ltac:(simpl; lia)) as (H1 & _).
  destruct (to_expr_emits (of_i64 3) (mk_type halide_type_int 32 4) some_env
              ltac:(simpl; lia)) as (_ & H2).
  destruct (to_expr_emits (of_i64 3) (Int 32) some_env ltac:(simpl; lia)) as (_ & H3).
  destruct (H1 eq_refl) as (H1' & _).
  destruct (H2 eq_refl) as (H2' & _).
  destruct (H3 eq_refl) as (_ & H3').
  rewrite H1', (H2' ltac:(simpl; lia)), (H3' ltac:(simpl; lia)).
  repeat split.
Defined.

(** ** Constant wildcards *)

Lemma peel_not_broadcast (e : BaseExprNode) :
  node_type e <> IRNodeType.Broadcast -> peel_broadcast e = e.
Proof. destruct e; try reflexivity. intros Hb. now contradiction Hb. Qed.

(** C2, as the code has it by design.  The three constant wildcards test
    bit [i] of the bound mask.  When it is clear, the match succeeds if
    and only if [e], after peeling one outer [Broadcast], is an immediate
    of the wildcard's kind, and it then binds the immediate's value with
    the type of the whole of [e].  When it is set, the state is untouched,
    the match fails unless the peeled node is an immediate of the kind,
    and on an [e] that is itself the immediate it succeeds if and only if
    the type of [e] equals the stored type and the value compares equal to
    the stored one with [==]: equality of integers for [IntImm] and
    [UIntImm], the comparison of doubles for [FloatImm]. *)
Theorem wild_const_match (i : wild) (bound : Z) (e : BaseExprNode) (s : MatcherState) :
  (Z.testbit bound (index i) = false ->
   match_ bound (@mkWildConstInt i) e s =
     match IntImm_value (peel_broadcast e) with
     | Some v => (true, set_bound_const i (of_i64 v) (type_of e) s)
     | None => (false, s)
     end /\
   match_ bound (@mkWildConstUInt i) e s =
     match UIntImm_value (peel_broadcast e) with
     | Some v => (true, set_bound_const i (of_u64 v) (type_of e) s)
     | None => (false, s)
     end /\
   match_ bound (@mkWildConstFloat i) e s =
     match FloatImm_value (peel_broadcast e) with
     | Some v => (true, set_bound_const i (of_f64 v) (type_of e) s)
     | None => (false, s)
     end) /\
  (Z.testbit bound (index i) = true ->
   (snd (match_ bound (@mkWildConstInt i) e s) = s /\
    snd (match_ bound (@mkWildConstUInt i) e s) = s /\
    snd (match_ bound (@mkWildConstFloat i) e s) = s) /\
   (IntImm_value (peel_broadcast e) = None ->
    fst (match_ bound (@mkWildConstInt i) e s) = false) /\
   (UIntImm_value (peel_broadcast e) = None ->
    fst (match_ bound (@mkWildConstUInt i) e s) = false) /\
   (FloatImm_value (peel_broadcast e) = None ->
    fst (match_ bound (@mkWildConstFloat i) e s) = false) /\
   (node_type e <> IRNodeType.Broadcast ->
    (forall v, IntImm_value e = Some v ->
       fst (match_ bound (@mkWildConstInt i) e s)
       = type_eqb (type_of e) (bound_const_type s i) && (v =? u_i64 (bound_const s i))) /\
    (forall v, UIntImm_value e = Some v ->
       fst (match_ bound (@mkWildConstUInt i) e s)
       = type_eqb (type_of e) (bound_const_type s i) && (v =? u_u64 (bound_const s i))) /\
    (forall v, FloatImm_value e = Some v ->
       fst (match_ bound (@mkWildConstFloat i) e s)
       = type_eqb (type_of e) (bound_const_type s i)
         && F64.eqb v (u_f64 (bound_const s i))))).
Proof.
  pose proof (index_nonneg i) as Hi.
  cbn [match_ WildConstInt_Matcher WildConstUInt_Matcher WildConstFloat_Matcher].
  unfold WildConstInt_match, WildConstUInt_match, WildConstFloat_match.
  rewrite is_bound_testbit by lia.
  split; intros ->.
  - repeat split; destruct (peel_broadcast e); reflexivity.
  - unfold get_bound_const. split; [|split; [|split; [|split]]].
    + repeat split; destruct (peel_broadcast e); reflexivity.
    + destruct (peel_broadcast e); try reflexivity. discriminate.
    + destruct (peel_broadcast e); try reflexivity. discriminate.
    + destruct (peel_broadcast e); try reflexivity. discriminate.
    + intros Hnb. rewrite (peel_not_broadcast e Hnb).
      repeat split; intros v Hv; destruct e; try discriminate;
        injection Hv as ->; reflexivity.
Qed.

Lemma wild_const_match_witness :
  match_ 0 (@mkWildConstInt w0) three_x4 some_state
  = (true, set_bound_const w0 (of_i64 3) (mk_type halide_type_int 32 4) some_state) /\
  fst (match_ 1 (@mkWildConstInt w0) three
         (set_bound_const w0 (of_i64 3) (Int 32) some_state)) = true /\
  fst (match_ 1 (@mkWildConstInt w0) three
         (set_bound_const w0 (of_i64 4) (Int 32) some_state)) = false /\
  fst (match_ 1 (@mkWildConstInt w0) var_y
         (set_bound_const w0 (of_i64 3) (Int 32) some_state)) = false.
Proof.
  destruct (wild_const_match w0 0 three_x4 some_state) as (H1 & _).
  destruct (wild_const_match w0 1 three
              (set_bound_const w0 (of_i64 3) (Int 32) some_state))
    as (_ & H2).
  destruct (wild_const_match w0 1 three
              (set_bound_const w0 (of_i64 4) (Int 32) some_state))
    as (_ & H3).
  destruct (wild_const_match w0 1 var_y
              (set_bound_const w0 (of_i64 3) (Int 32) some_state))
    as (_ & H4).
  destruct (H1 eq_refl) as (H1' & _).
  destruct (H2 eq_refl) as (_ & _ & _ & _ & H2').
  destruct (H3 eq_refl) as (_ & _ & _ & _ & H3').
  destruct (H4 eq_refl) as (_ & H4' & _).
  destruct (H2' ltac:(discriminate)) as (H2i & _).
  destruct (H3' ltac:(discriminate)) as (H3i & _).
  split; [exact H1'|].
  split; [rewrite (H2i 3 eq_refl); reflexivity|].
  split; [rewrite (H3i 3 eq_refl); reflexivity|].
  apply H4'. reflexivity.
Defined.

(** The claim C2 as stated fails on a repeat occurrence.  With [c0] bound
    to [+0.0], the immediate [-0.0] of the same type matches although its
    bits differ from the stored ones; a NaN bound to [c0] by a first match
    does not match again although type and bits are the same; and the
    broadcast of the constant 3, bound to [c0] by a first match, does not
    match [c0] again, so that [c0 + c0] does not match the sum of the
    broadcast with itself. *)
Lemma wild_const_rematch_counterexample :
  (let s := snd (match_ 0 (@mkWildConstFloat w0) plus_zero some_state) in
   fst (match_ 1 (@mkWildConstFloat w0) minus_zero s) = true /\
   type_of minus_zero = bound_const_type s w0 /\
   FloatImm_value minus_zero <> Some (u_f64 (bound_const s w0))) /\
  (let s := snd (match_ 0 (@mkWildConstFloat w0) a_nan some_state) in
   fst (match_ 0 (@mkWildConstFloat w0) a_nan some_state) = true /\
   fst (match_ 1 (@mkWildConstFloat w0) a_nan s) = false) /\
  (let s := snd (match_ 0 (@mkWildConstInt w0) three_x4 some_state) in
   fst (match_ 0 (@mkWildConstInt w0) three_x4 some_state) = true /\
   fst (match_ 1 (@mkWildConstInt w0) three_x4 s) = false) /\
  fst (match_ 0 (@mkBinOp Add _ _ (@mkWildConstInt w0) (@mkWildConstInt w0))
         (Binary 6%N (mk_type halide_type_int 32 4) Add three_x4 three_x4)
         some_state) = false.
Proof. vm_compute. repeat split; discriminate. Qed.

(** ** Worked rules *)

(** [x + 0 -> x] applied to [y + 0] gives [y], and does not fire on
    [y + 1]. *)
Example rule_add_zero :
  let rule := @Rewriter_call _ _ (@BinOp_Matcher Add (Wild w0) Const _
                                    (@Wild_Matcher sample_helpers w0) _) _
                (mkBinOp mkWild (mkConst 0)) (@mkWild w0) in
  let y_plus k := mkRewriter (Binary 20%N (Int 32) Add var_y (IntImm 21%N (Int 32) k))
                    None some_state in
  let o0 := rule (y_plus 0) 0 100%N in
  let o1 := rule (y_plus 1) 0 100%N in
  fst (fst o0) = true /\ result (snd (fst o0)) = Some var_y /\
  fst (fst o1) = false /\ result (snd (fst o1)) = None.
Proof. vm_compute. repeat split. Qed.

(** [min (x, x) -> x] applied to the minimum of two nodes for the same
    variable. *)
Example rule_min_same :
  let rule := @Rewriter_call _ _ (@BinOp_Matcher Min (Wild w0) (Wild w0) _
                                    (@Wild_Matcher sample_helpers w0)
                                    (@Wild_Matcher sample_helpers w0)) _
                (mkBinOp mkWild mkWild) (@mkWild w0) in
  let o := rule (mkRewriter (Binary 20%N (Int 32) Min var_y var_y') None some_state)
             0 100%N in
  let o' := rule (mkRewriter (Binary 20%N (Int 32) Min var_y var_z) None some_state)
              0 100%N in
  fst (fst o) = true /\ result (snd (fst o)) = Some var_y /\ fst (fst o') = false.
Proof. vm_compute. repeat split. Qed.

(** [c0 + c1 -> fold (c0 + c1)] applied to [3 + 5] gives [8]; applied to
    [INT32_MAX + 1] it gives a call of [signed_integer_overflow] of type
    [int32] that carries the counter. *)
Example rule_fold_sum :
  let rule := Rewriter_call
                (@mkBinOp Add _ _ (@mkWildConstInt w0) (@mkWildConstInt w1))
                (mkFoldOp (@mkBinOp Add _ _ (@mkWildConstInt w0) (@mkWildConstInt w1))) in
  let sum a b := mkRewriter (Binary 20%N (Int 32) Add (IntImm 21%N (Int 32) a)
                               (IntImm 22%N (Int 32) b)) None some_state in
  result (snd (fst (rule (sum 3 5) 41 100%N))) = Some (IntImm 100%N (Int 32) 8) /\
  result (snd (fst (rule (sum 2147483647 1) 41 100%N)))
  = Some (Call 101%N (Int 32) Call_signed_integer_overflow [IntImm 100%N (Int 32) 41]) /\
  snd (rule (sum 2147483647 1) 41 100%N) = (42, 102%N).
Proof. vm_compute. repeat split. Qed.

(** [c1 / c0 -> fold (c1 / c0)] under the predicate [c0 != 0] does not
    fire on [7 / 0] and fires on [7 / 2], with floor division on [-7 / 2]. *)
Example rule_guarded_division :
  let quotient := @mkBinOp Div _ _ (@mkWildConstInt w1) (@mkWildConstInt w0) in
  let rule := Rewriter_call_pred quotient (mkFoldOp quotient)
                (@mkCmpOp NE _ _ (@mkWildConstInt w0) (mkConst 0)) in
  let quot a b := mkRewriter (Binary 20%N (Int 32) Div (IntImm 21%N (Int 32) a)
                                (IntImm 22%N (Int 32) b)) None some_state in
  fst (fst (rule (quot 7 0) 0 100%N)) = false /\
  result (snd (fst (rule (quot 7 2) 0 100%N))) = Some (IntImm 100%N (Int 32) 3) /\
  result (snd (fst (rule (quot (-7) 2) 0 100%N))) = Some (IntImm 100%N (Int 32) (-4)).
Proof. vm_compute. repeat split. Qed.

(** A predicate that is true but poisoned does not fire:
    [!(c1 / c0 == c1)] with [c0] bound to zero folds to 1 with the
    indeterminate flag. *)
Example poisoned_predicate_is_false :
  fst (make_folded_const (mkNotOp quotient_is_c1) (bound_bool_int32_int32 0 7 0))
  = (of_u64 1, mk_type halide_type_uint 1 0x4001) /\
  fst (evaluate_predicate (mkNotOp quotient_is_c1) (bound_bool_int32_int32 0 7 0)) = false.
Proof. vm_compute. repeat split. Qed.

(** ** The model of doubles on a few values *)

Example f64_add_1_2 : F64.add 0x3FF0000000000000 0x4000000000000000 = 0x4008000000000000.
Proof. vm_compute. reflexivity. Qed.

Example f64_of_int_3 : F64.of_int 3 = 0x4008000000000000 /\ F64.of_int (-3) = 0xC008000000000000.
Proof. vm_compute. split; reflexivity. Qed.

Example f64_floor_mod :
  F64.floor (F64.div (F64.of_int (-7)) (F64.of_int 2)) = F64.of_int (-4) /\
  mod_imp_f64 (F64.of_int (-7)) (F64.of_int 2) = F64.of_int 1.
Proof. vm_compute. split; reflexivity. Qed.

Example f64_zeros_and_nan :
  F64.eqb 0 F64.sign_bit = true /\ F64.eqb (F64.div 0 0) (F64.div 0 0) = false.
Proof. vm_compute. split; reflexivity. Qed.

(** * Further properties of the kernels and folders *)

(** ** Unsigned arithmetic *)

Lemma all_ones_shifted (bits : Z) :
  0 <= bits <= 64 -> shru64 (wrap_u64 (-1)) (64 - bits) = Z.ones bits.
Proof.
  intros Hb. unfold shru64. change (wrap_u64 (-1)) with (Z.ones 64).
  apply Z.bits_inj'. intros k Hk.
  rewrite Z.shiftr_spec, !Z.testbit_ones_nonneg by lia.
  destruct (Z.ltb_spec (k + (64 - bits)) 64), (Z.ltb_spec k bits); lia || reflexivity.
Qed.

Lemma mod_2_64_mod_bits (bits x : Z) :
  0 <= bits <= 64 -> (x mod 2 ^ 64) mod 2 ^ bits = x mod 2 ^ bits.
Proof.
  intros Hb. apply Z.mod_mod_divide. exists (2 ^ (64 - bits)).
  rewrite <- Z.pow_add_r by lia. f_equal. lia.
Qed.

Lemma mask_to_bits (bits x : Z) :
  0 <= bits <= 64 ->
  Z.land (wrap_u64 x) (shru64 (wrap_u64 (-1)) (64 - bits)) = x mod 2 ^ bits.
Proof.
  intros Hb. rewrite all_ones_shifted, Z.land_ones by lia.
  now apply mod_2_64_mod_bits.
Qed.

(** X1: on a type of 0 to 64 bits the unsigned kernels of [+], [-] and
    [*] return the exact result reduced modulo [2 ^ bits], within
    [0 .. 2 ^ bits - 1], and hand the type back as it was: unsigned
    wrap-around raises no flag. *)
Theorem fold_unsigned_add_sub_mul (op : bin_op) (t : halide_type_t) (a b r : Z) :
  0 <= bits t <= 64 ->
  exact_result op a b = Some r ->
  constant_fold_bin_op_u64 op t a b = (t, r mod 2 ^ bits t) /\
  0 <= r mod 2 ^ bits t < 2 ^ bits t.
Proof.
  intros Hb Hr. split.
  - destruct op; try discriminate; injection Hr as <-;
      cbn [constant_fold_bin_op_u64]; unfold addu64, subu64, mulu64;
      now rewrite mask_to_bits.
  - apply Z.mod_pos_bound. apply pow2_pos. lia.
Qed.

Lemma fold_unsigned_add_sub_mul_witness :
  constant_fold_bin_op_u64 Add (UInt 8) 200 100 = (UInt 8, 44) /\
  constant_fold_bin_op_u64 Sub (UInt 16) 3 5 = (UInt 16, 65534) /\
  constant_fold_bin_op_u64 Mul (UInt 64) (2 ^ 63) 2 = (UInt 64, 0).
Proof.
  destruct (fold_unsigned_add_sub_mul Add (UInt 8) 200 100 300
              ltac:(simpl; lia) eq_refl) as (H1 & _).
  destruct (fold_unsigned_add_sub_mul Sub (UInt 16) 3 5 (-2)
              ltac:(simpl; lia) eq_refl) as (H2 & _).
  destruct (fold_unsigned_add_sub_mul Mul (UInt 64) (2 ^ 63) 2 (2 ^ 64)
              ltac:(simpl; lia) eq_refl) as (H3 & _).
  rewrite H1, H2, H3. repeat split.
Defined.

(** ** What a kernel can do to the type *)

Lemma or_lanes_0 (t : halide_type_t) : or_lanes t 0 = t.
Proof. destruct t. unfold or_lanes, set_lanes. cbn. now rewrite Z.lor_0_r. Qed.

Lemma has_flag_or_lanes_mono (t : halide_type_t) (f flag : Z) :
  has_flag t flag = true -> has_flag (or_lanes t f) flag = true.
Proof.
  unfold has_flag, or_lanes, set_lanes. cbn [lanes].
  rewrite Z.land_lor_distr_l.
  destruct (Z.eqb_spec (Z.land (lanes t) flag) 0) as [E|E]; [discriminate|].
  intros _.
  destruct (Z.eqb_spec (Z.lor (Z.land (lanes t) flag) (Z.land f flag)) 0) as [E'|E'];
    [|reflexivity].
  apply Z.lor_eq_0_iff in E'. tauto.
Qed.

Lemma lane_count_or_flag (l f : Z) :
  f = 0 \/ f = signed_integer_overflow \/ f = indeterminate_expression ->
  Z.land (Z.lor l f) 0x3FFF = Z.land l 0x3FFF.
Proof.
  intros Hf. rewrite Z.land_lor_distr_l.
  destruct Hf as [->|[->| ->]]; cbn [Z.land]; now rewrite ?Z.land_0_l, Z.lor_0_r.
Qed.

(** X2: a kernel hands the type back with at most one flag or-ed into its
    lanes.  The signed kernels add [signed_integer_overflow] or
    [indeterminate_expression] or nothing; the unsigned ones add
    [indeterminate_expression] or nothing; the [double] ones never touch
    the type, not even for a division by zero.  So code, bits and the lane
    count [lanes & 0x3FFF] are kept, and a flag that was set stays set. *)
Theorem kernel_type_effect (op : bin_op) (t : halide_type_t) (a b : Z) :
  let ti := fst (constant_fold_bin_op_i64 op t a b) in
  let tu := fst (constant_fold_bin_op_u64 op t a b) in
  let tf := fst (constant_fold_bin_op_f64 op t a b) in
  (exists f, (f = 0 \/ f = signed_integer_overflow \/ f = indeterminate_expression)
             /\ ti = or_lanes t f) /\
  (tu = t \/ tu = or_lanes t indeterminate_expression) /\
  tf = t /\
  (forall t', t' = ti \/ t' = tu \/ t' = tf ->
     code t' = code t /\ bits t' = bits t /\
     Z.land (lanes t') 0x3FFF = Z.land (lanes t) 0x3FFF /\
     (forall flag, has_flag t flag = true -> has_flag t' flag = true)).
Proof.
  cbv zeta.
  assert (Hi : exists f,
             (f = 0 \/ f = signed_integer_overflow \/ f = indeterminate_expression)
             /\ fst (constant_fold_bin_op_i64 op t a b) = or_lanes t f).
  { destruct op; cbn [constant_fold_bin_op_i64]; cbv zeta;
      lazymatch goal with
      | |- context [if ?c then signed_integer_overflow else 0] =>
          destruct c; cbn [fst]; [exists signed_integer_overflow|exists 0]
      | |- context [if ?c then _ else _] =>
          destruct c; cbn [fst]; [exists indeterminate_expression|exists 0]
      | |- _ => cbn [fst]; exists 0
      end;
      (split; [tauto|try reflexivity; now rewrite or_lanes_0]). }
  assert (Hu : fst (constant_fold_bin_op_u64 op t a b) = t \/
               fst (constant_fold_bin_op_u64 op t a b) = or_lanes t indeterminate_expression).
  { destruct op; cbn [constant_fold_bin_op_u64 fst]; try tauto;
      destruct (b =? 0); cbn [fst]; tauto. }
  assert (Hf : fst (constant_fold_bin_op_f64 op t a b) = t)
    by (destruct op; reflexivity).
  split; [exact Hi|]. split; [exact Hu|]. split; [exact Hf|].
  assert (Hor : forall f,
             f = 0 \/ f = signed_integer_overflow \/ f = indeterminate_expression ->
             code (or_lanes t f) = code t /\ bits (or_lanes t f) = bits t /\
             Z.land (lanes (or_lanes t f)) 0x3FFF = Z.land (lanes t) 0x3FFF /\
             (forall flag, has_flag t flag = true -> has_flag (or_lanes t f) flag = true)).
  { intros f Hfl. split; [reflexivity|]. split; [reflexivity|]. split.
    - unfold or_lanes, set_lanes. cbn [lanes]. now apply lane_count_or_flag.
    - intros flag. apply has_flag_or_lanes_mono. }
  pose proof (Hor 0 ltac:(tauto)) as H0. rewrite or_lanes_0 in H0.
  intros t' [->|[->| ->]].
  - destruct Hi as (f & Hfl & ->). now apply Hor.
  - destruct Hu as [->| ->]; [exact H0|apply Hor; tauto].
  - rewrite Hf. exact H0.
Qed.

Lemma kernel_type_effect_witness :
  fst (constant_fold_bin_op_f64 Div (mk_type halide_type_float 64 0x8004) 1 0)
  = mk_type halide_type_float 64 0x8004 /\
  has_flag (fst (constant_fold_bin_op_i64 Div (mk_type halide_type_int 32 0x8004) 1 0))
    signed_integer_overflow = true /\
  Z.land (lanes (fst (constant_fold_bin_op_i64 Div (mk_type halide_type_int 32 0x8004) 1 0)))
    0x3FFF = 4.
Proof.
  destruct (kernel_type_effect Div (mk_type halide_type_float 64 0x8004) 1 0)
    as (_ & _ & H1 & _).
  destruct (kernel_type_effect Div (mk_type halide_type_int 32 0x8004) 1 0)
    as (_ & _ & _ & H2).
  destruct (H2 _ (or_introl eq_refl)) as (_ & _ & Hl & Hf).
  split; [exact H1|]. split; [apply Hf; reflexivity|exact Hl].
Defined.

(** ** Negation outside the overflow-checked types *)

Lemma shru_shlu_mod (bits y : Z) :
  0 < bits <= 64 ->
  shru64 (shlu64 y (64 - bits)) (64 - bits) = y mod 2 ^ bits.
Proof.
  intros Hb. unfold shru64, shlu64, wrap_u64.
  rewrite Z.shiftl_mul_pow2, Z.shiftr_div_pow2 by lia.
  pose proof (pow2_pos (64 - bits) ltac:(lia)) as Hd.
  pose proof (pow2_pos bits ltac:(lia)) as Hp.
  assert (H64 : 2 ^ 64 = 2 ^ bits * 2 ^ (64 - bits))
    by (rewrite <- Z.pow_add_r by lia; f_equal; lia).
  rewrite H64, Z.mul_mod_distr_r, Z.div_mul by lia. reflexivity.
Qed.

(** X3: negation of an unsigned constant of 1 to 64 bits folds to
    [(-v) mod 2 ^ bits], and negation of a signed constant of fewer than
    32 bits folds to [-v] truncated and sign-extended, so that the most
    negative value of such a type folds to itself; in both cases the
    type, flags included, and the state are the operand's: no flag is
    raised. *)
Theorem negate_fold_wraps {A : Type} `{Folder A} (a : A) (w : Env) :
  let '((val, ty), w') := make_folded_const a w in
  (code ty = halide_type_uint -> 0 < bits ty <= 64 ->
   make_folded_const (mkNegateOp a) w
   = ((of_u64 ((- u_u64 val) mod 2 ^ bits ty), ty), w')) /\
  (code ty = halide_type_int -> 0 < bits ty < 32 ->
   make_folded_const (mkNegateOp a) w
   = ((of_i64 (sign_extend (bits ty) (- u_i64 val)), ty), w') /\
   (u_i64 val = - 2 ^ (bits ty - 1) ->
    sign_extend (bits ty) (- u_i64 val) = u_i64 val)).
Proof.
  destruct (make_folded_const a w) as [[val ty] w'] eqn:Ha.
  cbn [make_folded_const NegateOp_Folder]. unfold NegateOp_make_folded_const, bind.
  cbn [NegateOp_a]. rewrite Ha. split.
  - intros -> Hb. unfold ret. rewrite shru_shlu_mod by lia.
    unfold negu64, wrap_u64. now rewrite mod_2_64_mod_bits by lia.
  - intros -> Hb.
    assert (H32 : (32 <=? bits ty) = false) by (apply Z.leb_gt; lia).
    rewrite H32. cbn [andb]. unfold ret, neg64. rewrite sar_shl_wrap by lia.
    split; [reflexivity|]. intros Hmin. rewrite Hmin, Z.opp_involutive.
    pose proof (pow2_pos (bits ty - 1) ltac:(lia)) as Hp.
    rewrite (sign_extend_mod (bits ty) _ (- 2 ^ (bits ty - 1))).
    + apply sign_extend_small; lia.
    + lia.
    + assert (H2 : 2 ^ bits ty = 2 * 2 ^ (bits ty - 1))
        by (rewrite <- Z.pow_succ_r by lia; f_equal; lia).
      rewrite <- (Z_mod_plus_full (- 2 ^ (bits ty - 1)) 1 (2 ^ bits ty)).
      f_equal. lia.
Qed.

Lemma negate_fold_wraps_witness :
  fst (make_folded_const (mkNegateOp (@mkWildConstUInt w0))
         (mk_env (set_bound_const w0 (of_u64 1) (UInt 8) some_state) 0 100%N))
  = (of_u64 255, UInt 8) /\
  fst (make_folded_const (mkNegateOp (@mkWildConstInt w0))
         (mk_env (set_bound_const w0 (of_i64 (-128)) (Int 8) some_state) 0 100%N))
  = (of_i64 (-128), Int 8).
Proof.
  pose proof (negate_fold_wraps (@mkWildConstUInt w0)
                (mk_env (set_bound_const w0 (of_u64 1) (UInt 8) some_state) 0 100%N))
    as H1.
  pose proof (negate_fold_wraps (@mkWildConstInt w0)
                (mk_env (set_bound_const w0 (of_i64 (-128)) (Int 8) some_state) 0 100%N))
    as H2.
  cbn in H1, H2.
  destruct H1 as (H1 & _). destruct H2 as (_ & H2).
  destruct (H2 eq_refl ltac:(lia)) as (H2' & _).
  pose proof (H1 eq_refl ltac:(lia)) as H1'.
  apply (f_equal fst) in H1'. apply (f_equal fst) in H2'.
  split; [exact H1'|exact H2'].
Defined.

(** ** Flags through the folders *)

Lemma type_kept_refl (t : halide_type_t) : type_kept t t.
Proof. repeat split; auto. Qed.

Lemma type_kept_or_flag (t : halide_type_t) (f : Z) :
  f = 0 \/ f = signed_integer_overflow \/ f = indeterminate_expression ->
  type_kept t (or_lanes t f).
Proof.
  intros Hf. split; [reflexivity|]. split; [reflexivity|]. split.
  - unfold or_lanes, set_lanes. cbn [lanes]. now apply lane_count_or_flag.
  - intros flag. apply has_flag_or_lanes_mono.
Qed.

Lemma fold_bin_op_type_kept (op : bin_op) (c : halide_type_code_t) (ty : halide_type_t)
  (ia ib ua ub fa fb : Z) :
  type_kept ty (snd (fold_bin_op op c ty ia ib ua ub fa fb)).
Proof.
  destruct c, op; cbn [fold_bin_op constant_fold_bin_op_i64 constant_fold_bin_op_u64
                         constant_fold_bin_op_f64 snd]; cbv zeta;
    try apply type_kept_refl;
    lazymatch goal with
    | |- context [if ?x then signed_integer_overflow else 0] =>
        destruct x; cbn [snd]; apply type_kept_or_flag; tauto
    | |- context [if ?x then _ else _] =>
        destruct x; cbn [snd]; [apply type_kept_or_flag; tauto|apply type_kept_refl]
    end.
Qed.

Lemma has_flag_lor (c : halide_type_code_t) (b la lb flag : Z) :
  has_flag (mk_type c b (Z.lor la lb)) flag
  = has_flag (mk_type c b la) flag || has_flag (mk_type c b lb) flag.
Proof.
  unfold has_flag. cbn [lanes]. rewrite Z.land_lor_distr_l.
  destruct (Z.eqb_spec (Z.land la flag) 0) as [Ea|Ea];
    destruct (Z.eqb_spec (Z.land lb flag) 0) as [Eb|Eb]; cbn [negb orb];
    match goal with
    | |- negb (?x =? 0) = _ => destruct (Z.eqb_spec x 0) as [E|E]
    end; try reflexivity; exfalso;
    first [apply E; apply Z.lor_eq_0_iff; tauto | apply Z.lor_eq_0_iff in E; tauto].
Qed.

Lemma has_flag_lanes_only (t : halide_type_t) (c : halide_type_code_t) (b flag : Z) :
  has_flag (mk_type c b (lanes t)) flag = has_flag t flag.
Proof. reflexivity. Qed.

Lemma has_flag_or_lanes (t : halide_type_t) (l flag : Z) :
  has_flag (or_lanes t l) flag
  = has_flag t flag || negb (Z.land l flag =? 0).
Proof.
  unfold or_lanes, set_lanes. rewrite has_flag_lor. reflexivity.
Qed.

(** X4: a binary fold through the generic [BinOpFolder] that does not
    short-circuit folds both operands in order and returns a type with the
    code and bits of the first operand's and every flag of either
    operand's type; the lane count is the operands' when they agree on
    it.  In particular, as a predicate it is false as soon as one operand
    is poisoned. *)
Theorem binop_fold_keeps_flags {A B : Type} `{Folder A} `{Folder B}
  (op : bin_op) (a : A) (b : B) (w : Env) :
  let '((val_a, type_a), wa) := make_folded_const a w in
  let '((val_b, type_b), wb) := make_folded_const b wa in
  let '((val, ty), w') := make_folded_const (@mkBinOp op A B a b) w in
  short_circuits op val_a = false ->
  w' = wb /\
  code ty = code type_a /\ bits ty = bits type_a /\
  (forall flag, has_flag type_a flag = true \/ has_flag type_b flag = true ->
                has_flag ty flag = true) /\
  (Z.land (lanes type_a) 0x3FFF = Z.land (lanes type_b) 0x3FFF ->
   Z.land (lanes ty) 0x3FFF = Z.land (lanes type_a) 0x3FFF) /\
  (has_flag type_a special_values_mask = true \/
   has_flag type_b special_values_mask = true ->
   fst (evaluate_predicate (@mkBinOp op A B a b) w) = false).
Proof.
  destruct (make_folded_const a w) as [[val_a type_a] wa] eqn:Ha.
  destruct (make_folded_const b wa) as [[val_b type_b] wb] eqn:Hb.
  pose proof (evaluate_predicate_spec (@mkBinOp op A B a b) w) as Hev.
  cbn [make_folded_const BinOp_Folder BinOp_a BinOp_b] in *.
  unfold BinOpFolder_make_folded_const, bind in *. rewrite Ha in *.
  fold (short_circuits op val_a) in *.
  destruct (short_circuits op val_a) eqn:Hsc.
  { unfold ret in *. intros [=]. }
  rewrite Hb in *. unfold ret in *.
  pose proof (fold_bin_op_type_kept op (code type_a) (or_lanes type_a (lanes type_b))
                (u_i64 val_a) (u_i64 val_b) (u_u64 val_a) (u_u64 val_b)
                (u_f64 val_a) (u_f64 val_b)) as Hk.
  destruct (fold_bin_op op (code type_a) (or_lanes type_a (lanes type_b))
              (u_i64 val_a) (u_i64 val_b) (u_u64 val_a) (u_u64 val_b)
              (u_f64 val_a) (u_f64 val_b)) as [val ty].
  cbn [snd] in Hk. destruct Hk as (Hc & Hbits & Hl & Hfl). intros _.
  assert (Hflags : forall flag,
             has_flag type_a flag = true \/ has_flag type_b flag = true ->
             has_flag ty flag = true).
  { intros flag Hor. apply Hfl. rewrite has_flag_or_lanes.
    fold (has_flag type_b flag). destruct Hor as [-> | ->]; [reflexivity|apply orb_true_r]. }
  split; [reflexivity|]. split; [exact Hc|]. split; [exact Hbits|].
  split; [exact Hflags|]. split.
  - intros Hsame. rewrite Hl. unfold or_lanes, set_lanes. cbn [lanes].
    now rewrite Z.land_lor_distr_l, <- Hsame, Z.lor_diag.
  - intros Hp. rewrite Hev. cbn [fst]. rewrite (Hflags _ Hp). apply andb_false_r.
Qed.

Lemma binop_fold_keeps_flags_witness :
  fst (evaluate_predicate
         (@mkBinOp Max _ _ (op_div (@mkWildConstInt w1) (@mkWildConstInt w2))
            (@mkWildConstInt w1))
         (bound_bool_int32_int32 0 7 0)) = false.
Proof.
  pose proof (binop_fold_keeps_flags Max
                (op_div (@mkWildConstInt w1) (@mkWildConstInt w2))
                (@mkWildConstInt w1) (bound_bool_int32_int32 0 7 0)) as H.
  cbn in H. destruct (H eq_refl) as (_ & _ & _ & _ & _ & Hp).
  apply Hp. left. reflexivity.
Defined.

(** ** Comparisons, negation and connectives of predicates *)

Lemma fold_cmp_op_bool (op : cmp_op) (c : halide_type_code_t) (ia ib ua ub fa fb : Z) :
  is_bool (fold_cmp_op op c ia ib ua ub fa fb).
Proof.
  unfold is_bool, fold_cmp_op, constant_fold_cmp_op_u64, constant_fold_cmp_op_i64,
    constant_fold_cmp_op_f64.
  destruct c; cbn [u_u64 of_u64];
    match goal with |- Z.b2z ?x = 0 \/ _ => destruct x end; cbn; tauto.
Qed.

(** X5: a comparison folds to a truth value, 0 or 1, of type [uint] with
    1 bit.  Through the generic folder both operands are folded in order
    and the lanes are the bitwise or of the two operands' lanes, so the
    result carries exactly the flags that one of the operands carries;
    with a literal on either side the lanes, and so the flags, are those
    of the pattern operand. *)
Theorem cmp_fold_truth_value {A B : Type} `{Folder A} `{Folder B}
  (op : cmp_op) (a : A) (b : B) (k : Z) (w : Env) :
  let '((val_a, type_a), wa) := make_folded_const a w in
  let '((val_b, type_b), wb) := make_folded_const b wa in
  (let '((val, ty), w') := make_folded_const (@mkCmpOp op A B a b) w in
   w' = wb /\ is_bool val /\
   ty = mk_type halide_type_uint 1 (Z.lor (lanes type_a) (lanes type_b)) /\
   (forall flag, has_flag ty flag = has_flag type_a flag || has_flag type_b flag)) /\
  (let '((val, ty), w') := make_folded_const (@mkCmpOp op A Const a (mkConst k)) w in
   w' = wa /\ is_bool val /\ ty = mk_type halide_type_uint 1 (lanes type_a)) /\
  (let '((val, ty), w') := make_folded_const (@mkCmpOp op Const A (mkConst k) a) w in
   w' = wa /\ is_bool val /\ ty = mk_type halide_type_uint 1 (lanes type_a)).
Proof.
  destruct (make_folded_const a w) as [[val_a type_a] wa] eqn:Ha.
  destruct (make_folded_const b wa) as [[val_b type_b] wb] eqn:Hb.
  cbn [make_folded_const CmpOp_Folder CmpOp_A_Const_Folder CmpOp_Const_B_Folder
         CmpOp_a CmpOp_b].
  unfold CmpOpFolder_make_folded_const, CmpOpFolder_A_Const_make_folded_const,
    CmpOpFolder_Const_B_make_folded_const, bind.
  rewrite Ha, Hb. unfold ret.
  repeat split; try apply fold_cmp_op_bool.
  intros flag. rewrite has_flag_lor. reflexivity.
Qed.

(** X6: [!p] folds to 1 when [p] folds to the payload 0 and to 0
    otherwise, with the type and state of [p]; [!!p] gives [p] back when
    [p] folds to a truth value; and as a predicate [!p] holds exactly
    when the payload of [p] is 0 and its type carries no flag, so that a
    poisoned [p] and its negation are both false. *)
Theorem not_fold {A : Type} `{Folder A} (a : A) (w : Env) :
  let '((val, ty), w') := make_folded_const a w in
  make_folded_const (mkNotOp a) w
  = ((of_u64 (if u_u64 val =? 0 then 1 else 0), ty), w') /\
  (is_bool val -> make_folded_const (mkNotOp (mkNotOp a)) w = ((val, ty), w')) /\
  fst (evaluate_predicate (mkNotOp a) w)
  = (u_u64 val =? 0) && negb (has_flag ty special_values_mask) /\
  (has_flag ty special_values_mask = true ->
   fst (evaluate_predicate a w) = false /\
   fst (evaluate_predicate (mkNotOp a) w) = false).
Proof.
  pose proof (evaluate_predicate_spec a w) as Hea.
  pose proof (evaluate_predicate_spec (mkNotOp a) w) as Hen.
  destruct (make_folded_const a w) as [[val ty] w'] eqn:Ha.
  cbn [make_folded_const NotOp_Folder] in *.
  unfold NotOp_make_folded_const, bind in *. cbn [NotOp_a] in *.
  unfold NotOp_make_folded_const, bind in *.
  rewrite Ha in *. unfold ret in *. cbn [u_u64 of_u64] in *.
  split; [reflexivity|]. split; [|split].
  - intros Hv. cbn [make_folded_const NotOp_Folder].
    unfold NotOp_make_folded_const, bind. cbn [NotOp_a]. rewrite Ha.
    destruct val as [v]. unfold is_bool in Hv. cbn [u_u64] in *.
    destruct Hv as [-> | ->]; reflexivity.
  - rewrite Hen. cbn [fst]. f_equal.
    destruct (u_u64 val =? 0); reflexivity.
  - intros Hp. rewrite Hea, Hen. cbn [fst]. rewrite Hp.
    now rewrite !andb_false_r.
Qed.

Lemma not_fold_witness :
  make_folded_const (mkNotOp (mkNotOp (@mkWildConstUInt w0))) (bound_bool_int32_int32 1 7 0)
  = ((of_u64 1, UInt 1), bound_bool_int32_int32 1 7 0) /\
  fst (evaluate_predicate (mkNotOp quotient_is_c1) (bound_bool_int32_int32 0 7 0)) = false.
Proof.
  pose proof (not_fold (@mkWildConstUInt w0) (bound_bool_int32_int32 1 7 0)) as H1.
  pose proof (not_fold quotient_is_c1 (bound_bool_int32_int32 0 7 0)) as H2.
  cbn in H1, H2.
  destruct H1 as (_ & H1 & _). destruct H2 as (_ & _ & _ & H2).
  split.
  - apply H1. right. reflexivity.
  - apply H2. reflexivity.
Defined.

Lemma evaluate_predicate_eq {P : Type} `{Folder P} (p : P) (w w' : Env)
  (v : halide_scalar_value_t) (ty : halide_type_t) :
  make_folded_const p w = ((v, ty), w') ->
  evaluate_predicate p w
  = (negb (u_u64 v =? 0) && negb (has_flag ty special_values_mask), w').
Proof.
  intros E. pose proof (evaluate_predicate_spec p w) as Hs.
  now rewrite E in Hs.
Qed.

Lemma has_special_or_lanes (t t2 : halide_type_t) :
  has_flag (or_lanes t (lanes t2)) special_values_mask
  = has_flag t special_values_mask || has_flag t2 special_values_mask.
Proof. now rewrite has_flag_or_lanes. Qed.

(** X7: for two predicates of [uint] type that fold to truth values,
    [p && q] holds as a predicate exactly when [p] holds and [q], folded
    in the state [p] left, holds; [p || q] holds exactly when [p] holds,
    or [p] is unpoisoned and [q] holds.  A poisoned [p] therefore makes
    both false whatever [q] is. *)
Theorem predicate_connectives {A B : Type} `{Folder A} `{Folder B}
  (a : A) (b : B) (w : Env) :
  let '((val_a, type_a), wa) := make_folded_const a w in
  let '((val_b, type_b), _) := make_folded_const b wa in
  code type_a = halide_type_uint -> is_bool val_a -> is_bool val_b ->
  fst (evaluate_predicate (op_and a b) w)
  = fst (evaluate_predicate a w) && fst (evaluate_predicate b wa) /\
  fst (evaluate_predicate (op_or a b) w)
  = fst (evaluate_predicate a w)
    || (negb (has_flag type_a special_values_mask) && fst (evaluate_predicate b wa)).
Proof.
  pose proof (evaluate_predicate_spec a w) as Hea.
  destruct (make_folded_const a w) as [[val_a type_a] wa] eqn:Ha.
  pose proof (evaluate_predicate_spec b wa) as Heb.
  destruct (make_folded_const b wa) as [[val_b type_b] wb] eqn:Hb.
  intros Hcode Hva Hvb. rewrite Hea, Heb. cbn [fst].
  assert (Eand : make_folded_const (op_and a b) w
                 = if u_u64 val_a =? 0 then ((val_a, type_a), wa)
                   else ((of_u64 (Z.land (u_u64 val_a) (u_u64 val_b)),
                          or_lanes type_a (lanes type_b)), wb)).
  { unfold op_and. cbn [make_folded_const BinOp_Folder BinOp_a BinOp_b].
    unfold BinOpFolder_make_folded_const, bind. rewrite Ha.
    cbn [is_And is_Or andb orb]. rewrite orb_false_r.
    destruct (u_u64 val_a =? 0); [reflexivity|]. rewrite Hb, Hcode. reflexivity. }
  assert (Eor : make_folded_const (op_or a b) w
                = if u_u64 val_a =? 1 then ((val_a, type_a), wa)
                  else ((of_u64 (Z.lor (u_u64 val_a) (u_u64 val_b)),
                         or_lanes type_a (lanes type_b)), wb)).
  { unfold op_or. cbn [make_folded_const BinOp_Folder BinOp_a BinOp_b].
    unfold BinOpFolder_make_folded_const, bind. rewrite Ha.
    cbn [is_And is_Or andb orb].
    destruct (u_u64 val_a =? 1); [reflexivity|]. rewrite Hb, Hcode. reflexivity. }
  unfold is_bool in Hva, Hvb.
  split.
  - destruct Hva as [Hva|Hva]; rewrite Hva in *; cbn [Z.eqb Pos.eqb] in Eand;
      rewrite (evaluate_predicate_eq _ _ _ _ _ Eand); cbn [fst]; rewrite ?Hva;
      [reflexivity|].
    rewrite has_special_or_lanes.
    cbn [u_u64 of_u64].
    destruct Hvb as [-> | ->]; cbn;
      destruct (has_flag type_a special_values_mask),
               (has_flag type_b special_values_mask); reflexivity.
  - destruct Hva as [Hva|Hva]; rewrite Hva in *; cbn [Z.eqb Pos.eqb] in Eor;
      rewrite (evaluate_predicate_eq _ _ _ _ _ Eor); cbn [fst]; rewrite ?Hva.
    + rewrite has_special_or_lanes.
      cbn [u_u64 of_u64].
      destruct Hvb as [-> | ->]; cbn;
        destruct (has_flag type_a special_values_mask),
                 (has_flag type_b special_values_mask); reflexivity.
    + cbn. destruct (has_flag type_a special_values_mask); reflexivity.
Qed.

Lemma predicate_connectives_witness :
  fst (evaluate_predicate (op_and (@mkWildConstUInt w0) quotient_is_c1)
         (bound_bool_int32_int32 1 7 0)) = false /\
  fst (evaluate_predicate (op_or (@mkWildConstUInt w0) quotient_is_c1)
         (bound_bool_int32_int32 1 7 0)) = true.
Proof.
  pose proof (predicate_connectives (@mkWildConstUInt w0) quotient_is_c1
                (bound_bool_int32_int32 1 7 0)) as H.
  cbn in H.
  destruct (H eq_refl (or_intror eq_refl) (or_introl eq_refl)) as (H1 & H2).
  split; [exact H1|exact H2].
Defined.

(** ** Emission is defined, and rebuilds matched constants *)

Lemma unflagged_lanes_small (t : halide_type_t) :
  0 <= lanes t < 2 ^ 16 ->
  has_flag t special_values_mask = false ->
  Z.land (lanes t) 0x3FFF = lanes t /\ lanes t < 0x4000.
Proof.
  intros Hl Hf. unfold has_flag in Hf. apply negb_false_iff, Z.eqb_eq in Hf.
  assert (E : lanes t = Z.lor (Z.land (lanes t) special_values_mask)
                              (Z.land (lanes t) 0x3FFF)).
  { rewrite <- Z.land_lor_distr_r.
    change (Z.lor special_values_mask 0x3FFF) with (Z.ones 16).
    rewrite Z.land_ones by lia. symmetry. apply Z.mod_small. lia. }
  rewrite Hf, Z.lor_0_l in E. split; [now symmetry|].
  rewrite E. change 0x3FFF with (Z.ones 14). rewrite Z.land_ones by lia.
  apply Z.mod_pos_bound. lia.
Qed.

Lemma set_lanes_same (t : halide_type_t) : set_lanes t (lanes t) = t.
Proof. now destruct t. Qed.

(** X8: [to_special_expr] returns the undefined expression exactly on a
    type without flags, which is how [to_expr] never calls it: for every
    payload and every type with at least one lane, flagged or not,
    [to_expr] returns a defined expression whose type is the given type
    with the flags cleared, allocates at least one node and leaves the
    match state alone. *)
Theorem to_expr_defined (val : halide_scalar_value_t) (ty : halide_type_t) (w : Env) :
  0 <= lanes ty < 2 ^ 16 ->
  (fst (to_special_expr ty w) = None <-> has_flag ty special_values_mask = false) /\
  (1 <= Z.land (lanes ty) 0x3FFF ->
   exists e, fst (to_expr val ty w) = Some e /\
             type_of e = set_lanes ty (Z.land (lanes ty) 0x3FFF) /\
             state (snd (to_expr val ty w)) = state w /\
             (brk w < brk (snd (to_expr val ty w)))%N).
Proof.
  intros Hl. split.
  - destruct (has_flag ty special_values_mask) eqn:Hf.
    + rewrite (to_special_expr_poisoned ty w Hl Hf). cbn [fst].
      split; discriminate.
    + split; [reflexivity|]. intros _.
      rewrite has_flag_special_values in Hf. apply orb_false_iff in Hf.
      destruct Hf as [Ho Hi]. unfold to_special_expr.
      rewrite <- !Z.land_assoc.
      change (Z.land special_values_mask indeterminate_expression)
        with indeterminate_expression.
      change (Z.land special_values_mask signed_integer_overflow)
        with signed_integer_overflow.
      fold (has_flag ty indeterminate_expression).
      fold (has_flag ty signed_integer_overflow).
      now rewrite Ho, Hi.
  - intros H1. unfold to_expr. fold (has_flag ty special_values_mask).
    destruct (has_flag ty special_values_mask) eqn:Hf; cbn [negb].
    + rewrite (to_special_expr_poisoned ty w Hl Hf). cbn [fst snd state brk].
      eexists. split; [reflexivity|]. split; [reflexivity|]. split; [reflexivity|lia].
    + destruct (unflagged_lanes_small ty Hl Hf) as [Hsame Hsmall].
      rewrite Hsame in *. rewrite set_lanes_same.
      unfold bind. destruct ty as [c b l]. cbn [code lanes set_lanes bits] in *.
      destruct (Z.ltb_spec 1 l).
      * destruct c; cbn; eexists; (split; [reflexivity|]);
          (split; [reflexivity|]); (split; [reflexivity|lia]).
      * assert (l = 1) by lia. subst l.
        destruct c; cbn; eexists; (split; [reflexivity|]);
          (split; [reflexivity|]); (split; [reflexivity|lia]).
Qed.

Lemma to_expr_defined_witness :
  fst (to_special_expr (Int 32) some_env) = None /\
  exists e, fst (to_expr (of_i64 0) (mk_type halide_type_int 32 0x4004) some_env) = Some e /\
            type_of e = mk_type halide_type_int 32 4.
Proof.
  destruct (to_expr_defined (of_i64 0) (Int 32) some_env ltac:(simpl; lia)) as (H1 & _).
  destruct (to_expr_defined (of_i64 0) (mk_type halide_type_int 32 0x4004) some_env
              ltac:(simpl; lia)) as (_ & H2).
  split; [apply H1; reflexivity|].
  destruct (H2 ltac:(simpl; lia)) as (e & He & Ht & _).
  exists e. split; [exact He|exact Ht].
Defined.

Lemma code_eqb_eq (a b : halide_type_code_t) : code_eqb a b = true -> a = b.
Proof. destruct a, b; simpl; congruence. Qed.

Lemma type_eqb_eq (a b : halide_type_t) : type_eqb a b = true -> a = b.
Proof.
  unfold type_eqb. rewrite !andb_true_iff, !Z.eqb_eq.
  intros [[Hc Hb] Hl]. apply code_eqb_eq in Hc.
  destruct a, b. cbn in *. congruence.
Qed.

Lemma scalar_constant_rebuilt (e : BaseExprNode) (p : ptr) :
  scalar_constant e = true ->
  exists val,
    (match e with
     | IntImm _ _ v => val = of_i64 v
     | UIntImm _ _ v => val = of_u64 v
     | FloatImm _ _ v => val = of_f64 v
     | _ => False
     end) /\
    lanes (type_of e) = 1 /\
    erase (scalar_immediate p (set_lanes (type_of e) 1) val) = erase e.
Proof.
  destruct e as [q t v|q t v|q t v| | | | | | | | |]; try discriminate;
    cbn [scalar_constant]; rewrite !andb_true_iff, ?Z.eqb_eq;
    intros Hwf; decompose [and] Hwf; clear Hwf;
    match goal with Hc : code_eqb _ _ = true |- _ => apply code_eqb_eq in Hc end;
    destruct t as [c b l]; cbn [code lanes type_of set_lanes bits] in *; subst c l;
    eexists; (split; [reflexivity|]); (split; [reflexivity|]);
    unfold scalar_immediate; cbn [code erase]; try reflexivity.
  rewrite u_i64_of_i64, wrap_i64_small; [reflexivity|].
  match goal with Hf : fits_signed 64 v = true |- _ => apply fits_signed_true in Hf end.
  cbn in *. lia.
Qed.

Lemma to_expr_unflagged (val : halide_scalar_value_t) (ty : halide_type_t) (w : Env) :
  has_flag ty special_values_mask = false ->
  to_expr val ty w =
  if 1 <? lanes ty then
    (Some (Broadcast (brk w + 1)%N ty
             (scalar_immediate (brk w) (set_lanes ty 1) val) (lanes ty)),
     mk_env (state w) (counter w) (brk w + 1 + 1)%N)
  else
    (Some (scalar_immediate (brk w) (set_lanes ty 1) val),
     mk_env (state w) (counter w) (brk w + 1)%N).
Proof.
  intros Hp. unfold to_expr. fold (has_flag ty special_values_mask).
  rewrite Hp. cbn [negb]. unfold bind, scalar_immediate.
  destruct ty as [c b l]. cbn [code lanes set_lanes bits] in *.
  destruct (1 <? l); destruct c; reflexivity.
Qed.

Lemma to_expr_flagged (val : halide_scalar_value_t) (ty : halide_type_t) (w : Env) :
  0 <= lanes ty < 2 ^ 16 ->
  has_flag ty special_values_mask = true ->
  poison_id (fst (to_expr val ty w)) = Some (counter w).
Proof.
  intros Hl Hp. unfold to_expr. fold (has_flag ty special_values_mask).
  rewrite Hp. cbn [negb]. now rewrite to_special_expr_poisoned.
Qed.

Lemma lane_count_flags (n : Z) :
  0 <= n < 2 ^ 16 ->
  (Z.land n special_values_mask =? 0) = (n <? 0x4000).
Proof.
  intros Hn.
  assert (E : n = Z.lor (Z.land n special_values_mask) (Z.land n 0x3FFF)).
  { rewrite <- Z.land_lor_distr_r.
    change (Z.lor special_values_mask 0x3FFF) with (Z.ones 16).
    rewrite Z.land_ones by lia. symmetry. apply Z.mod_small. lia. }
  assert (Hlow : 0 <= Z.land n 0x3FFF < 0x4000).
  { change 0x3FFF with (Z.ones 14). rewrite Z.land_ones by lia.
    apply Z.mod_pos_bound. lia. }
  destruct (Z.eqb_spec (Z.land n special_values_mask) 0) as [E0|E0];
    destruct (Z.ltb_spec n 0x4000) as [Hlt|Hge]; try reflexivity; exfalso.
  - rewrite E0, Z.lor_0_l in E. lia.
  - apply E0. rewrite <- (Z.mod_small n (2 ^ 14)) by (change (2 ^ 14) with 0x4000; lia).
    rewrite <- Z.land_ones, <- Z.land_assoc by lia. apply Z.land_0_r.
Qed.

Lemma wild_const_binds (i : wild) (bound : Z) (e : BaseExprNode) (s : MatcherState) :
  Z.testbit bound (index i) = false ->
  scalar_constant (peel_broadcast e) = true ->
  exists val,
    match_ bound (@mkWildConst i) e s = (true, set_bound_const i val (type_of e) s) /\
    lanes (type_of (peel_broadcast e)) = 1 /\
    forall p, erase (scalar_immediate p (set_lanes (type_of (peel_broadcast e)) 1) val)
              = erase (peel_broadcast e).
Proof.
  intros Hb Hwf. pose proof (index_nonneg i) as Hi.
  cbn [match_ WildConst_Matcher]. unfold WildConst_match.
  destruct (scalar_constant_rebuilt _ 0%N Hwf) as (val & Hval & Hl & _).
  exists val. split; [|split; [exact Hl|]].
  - unfold WildConstInt_match, WildConstUInt_match, WildConstFloat_match.
    rewrite is_bound_testbit, Hb by lia.
    destruct (peel_broadcast e); try contradiction; subst val; reflexivity.
  - intros p. destruct (scalar_constant_rebuilt _ p Hwf) as (val' & Hval' & _ & He).
    assert (val' = val)
      by (destruct (peel_broadcast e); try contradiction; congruence).
    now subst val'.
Qed.

(** X9: matching a constant with an unbound [WildConst<i>] and making the
    wildcard again gives the constant back, up to the addresses of the
    nodes: for a well-typed scalar immediate of any of the three kinds,
    and for its broadcast to [n] lanes with [1 < n < 16384].  A broadcast
    to 16384 lanes or more is matched too, but its lane count is then read
    as flags and [make] returns a call of one of the two reserved
    intrinsics instead. *)
Theorem wild_const_round_trip (i : wild) (bound : Z) (e : BaseExprNode)
  (s : MatcherState) (c : Z) (b : ptr) :
  Z.testbit bound (index i) = false ->
  let '(m, s') := match_ bound (@mkWildConst i) e s in
  let made := fst (make (@mkWildConst i) (mk_env s' c b)) in
  (scalar_constant e = true ->
   m = true /\ exists r, made = Some r /\ erase r = erase e) /\
  (forall n, broadcast_of_constant n e = true -> 1 < n < 0x4000 ->
   m = true /\ exists r, made = Some r /\ erase r = erase e) /\
  (forall n, broadcast_of_constant n e = true -> 0x4000 <= n < 2 ^ 16 ->
   m = true /\ poison_id made = Some c).
Proof.
  intros Hb.
  destruct (match_ bound (@mkWildConst i) e s) as [m s'] eqn:Hm.
  cbn [make WildConst_Maker]. unfold WildConst_make, bind, get_state.
  cbn [state]. split; [|split].
  - intros Hwf.
    assert (Hpeel : peel_broadcast e = e) by (destruct e; try reflexivity; discriminate).
    destruct (wild_const_binds i bound e s Hb) as (val & Hbind & Hl & He);
      [now rewrite Hpeel|].
    rewrite Hpeel in *. rewrite Hbind in Hm. injection Hm as <- <-.
    rewrite get_set_bound_const. split; [reflexivity|].
    rewrite to_expr_unflagged by (unfold has_flag; now rewrite Hl).
    rewrite Hl. cbn [Z.ltb Z.compare fst]. eexists. split; [reflexivity|apply He].
  - intros n Hwf Hn.
    destruct e as [| | | | | | | | |q t v k| |]; try discriminate.
    cbn [broadcast_of_constant] in Hwf. rewrite !andb_true_iff, Z.eqb_eq in Hwf.
    destruct Hwf as [[Hv Ht] ->]. apply type_eqb_eq in Ht.
    destruct (wild_const_binds i bound (Broadcast q t v n) s Hb Hv) as (val & Hbind & Hl & He).
    cbn [peel_broadcast type_of] in *. rewrite Hbind in Hm. injection Hm as <- <-.
    rewrite get_set_bound_const. split; [reflexivity|].
    assert (Hf : has_flag t special_values_mask = false).
    { unfold has_flag. subst t. cbn [lanes set_lanes].
      rewrite lane_count_flags by lia.
      destruct (Z.ltb_spec n 0x4000); [reflexivity|lia]. }
    rewrite to_expr_unflagged by exact Hf.
    assert (Hln : lanes t = n) by (subst t; reflexivity). rewrite Hln.
    destruct (Z.ltb_spec 1 n); [|lia]. cbn [fst].
    eexists. split; [reflexivity|]. cbn [erase]. f_equal.
    rewrite <- (He (brk (mk_env (set_bound_const i val t s) c b))).
    subst t. reflexivity.
  - intros n Hwf Hn.
    destruct e as [| | | | | | | | |q t v k| |]; try discriminate.
    cbn [broadcast_of_constant] in Hwf. rewrite !andb_true_iff, Z.eqb_eq in Hwf.
    destruct Hwf as [[Hv Ht] ->]. apply type_eqb_eq in Ht.
    destruct (wild_const_binds i bound (Broadcast q t v n) s Hb Hv) as (val & Hbind & _).
    cbn [type_of] in *. rewrite Hbind in Hm. injection Hm as <- <-.
    rewrite get_set_bound_const. split; [reflexivity|].
    assert (Hln : lanes t = n) by (subst t; reflexivity).
    rewrite to_expr_flagged; [reflexivity|rewrite Hln; lia|].
    unfold has_flag. rewrite Hln, lane_count_flags by lia.
    destruct (Z.ltb_spec n 0x4000); [lia|reflexivity].
Qed.

Lemma wild_const_round_trip_witness :
  (exists r, fst (make (@mkWildConst w0)
                    (mk_env (snd (match_ 0 (@mkWildConst w0) three_x4 some_state)) 0 100%N))
             = Some r /\ erase r = erase three_x4) /\
  poison_id (fst (make (@mkWildConst w0)
                    (mk_env (snd (match_ 0 (@mkWildConst w0)
                                    (Broadcast 2%N (mk_type halide_type_int 32 0x4000)
                                       three 0x4000) some_state)) 9 100%N)))
  = Some 9.
Proof.
  pose proof (wild_const_round_trip w0 0 three_x4 some_state 0 100%N eq_refl) as H1.
  pose proof (wild_const_round_trip w0 0
                (Broadcast 2%N (mk_type halide_type_int 32 0x4000) three 0x4000)
                some_state 9 100%N eq_refl) as H2.
  destruct (match_ 0 (@mkWildConst w0) three_x4 some_state) as [m1 s1].
  destruct (match_ 0 (@mkWildConst w0)
              (Broadcast 2%N (mk_type halide_type_int 32 0x4000) three 0x4000)
              some_state) as [m2 s2].
  cbv zeta in H1, H2. cbn [snd].
  destruct H1 as (_ & H1 & _). destruct H2 as (_ & _ & H2).
  split.
  - exact (proj2 (H1 4 eq_refl ltac:(lia))).
  - exact (proj2 (H2 0x4000 eq_refl ltac:(lia))).
Defined.

(** * The match state across patterns *)

(** ** Cells and bits *)

Lemma agree_on_refl (P : Z -> bool) (s : MatcherState) : agree_on P s s.
Proof. intros j. split; intros _; auto. Qed.

Lemma agree_on_trans (P : Z -> bool) (s1 s2 s3 : MatcherState) :
  agree_on P s1 s2 -> agree_on P s2 s3 -> agree_on P s1 s3.
Proof.
  intros H12 H23 j. destruct (H12 j) as [Hc1 Hb1]. destruct (H23 j) as [Hc2 Hb2].
  split.
  - intros Hj. destruct (Hc1 Hj), (Hc2 Hj). split; congruence.
  - intros Hj. rewrite (Hb1 Hj). now apply Hb2.
Qed.

Lemma agree_on_weaken (P Q : Z -> bool) (s1 s2 : MatcherState) :
  (forall k, Q k = true -> P k = true) ->
  agree_on P s1 s2 -> agree_on Q s1 s2.
Proof.
  intros HQP H j. destruct (H j) as [Hc Hb]. split; intros Hj; auto.
Qed.

Lemma one_bit (n k : Z) : 0 <= n -> Z.testbit (Z.shiftl 1 n) k = true -> k = n.
Proof.
  intros Hn Hk. rewrite Z.shiftl_1_l, Z.pow2_bits_eqb in Hk by lia.
  now apply Z.eqb_eq in Hk.
Qed.

Lemma one_bit_set (n : Z) : 0 <= n -> Z.testbit (Z.shiftl 1 n) n = true.
Proof.
  intros Hn. rewrite Z.shiftl_1_l, Z.pow2_bits_eqb by lia. apply Z.eqb_refl.
Qed.

Lemma lor_one_bit (bound n k : Z) :
  0 <= n -> Z.testbit (Z.lor bound (Z.shiftl 1 n)) k = true ->
  Z.testbit bound k = true \/ k = n.
Proof.
  intros Hn. rewrite Z.lor_spec, orb_true_iff.
  intros [Hb|Hk]; [now left|right; now apply one_bit].
Qed.

Lemma index_range (i : wild) : 0 <= index i < 5.
Proof. destruct i; simpl; lia. Qed.

Lemma index_inj (i j : wild) : index i = index j -> i = j.
Proof. destruct i, j; simpl; intros E; try reflexivity; discriminate. Qed.

Lemma wild_eqb_true (i j : wild) : wild_eqb i j = true -> i = j.
Proof. unfold wild_eqb. intros E. apply Z.eqb_eq in E. now apply index_inj. Qed.

Lemma store_other {A : Type} (f : array A) (i j : wild) (v : A) :
  i <> j -> store f i v j = f j.
Proof.
  intros Hne. unfold store. destruct (wild_eqb i j) eqn:E; [|reflexivity].
  now apply wild_eqb_true in E.
Qed.

(** ** A match reads only bound cells *)

Lemma reads_bound_fail (bound binds : Z) :
  reads_bound bound binds (fun s => (false, s)).
Proof. intros s1 s2 _. split; [reflexivity|discriminate]. Qed.

Lemma reads_bound_check (bound : Z) (c : bool) :
  reads_bound bound 0 (fun s => (c, s)).
Proof.
  intros s1 s2 Hag. split; [reflexivity|]. intros _. cbn [snd].
  now rewrite Z.lor_0_r.
Qed.

Lemma reads_bound_and_then (bound bA bB : Z)
  (m1 m2 : MatcherState -> bool * MatcherState) :
  reads_bound bound bA m1 ->
  reads_bound (Z.lor bound bA) bB m2 ->
  reads_bound bound (Z.lor bA bB) (and_then m1 m2).
Proof.
  intros H1 H2 s1 s2 Hag. destruct (H1 s1 s2 Hag) as [Hf Hs].
  unfold and_then. destruct (m1 s1) as [r1 t1], (m1 s2) as [r2 t2].
  cbn [fst snd] in *. subst r2. destruct r1.
  - destruct (H2 t1 t2 (Hs eq_refl)) as [Hf2 Hs2]. split; [exact Hf2|].
    intros Hok. rewrite Z.lor_assoc. now apply Hs2.
  - split; [reflexivity|discriminate].
Qed.

Lemma reads_bound_Wild `{IRHelpers} (i : wild) (bound : Z) (e : BaseExprNode) :
  reads_bound bound (binds (Wild i)) (Wild_match i bound e).
Proof.
  pose proof (index_range i) as Hi.
  intros s1 s2 Hag. unfold Wild_match. cbn [binds Wild_tag].
  rewrite is_bound_testbit by lia.
  destruct (Z.testbit bound (index i + 16)) eqn:Hb; cbn [fst snd].
  - unfold get_binding. rewrite (proj2 (Hag i) Hb). split; [reflexivity|].
    intros _. apply (agree_on_weaken (Z.testbit bound)); [|exact Hag].
    intros k Hk. apply lor_one_bit in Hk; [|lia]. destruct Hk as [Hk| ->]; assumption.
  - split; [reflexivity|]. intros _ j. pose proof (index_range j) as Hj.
    destruct (Hag j) as [Hc Hbd]. unfold set_binding. cbn [bound_const bound_const_type bindings].
    split.
    + intros Hk. apply lor_one_bit in Hk; [|lia]. destruct Hk as [Hk|Hk]; [auto|lia].
    + intros Hk. unfold store. destruct (wild_eqb i j) eqn:E; [reflexivity|].
      apply lor_one_bit in Hk; [|lia]. destruct Hk as [Hk|Hk]; [auto|].
      assert (index i = index j) by lia. unfold wild_eqb in E.
      apply Z.eqb_neq in E. contradiction.
Qed.

(** The three typed constant wildcards share this shape. *)
Lemma reads_bound_const_cell (i : wild) (bound : Z) (ty : halide_type_t)
  (value : halide_scalar_value_t)
  (test : halide_scalar_value_t -> halide_type_t -> bool) :
  reads_bound bound (Z.shiftl 1 (index i))
    (fun s => if is_bound bound (Z.shiftl 1 (index i))
              then (let (val, type) := get_bound_const i s in (test val type, s))
              else (true, set_bound_const i value ty s)).
Proof.
  pose proof (index_range i) as Hi.
  intros s1 s2 Hag. rewrite is_bound_testbit by lia.
  destruct (Z.testbit bound (index i)) eqn:Hb; unfold get_bound_const; cbn [fst snd].
  - destruct (proj1 (Hag i) Hb) as [-> ->]. split; [reflexivity|].
    intros _. apply (agree_on_weaken (Z.testbit bound)); [|exact Hag].
    intros k Hk. apply lor_one_bit in Hk; [|lia]. destruct Hk as [Hk| ->]; assumption.
  - split; [reflexivity|]. intros _ j. pose proof (index_range j) as Hj.
    destruct (Hag j) as [Hc Hbd]. unfold set_bound_const.
    cbn [bound_const bound_const_type bindings]. split.
    + intros Hk. unfold store. destruct (wild_eqb i j) eqn:E; [split; reflexivity|].
      apply lor_one_bit in Hk; [|lia]. destruct Hk as [Hk|Hk]; [auto|].
      unfold wild_eqb in E. apply Z.eqb_neq in E. lia.
    + intros Hk. apply lor_one_bit in Hk; [|lia]. destruct Hk as [Hk|Hk]; [auto|lia].
Qed.

Lemma reads_bound_WildConstInt (i : wild) (bound : Z) (e : BaseExprNode) :
  reads_bound bound (binds (WildConstInt i)) (WildConstInt_match i bound e).
Proof.
  unfold WildConstInt_match. cbn [binds WildConstInt_tag].
  destruct (peel_broadcast e) as [q t v| | | | | | | | | | |] eqn:Hp;
    try apply reads_bound_fail.
  apply (reads_bound_const_cell i bound (type_of e) (of_i64 v)
           (fun val type => type_eqb (type_of (IntImm q t v)) type && (v =? u_i64 val))).
Qed.

Lemma reads_bound_WildConstUInt (i : wild) (bound : Z) (e : BaseExprNode) :
  reads_bound bound (binds (WildConstUInt i)) (WildConstUInt_match i bound e).
Proof.
  unfold WildConstUInt_match. cbn [binds WildConstUInt_tag].
  destruct (peel_broadcast e) as [|q t v| | | | | | | | | |] eqn:Hp;
    try apply reads_bound_fail.
  apply (reads_bound_const_cell i bound (type_of e) (of_u64 v)
           (fun val type => type_eqb (type_of (UIntImm q t v)) type && (v =? u_u64 val))).
Qed.

Lemma reads_bound_WildConstFloat (i : wild) (bound : Z) (e : BaseExprNode) :
  reads_bound bound (binds (WildConstFloat i)) (WildConstFloat_match i bound e).
Proof.
  unfold WildConstFloat_match. cbn [binds WildConstFloat_tag].
  destruct (peel_broadcast e) as [| |q t v| | | | | | | | |] eqn:Hp;
    try apply reads_bound_fail.
  apply (reads_bound_const_cell i bound (type_of e) (of_f64 v)
           (fun val type => type_eqb (type_of (FloatImm q t v)) type
                            && F64.eqb v (u_f64 val))).
Qed.

Lemma reads_bound_WildConst (i : wild) (bound : Z) (e : BaseExprNode) :
  reads_bound bound (binds (WildConst i)) (WildConst_match i bound e).
Proof.
  unfold WildConst_match. cbn [binds WildConst_tag].
  destruct (peel_broadcast e); try apply reads_bound_fail.
  - apply reads_bound_WildConstInt.
  - apply reads_bound_WildConstUInt.
  - apply reads_bound_WildConstFloat.
Qed.

Lemma reads_bound_Const (bound : Z) (c : Const) (e : BaseExprNode) :
  reads_bound bound (binds Const) (Const_match bound c e).
Proof.
  unfold Const_match. cbn [binds Const_tag].
  destruct (peel_broadcast e); apply reads_bound_check.
Qed.

Section ReadsBoundComposites.

Context {A B C : Type}.
Context {tA : pattern_tag A} {tB : pattern_tag B} {tC : pattern_tag C}.
Context {mA : Matcher A} {mB : Matcher B} {mC : Matcher C}.
Hypothesis HA : reads_bound_cells_only A.
Hypothesis HB : reads_bound_cells_only B.
Hypothesis HC : reads_bound_cells_only C.

Lemma reads_bound_BinOp (Op : bin_op) : reads_bound_cells_only (BinOp Op A B).
Proof.
  intros bound p e. cbn [match_ BinOp_Matcher binds BinOp_tag]. unfold BinOp_match.
  destruct e; try apply reads_bound_fail.
  destruct (bin_op_eqb op Op); [|apply reads_bound_fail].
  apply reads_bound_and_then; [apply HA|apply HB].
Qed.

Lemma reads_bound_CmpOp (Op : cmp_op) : reads_bound_cells_only (CmpOp Op A B).
Proof.
  intros bound p e. cbn [match_ CmpOp_Matcher binds CmpOp_tag]. unfold CmpOp_match.
  destruct e; try apply reads_bound_fail.
  destruct (cmp_op_eqb op Op); [|apply reads_bound_fail].
  apply reads_bound_and_then; [apply HA|apply HB].
Qed.

Lemma reads_bound_RampOp : reads_bound_cells_only (RampOp A B).
Proof.
  intros bound p e. cbn [match_ RampOp_Matcher binds RampOp_tag]. unfold RampOp_match.
  destruct e; try apply reads_bound_fail.
  apply reads_bound_and_then; [apply HA|apply HB].
Qed.

Lemma reads_bound_SelectOp : reads_bound_cells_only (SelectOp A B C).
Proof.
  intros bound p e. cbn [match_ SelectOp_Matcher binds SelectOp_tag].
  unfold SelectOp_match. destruct e; try apply reads_bound_fail.
  rewrite <- Z.lor_assoc.
  apply reads_bound_and_then; [apply HA|].
  apply reads_bound_and_then; [apply HB|apply HC].
Qed.

Lemma reads_bound_NotOp : reads_bound_cells_only (NotOp A).
Proof.
  intros bound p e. cbn [match_ NotOp_Matcher binds NotOp_tag]. unfold NotOp_match.
  destruct e; try apply reads_bound_fail. apply HA.
Qed.

Lemma reads_bound_CastOp : reads_bound_cells_only (CastOp A).
Proof.
  intros bound p e. cbn [match_ CastOp_Matcher binds CastOp_tag]. unfold CastOp_match.
  destruct e; try apply reads_bound_fail. apply HA.
Qed.

Lemma reads_bound_BroadcastOp : reads_bound_cells_only (BroadcastOp A).
Proof.
  intros bound p e. cbn [match_ BroadcastOp_Matcher binds BroadcastOp_tag].
  unfold BroadcastOp_match. destruct e; try apply reads_bound_fail.
  match goal with |- context [if ?c then _ else _] => destruct c end;
    [apply HA|apply reads_bound_fail].
Qed.

Lemma reads_bound_NegateOp `{IRHelpers} : reads_bound_cells_only (NegateOp A).
Proof.
  intros bound p e. cbn [match_ NegateOp_Matcher binds NegateOp_tag].
  unfold NegateOp_match. destruct e; try apply reads_bound_fail.
  destruct op; try apply reads_bound_fail.
  rewrite <- (Z.lor_0_r (binds A)).
  apply reads_bound_and_then; [apply HA|apply reads_bound_check].
Qed.

End ReadsBoundComposites.

(** X10: a match reads the state only in the cells that its bound mask
    names.  Run from two states that agree on those cells, every pattern
    struct answers the same and, when it succeeds, leaves two states that
    agree on the cells of the mask and of the wildcards the pattern binds;
    from the empty mask the answer and the cells bound therefore do not
    depend on what the state held before.  This holds of the wildcards and
    of [Const], and of every combinator whose operands have it. *)
Theorem match_reads_bound_cells `{IRHelpers} :
  (forall i, reads_bound_cells_only (Wild i)) /\
  (forall i, reads_bound_cells_only (WildConstInt i)) /\
  (forall i, reads_bound_cells_only (WildConstUInt i)) /\
  (forall i, reads_bound_cells_only (WildConstFloat i)) /\
  (forall i, reads_bound_cells_only (WildConst i)) /\
  reads_bound_cells_only Const /\
  (forall (A B C : Type) (tA : pattern_tag A) (tB : pattern_tag B) (tC : pattern_tag C)
          (mA : Matcher A) (mB : Matcher B) (mC : Matcher C),
     reads_bound_cells_only A ->
     (reads_bound_cells_only (NotOp A) /\
      reads_bound_cells_only (NegateOp A) /\
      reads_bound_cells_only (CastOp A) /\
      reads_bound_cells_only (BroadcastOp A)) /\
     (reads_bound_cells_only B ->
      (forall Op, reads_bound_cells_only (BinOp Op A B)) /\
      (forall Op, reads_bound_cells_only (CmpOp Op A B)) /\
      reads_bound_cells_only (RampOp A B) /\
      (reads_bound_cells_only C -> reads_bound_cells_only (SelectOp A B C)))).
Proof.
  split; [intros i bound p e; apply reads_bound_Wild|].
  split; [intros i bound p e; apply reads_bound_WildConstInt|].
  split; [intros i bound p e; apply reads_bound_WildConstUInt|].
  split; [intros i bound p e; apply reads_bound_WildConstFloat|].
  split; [intros i bound p e; apply reads_bound_WildConst|].
  split; [intros bound p e; apply reads_bound_Const|].
  intros A B C tA tB tC mA mB mC HA. split.
  - split; [now apply reads_bound_NotOp|]. split; [now apply reads_bound_NegateOp|].
    split; [now apply reads_bound_CastOp|now apply reads_bound_BroadcastOp].
  - intros HB. split; [intros Op; now apply reads_bound_BinOp|].
    split; [intros Op; now apply reads_bound_CmpOp|].
    split; [now apply reads_bound_RampOp|].
    intros HC. now apply reads_bound_SelectOp.
Qed.

Lemma agree_on_empty (s1 s2 : MatcherState) : agree_on (Z.testbit 0) s1 s2.
Proof. intros j. split; intros Hk; rewrite Z.bits_0 in Hk; discriminate. Qed.

(** From the empty mask, nothing of the state is read. *)
Lemma match_from_empty_mask {P : Type} `{pattern_tag P} `{Matcher P} :
  reads_bound_cells_only P ->
  forall (p : P) (e : BaseExprNode) (s1 s2 : MatcherState),
    fst (match_ 0 p e s1) = fst (match_ 0 p e s2) /\
    (fst (match_ 0 p e s1) = true ->
     agree_on (Z.testbit (binds P)) (snd (match_ 0 p e s1)) (snd (match_ 0 p e s2))).
Proof.
  intros HP p e s1 s2.
  destruct (HP 0 p e s1 s2 (agree_on_empty s1 s2)) as [Hf Hs].
  split; [exact Hf|]. intros Hok. specialize (Hs Hok).
  now rewrite Z.lor_0_l in Hs.
Qed.

Lemma match_reads_bound_cells_witness :
  fst (match_ 0 (@mkBinOp Add _ _ (@mkWildConstInt w0) (@mkWildConstInt w0))
         (Binary 6%N (Int 32) Add three three) some_state)
  = fst (match_ 0 (@mkBinOp Add _ _ (@mkWildConstInt w0) (@mkWildConstInt w0))
           (Binary 6%N (Int 32) Add three three)
           (set_bound_const w0 (of_i64 99) (Float 64) some_state)).
Proof.
  destruct (@match_reads_bound_cells sample_helpers)
    as (_ & Hint & _ & _ & _ & _ & Hcomb).
  destruct (Hcomb (WildConstInt w0) (WildConstInt w0) (WildConstInt w0) _ _ _ _ _ _
              (Hint w0)) as (_ & Hbin).
  destruct (Hbin (Hint w0)) as (Hadd & _).
  exact (proj1 (match_from_empty_mask (Hadd Add) _ _ _ _)).
Defined.

(** ** A match writes only unbound cells of its own wildcards *)

Lemma writes_unbound_keep (bound binds : Z) (c : bool) :
  writes_unbound bound binds (fun s => (c, s)).
Proof. intros s. apply agree_on_refl. Qed.

Lemma writes_unbound_and_then (bound bA bB : Z)
  (m1 m2 : MatcherState -> bool * MatcherState) :
  writes_unbound bound bA m1 ->
  writes_unbound (Z.lor bound bA) bB m2 ->
  writes_unbound bound (Z.lor bA bB) (and_then m1 m2).
Proof.
  intros H1 H2 s. specialize (H1 s). unfold and_then.
  destruct (m1 s) as [r1 t1]. cbn [snd] in *.
  assert (H1' : agree_on (fun k => Z.testbit bound k
                                   || negb (Z.testbit (Z.lor bA bB) k)) s t1).
  { apply (agree_on_weaken (fun k => Z.testbit bound k || negb (Z.testbit bA k)));
      [|exact H1].
    intros k. rewrite !Z.lor_spec.
    destruct (Z.testbit bound k), (Z.testbit bA k), (Z.testbit bB k); auto. }
  destruct r1; [|exact H1'].
  apply (agree_on_trans _ s t1); [exact H1'|].
  apply (agree_on_weaken (fun k => Z.testbit (Z.lor bound bA) k || negb (Z.testbit bB k)));
    [|apply H2].
  intros k. rewrite !Z.lor_spec.
  destruct (Z.testbit bound k), (Z.testbit bA k), (Z.testbit bB k); auto.
Qed.

Lemma writes_unbound_Wild `{IRHelpers} (i : wild) (bound : Z) (e : BaseExprNode) :
  writes_unbound bound (binds (Wild i)) (Wild_match i bound e).
Proof.
  pose proof (index_range i) as Hi.
  intros s. unfold Wild_match. cbn [binds Wild_tag].
  rewrite is_bound_testbit by lia.
  destruct (Z.testbit bound (index i + 16)) eqn:Hb; cbn [snd]; [apply agree_on_refl|].
  intros j. unfold set_binding. cbn [bound_const bound_const_type bindings].
  split; [intros _; split; reflexivity|].
  intros Hk. unfold store. destruct (wild_eqb i j) eqn:E; [|reflexivity].
  apply wild_eqb_true in E. subst j.
  rewrite Hb, one_bit_set in Hk by lia. discriminate.
Qed.

Lemma writes_unbound_const_cell (i : wild) (bound : Z) (ty : halide_type_t)
  (value : halide_scalar_value_t)
  (test : halide_scalar_value_t -> halide_type_t -> bool) :
  writes_unbound bound (Z.shiftl 1 (index i))
    (fun s => if is_bound bound (Z.shiftl 1 (index i))
              then (let (val, type) := get_bound_const i s in (test val type, s))
              else (true, set_bound_const i value ty s)).
Proof.
  pose proof (index_range i) as Hi.
  intros s. rewrite is_bound_testbit by lia.
  destruct (Z.testbit bound (index i)) eqn:Hb; unfold get_bound_const; cbn [snd];
    [apply agree_on_refl|].
  intros j. unfold set_bound_const. cbn [bound_const bound_const_type bindings].
  split; [|intros _; reflexivity].
  intros Hk. unfold store. destruct (wild_eqb i j) eqn:E; [|split; reflexivity].
  apply wild_eqb_true in E. subst j.
  rewrite Hb, one_bit_set in Hk by lia. discriminate.
Qed.

Lemma writes_unbound_WildConstInt (i : wild) (bound : Z) (e : BaseExprNode) :
  writes_unbound bound (binds (WildConstInt i)) (WildConstInt_match i bound e).
Proof.
  unfold WildConstInt_match. cbn [binds WildConstInt_tag].
  destruct (peel_broadcast e) as [q t v| | | | | | | | | | |] eqn:Hp;
    try apply writes_unbound_keep.
  apply (writes_unbound_const_cell i bound (type_of e) (of_i64 v)
           (fun val type => type_eqb (type_of (IntImm q t v)) type && (v =? u_i64 val))).
Qed.

Lemma writes_unbound_WildConstUInt (i : wild) (bound : Z) (e : BaseExprNode) :
  writes_unbound bound (binds (WildConstUInt i)) (WildConstUInt_match i bound e).
Proof.
  unfold WildConstUInt_match. cbn [binds WildConstUInt_tag].
  destruct (peel_broadcast e) as [|q t v| | | | | | | | | |] eqn:Hp;
    try apply writes_unbound_keep.
  apply (writes_unbound_const_cell i bound (type_of e) (of_u64 v)
           (fun val type => type_eqb (type_of (UIntImm q t v)) type && (v =? u_u64 val))).
Qed.

Lemma writes_unbound_WildConstFloat (i : wild) (bound : Z) (e : BaseExprNode) :
  writes_unbound bound (binds (WildConstFloat i)) (WildConstFloat_match i bound e).
Proof.
  unfold WildConstFloat_match. cbn [binds WildConstFloat_tag].
  destruct (peel_broadcast e) as [| |q t v| | | | | | | | |] eqn:Hp;
    try apply writes_unbound_keep.
  apply (writes_unbound_const_cell i bound (type_of e) (of_f64 v)
           (fun val type => type_eqb (type_of (FloatImm q t v)) type
                            && F64.eqb v (u_f64 val))).
Qed.

Lemma writes_unbound_WildConst (i : wild) (bound : Z) (e : BaseExprNode) :
  writes_unbound bound (binds (WildConst i)) (WildConst_match i bound e).
Proof.
  unfold WildConst_match. cbn [binds WildConst_tag].
  destruct (peel_broadcast e); try apply writes_unbound_keep.
  - apply writes_unbound_WildConstInt.
  - apply writes_unbound_WildConstUInt.
  - apply writes_unbound_WildConstFloat.
Qed.

Lemma writes_unbound_Const (bound : Z) (c : Const) (e : BaseExprNode) :
  writes_unbound bound (binds Const) (Const_match bound c e).
Proof.
  unfold Const_match. destruct (peel_broadcast e); apply writes_unbound_keep.
Qed.

Section WritesUnboundComposites.

Context {A B C : Type}.
Context {tA : pattern_tag A} {tB : pattern_tag B} {tC : pattern_tag C}.
Context {mA : Matcher A} {mB : Matcher B} {mC : Matcher C}.
Hypothesis HA : writes_unbound_cells_only A.
Hypothesis HB : writes_unbound_cells_only B.
Hypothesis HC : writes_unbound_cells_only C.

Lemma writes_unbound_BinOp (Op : bin_op) : writes_unbound_cells_only (BinOp Op A B).
Proof.
  intros bound p e. cbn [match_ BinOp_Matcher binds BinOp_tag]. unfold BinOp_match.
  destruct e; try apply writes_unbound_keep.
  destruct (bin_op_eqb op Op); [|apply writes_unbound_keep].
  apply writes_unbound_and_then; [apply HA|apply HB].
Qed.

Lemma writes_unbound_CmpOp (Op : cmp_op) : writes_unbound_cells_only (CmpOp Op A B).
Proof.
  intros bound p e. cbn [match_ CmpOp_Matcher binds CmpOp_tag]. unfold CmpOp_match.
  destruct e; try apply writes_unbound_keep.
  destruct (cmp_op_eqb op Op); [|apply writes_unbound_keep].
  apply writes_unbound_and_then; [apply HA|apply HB].
Qed.

Lemma writes_unbound_RampOp : writes_unbound_cells_only (RampOp A B).
Proof.
  intros bound p e. cbn [match_ RampOp_Matcher binds RampOp_tag]. unfold RampOp_match.
  destruct e; try apply writes_unbound_keep.
  apply writes_unbound_and_then; [apply HA|apply HB].
Qed.

Lemma writes_unbound_SelectOp : writes_unbound_cells_only (SelectOp A B C).
Proof.
  intros bound p e. cbn [match_ SelectOp_Matcher binds SelectOp_tag].
  unfold SelectOp_match. destruct e; try apply writes_unbound_keep.
  rewrite <- Z.lor_assoc.
  apply writes_unbound_and_then; [apply HA|].
  apply writes_unbound_and_then; [apply HB|apply HC].
Qed.

Lemma writes_unbound_NotOp : writes_unbound_cells_only (NotOp A).
Proof.
  intros bound p e. cbn [match_ NotOp_Matcher binds NotOp_tag]. unfold NotOp_match.
  destruct e; try apply writes_unbound_keep. apply HA.
Qed.

Lemma writes_unbound_CastOp : writes_unbound_cells_only (CastOp A).
Proof.
  intros bound p e. cbn [match_ CastOp_Matcher binds CastOp_tag]. unfold CastOp_match.
  destruct e; try apply writes_unbound_keep. apply HA.
Qed.

Lemma writes_unbound_BroadcastOp : writes_unbound_cells_only (BroadcastOp A).
Proof.
  intros bound p e. cbn [match_ BroadcastOp_Matcher binds BroadcastOp_tag].
  unfold BroadcastOp_match. destruct e; try apply writes_unbound_keep.
  match goal with |- context [if ?c then _ else _] => destruct c end;
    [apply HA|apply writes_unbound_keep].
Qed.

Lemma writes_unbound_NegateOp `{IRHelpers} : writes_unbound_cells_only (NegateOp A).
Proof.
  intros bound p e. cbn [match_ NegateOp_Matcher binds NegateOp_tag].
  unfold NegateOp_match. destruct e; try apply writes_unbound_keep.
  destruct op; try apply writes_unbound_keep.
  rewrite <- (Z.lor_0_r (binds A)).
  apply writes_unbound_and_then; [apply HA|apply writes_unbound_keep].
Qed.

End WritesUnboundComposites.

(** X11: a match, whether it succeeds or fails, leaves every cell of the
    state as it was except the cells of wildcards that the pattern binds
    and that the bound mask does not name: a bound wildcard is compared,
    never overwritten, and the cells of other wildcards are not touched.
    This holds of the wildcards and of [Const], and of every combinator
    whose operands have it. *)
Theorem match_writes_unbound_cells `{IRHelpers} :
  (forall i, writes_unbound_cells_only (Wild i)) /\
  (forall i, writes_unbound_cells_only (WildConstInt i)) /\
  (forall i, writes_unbound_cells_only (WildConstUInt i)) /\
  (forall i, writes_unbound_cells_only (WildConstFloat i)) /\
  (forall i, writes_unbound_cells_only (WildConst i)) /\
  writes_unbound_cells_only Const /\
  (forall (A B C : Type) (tA : pattern_tag A) (tB : pattern_tag B) (tC : pattern_tag C)
          (mA : Matcher A) (mB : Matcher B) (mC : Matcher C),
     writes_unbound_cells_only A ->
     (writes_unbound_cells_only (NotOp A) /\
      writes_unbound_cells_only (NegateOp A) /\
      writes_unbound_cells_only (CastOp A) /\
      writes_unbound_cells_only (BroadcastOp A)) /\
     (writes_unbound_cells_only B ->
      (forall Op, writes_unbound_cells_only (BinOp Op A B)) /\
      (forall Op, writes_unbound_cells_only (CmpOp Op A B)) /\
      writes_unbound_cells_only (RampOp A B) /\
      (writes_unbound_cells_only C -> writes_unbound_cells_only (SelectOp A B C)))).
Proof.
  split; [intros i bound p e; apply writes_unbound_Wild|].
  split; [intros i bound p e; apply writes_unbound_WildConstInt|].
  split; [intros i bound p e; apply writes_unbound_WildConstUInt|].
  split; [intros i bound p e; apply writes_unbound_WildConstFloat|].
  split; [intros i bound p e; apply writes_unbound_WildConst|].
  split; [intros bound p e; apply writes_unbound_Const|].
  intros A B C tA tB tC mA mB mC HA. split.
  - split; [now apply writes_unbound_NotOp|]. split; [now apply writes_unbound_NegateOp|].
    split; [now apply writes_unbound_CastOp|now apply writes_unbound_BroadcastOp].
  - intros HB. split; [intros Op; now apply writes_unbound_BinOp|].
    split; [intros Op; now apply writes_unbound_CmpOp|].
    split; [now apply writes_unbound_RampOp|].
    intros HC. now apply writes_unbound_SelectOp.
Qed.

Lemma match_writes_unbound_cells_witness :
  let s := set_bound_const w1 (of_i64 5) (Int 32) some_state in
  let s' := snd (match_ 0 (@mkBinOp Add _ _ (@mkWildConstInt w0) (@mkWildConstInt w0))
                   (Binary 6%N (Int 32) Add three var_y) s) in
  get_bound_const w1 s' = (of_i64 5, Int 32).
Proof.
  destruct (@match_writes_unbound_cells sample_helpers)
    as (_ & Hint & _ & _ & _ & _ & Hcomb).
  destruct (Hcomb (WildConstInt w0) (WildConstInt w0) (WildConstInt w0) _ _ _ _ _ _
              (Hint w0)) as (_ & Hbin).
  destruct (Hbin (Hint w0)) as (Hadd & _).
  cbv zeta.
  destruct (Hadd Add 0 (mkBinOp mkWildConstInt mkWildConstInt)
              (Binary 6%N (Int 32) Add three var_y)
              (set_bound_const w1 (of_i64 5) (Int 32) some_state) w1) as [Hc _].
  destruct (Hc eq_refl) as [Hv Ht].
  unfold get_bound_const. rewrite <- Hv, <- Ht. reflexivity.
Defined.

(** ** Folding and making read only the cells a rule has bound *)

Lemma reads_cells_ret {X : Type} (m : Z) (x : X) : reads_cells m (ret x).
Proof. intros u1 u2 Hag. split; [reflexivity|exact Hag]. Qed.

Lemma reads_cells_bind {X Y : Type} (m : Z) (f : M X) (k : X -> M Y) :
  reads_cells m f -> (forall x, reads_cells m (k x)) -> reads_cells m (bind f k).
Proof.
  intros Hf Hk u1 u2 Hag. destruct (Hf u1 u2 Hag) as [Hx Hag'].
  unfold bind. destruct (f u1) as [x1 v1], (f u2) as [x2 v2].
  cbn [fst snd] in *. subst x2. now apply Hk.
Qed.

Lemma reads_cells_new_node (m : Z) : reads_cells m new_node.
Proof.
  intros u1 u2 (Hs & Hc & Hb). unfold new_node. cbn [fst snd].
  split; [exact Hb|]. unfold env_agree. cbn [state counter brk].
  split; [exact Hs|]. split; congruence.
Qed.

Lemma reads_cells_counter (m : Z) : reads_cells m counter_post_increment.
Proof.
  intros u1 u2 (Hs & Hc & Hb). unfold counter_post_increment. cbn [fst snd].
  split; [exact Hc|]. unfold env_agree. cbn [state counter brk].
  split; [exact Hs|]. split; congruence.
Qed.

Lemma reads_cells_store (m : Z) (i : wild) (val : halide_scalar_value_t)
  (ty : halide_type_t) :
  reads_cells m (modify_state (set_bound_const i val ty)).
Proof.
  intros u1 u2 (Hs & Hc & Hb). unfold modify_state. cbn [fst snd].
  split; [reflexivity|]. split; [|split; assumption]. cbn [state].
  intros j. destruct (Hs j) as [Hcj Hbj]. unfold set_bound_const.
  cbn [bound_const bound_const_type bindings]. split; [|exact Hbj].
  intros Hk. unfold store. destruct (wild_eqb i j); [split; reflexivity|auto].
Qed.

Lemma reads_cells_get_const (m : Z) (i : wild) :
  Z.testbit m (index i) = true ->
  reads_cells m (s <- get_state ;; ret (get_bound_const i s)).
Proof.
  intros Hi u1 u2 Hag. unfold bind, get_state, ret. cbn [fst snd].
  split; [|exact Hag]. destruct Hag as (Hs & _).
  destruct (proj1 (Hs i) Hi) as [Hv Ht]. unfold get_bound_const. congruence.
Qed.

Lemma reads_cells_get_binding (m : Z) (i : wild) :
  Z.testbit m (index i + 16) = true ->
  reads_cells m (s <- get_state ;; ret (Some (get_binding i s))).
Proof.
  intros Hi u1 u2 Hag. unfold bind, get_state, ret. cbn [fst snd].
  split; [|exact Hag]. destruct Hag as (Hs & _).
  unfold get_binding. now rewrite (proj2 (Hs i) Hi).
Qed.

Ltac reads_cells_step :=
  first [ apply reads_cells_ret
        | apply reads_cells_new_node
        | apply reads_cells_counter
        | apply reads_cells_store
        | apply reads_cells_bind; [|intros ?] ].

Lemma reads_cells_Broadcast_make (m : Z) (e : Expr) (n : Z) :
  reads_cells m (Broadcast_make e n).
Proof. destruct e; cbn [Broadcast_make]; repeat reads_cells_step. Qed.

Lemma reads_cells_Not_make (m : Z) (e : Expr) : reads_cells m (Not_make e).
Proof. destruct e; cbn [Not_make]; repeat reads_cells_step. Qed.

Lemma reads_cells_Call_make (m : Z) (t : halide_type_t) (name : string)
  (args : list Expr) :
  reads_cells m (Call_make t name args).
Proof. unfold Call_make. destruct (defined_args args); repeat reads_cells_step. Qed.

Lemma reads_cells_to_expr (m : Z) (val : halide_scalar_value_t) (ty : halide_type_t) :
  reads_cells m (to_expr val ty).
Proof.
  unfold to_expr, to_special_expr, Expr_of_int, IntImm_make, UIntImm_make,
    FloatImm_make.
  repeat match goal with
         | |- reads_cells _ (if ?c then _ else _) => destruct c
         | |- reads_cells _ (match ?c with _ => _ end) => destruct c
         | |- reads_cells _ (Broadcast_make _ _) => apply reads_cells_Broadcast_make
         | |- reads_cells _ (Call_make _ _ _) => apply reads_cells_Call_make
         | |- _ => reads_cells_step
         end.
Qed.

Lemma reads_cells_WildConst_fold (m : Z) (i : wild) :
  Z.testbit m (index i) = true -> reads_cells m (WildConst_make_folded_const i).
Proof. apply reads_cells_get_const. Qed.

Lemma reads_cells_WildConst_make (m : Z) (i : wild) :
  Z.testbit m (index i) = true -> reads_cells m (WildConst_make i).
Proof.
  intros Hi u1 u2 Hag. unfold WildConst_make.
  pose proof (reads_cells_get_const m i Hi u1 u2 Hag) as [Hv _].
  unfold bind, get_state, ret in *. cbn [fst snd] in *.
  rewrite Hv. destruct (get_bound_const i (state u2)) as [val ty].
  now apply reads_cells_to_expr.
Qed.

Section FoldReadsComposites.

Context {A B : Type} {fA : Folder A} {fB : Folder B}.
Variable m : Z.
Hypothesis HA : fold_reads m A.
Hypothesis HB : fold_reads m B.

Lemma fold_reads_BinOp (Op : bin_op) : fold_reads m (BinOp Op A B).
Proof.
  intros p. cbn [make_folded_const BinOp_Folder]. unfold BinOpFolder_make_folded_const.
  apply reads_cells_bind; [apply HA|]. intros [val_a type_a].
  match goal with |- reads_cells _ (if ?c then _ else _) => destruct c end;
    [apply reads_cells_ret|].
  apply reads_cells_bind; [apply HB|]. intros [val_b type_b]. apply reads_cells_ret.
Qed.

Lemma fold_reads_BinOp_A_Const (Op : bin_op) : fold_reads m (BinOp Op A Const).
Proof.
  intros p. cbn [make_folded_const BinOp_A_Const_Folder].
  unfold BinOpFolder_A_Const_make_folded_const.
  apply reads_cells_bind; [apply HA|]. intros [val ty]. apply reads_cells_ret.
Qed.

Lemma fold_reads_BinOp_Const_B (Op : bin_op) : fold_reads m (BinOp Op Const A).
Proof.
  intros p. cbn [make_folded_const BinOp_Const_B_Folder].
  unfold BinOpFolder_Const_B_make_folded_const.
  apply reads_cells_bind; [apply HA|]. intros [val ty]. apply reads_cells_ret.
Qed.

Lemma fold_reads_CmpOp (Op : cmp_op) : fold_reads m (CmpOp Op A B).
Proof.
  intros p. cbn [make_folded_const CmpOp_Folder]. unfold CmpOpFolder_make_folded_const.
  apply reads_cells_bind; [apply HA|]. intros [val_a type_a].
  apply reads_cells_bind; [apply HB|]. intros [val_b type_b]. apply reads_cells_ret.
Qed.

Lemma fold_reads_CmpOp_A_Const (Op : cmp_op) : fold_reads m (CmpOp Op A Const).
Proof.
  intros p. cbn [make_folded_const CmpOp_A_Const_Folder].
  unfold CmpOpFolder_A_Const_make_folded_const.
  apply reads_cells_bind; [apply HA|]. intros [val ty]. apply reads_cells_ret.
Qed.

Lemma fold_reads_CmpOp_Const_B (Op : cmp_op) : fold_reads m (CmpOp Op Const A).
Proof.
  intros p. cbn [make_folded_const CmpOp_Const_B_Folder].
  unfold CmpOpFolder_Const_B_make_folded_const.
  apply reads_cells_bind; [apply HA|]. intros [val ty]. apply reads_cells_ret.
Qed.

Lemma fold_reads_NotOp : fold_reads m (NotOp A).
Proof.
  intros p. cbn [make_folded_const NotOp_Folder]. unfold NotOp_make_folded_const.
  apply reads_cells_bind; [apply HA|]. intros [val ty]. apply reads_cells_ret.
Qed.

Lemma fold_reads_NegateOp : fold_reads m (NegateOp A).
Proof.
  intros p. cbn [make_folded_const NegateOp_Folder]. unfold NegateOp_make_folded_const.
  apply reads_cells_bind; [apply HA|]. intros [val ty].
  destruct (code ty); try apply reads_cells_ret.
  match goal with |- reads_cells _ (if ?c then _ else _) => destruct c end;
    apply reads_cells_ret.
Qed.

Lemma fold_reads_BindOp (i : wild) : fold_reads m (BindOp i A).
Proof.
  intros p. cbn [make_folded_const BindOp_Folder]. unfold BindOp_make_folded_const.
  apply reads_cells_bind; [apply HA|]. intros [val ty].
  apply reads_cells_bind; [apply reads_cells_store|]. intros _. apply reads_cells_ret.
Qed.

Lemma make_reads_FoldOp : make_reads m (FoldOp A).
Proof.
  intros p. cbn [make FoldOp_Maker]. unfold FoldOp_make.
  apply reads_cells_bind; [apply HA|]. intros [c ty]. apply reads_cells_to_expr.
Qed.

Lemma evaluate_predicate_reads (p : A) : reads_cells m (evaluate_predicate p).
Proof.
  unfold evaluate_predicate.
  apply reads_cells_bind; [apply HA|]. intros [c ty]. apply reads_cells_ret.
Qed.

End FoldReadsComposites.

Section MakeReadsComposites.

Context {A : Type} {kA : Maker A}.
Variable m : Z.
Hypothesis HA : make_reads m A.

Lemma fold_reads_IsConstOp `{IRHelpers} : fold_reads m (IsConstOp A).
Proof.
  intros p. cbn [make_folded_const IsConstOp_Folder].
  unfold IsConstOp_make_folded_const.
  apply reads_cells_bind; [apply HA|]. intros e. apply reads_cells_ret.
Qed.

Lemma make_reads_NotOp : make_reads m (NotOp A).
Proof.
  intros p. cbn [make NotOp_Maker].
  apply reads_cells_bind; [apply HA|]. intros e. apply reads_cells_Not_make.
Qed.

Lemma make_reads_BroadcastOp : make_reads m (BroadcastOp A).
Proof.
  intros p. cbn [make BroadcastOp_Maker].
  apply reads_cells_bind; [apply HA|]. intros e. apply reads_cells_Broadcast_make.
Qed.

End MakeReadsComposites.

(** X12: [make_folded_const] and [make] read of the match state only
    the bound constants and bindings of the wildcards they mention.  With
    [m] a mask that names those wildcards, two runs from states that agree
    on the cells of [m] (and on the counter and the allocator) return the
    same value and leave states that agree again; [BindOp] writes the
    same cell in both.  This holds of the wildcards, and of every folder
    and maker whose operands have it. *)
Theorem fold_and_make_read_named_cells `{IRHelpers} (m : Z) :
  (forall i, Z.testbit m (index i) = true ->
     fold_reads m (WildConstInt i) /\ fold_reads m (WildConstUInt i) /\
     fold_reads m (WildConstFloat i) /\ fold_reads m (WildConst i) /\
     make_reads m (WildConstInt i) /\ make_reads m (WildConstUInt i) /\
     make_reads m (WildConstFloat i) /\ make_reads m (WildConst i)) /\
  (forall i, Z.testbit m (index i + 16) = true -> make_reads m (Wild i)) /\
  (forall (A : Type) (fA : Folder A),
     fold_reads m A ->
     (forall Op, fold_reads m (BinOp Op A Const)) /\
     (forall Op, fold_reads m (BinOp Op Const A)) /\
     (forall Op, fold_reads m (CmpOp Op A Const)) /\
     (forall Op, fold_reads m (CmpOp Op Const A)) /\
     fold_reads m (NotOp A) /\ fold_reads m (NegateOp A) /\
     (forall i, fold_reads m (BindOp i A)) /\
     make_reads m (FoldOp A) /\
     (forall p : A, reads_cells m (evaluate_predicate p)) /\
     (forall (B : Type) (fB : Folder B),
        fold_reads m B ->
        (forall Op, fold_reads m (BinOp Op A B)) /\
        (forall Op, fold_reads m (CmpOp Op A B)))) /\
  (forall (A : Type) (kA : Maker A),
     make_reads m A ->
     fold_reads m (IsConstOp A) /\ make_reads m (NotOp A) /\
     make_reads m (BroadcastOp A)).
Proof.
  split; [|split; [|split]].
  - intros i Hi.
    repeat (match goal with |- _ /\ _ => split end);
      intros p; cbn [make_folded_const make WildConstInt_Folder
                                   WildConstUInt_Folder WildConstFloat_Folder
                                   WildConst_Folder WildConstInt_Maker
                                   WildConstUInt_Maker WildConstFloat_Maker
                                   WildConst_Maker];
      first [now apply reads_cells_WildConst_fold | now apply reads_cells_WildConst_make].
  - intros i Hi p. cbn [make Wild_Maker]. now apply reads_cells_get_binding.
  - intros A fA HA.
    split; [intros Op; now apply fold_reads_BinOp_A_Const|].
    split; [intros Op; now apply fold_reads_BinOp_Const_B|].
    split; [intros Op; now apply fold_reads_CmpOp_A_Const|].
    split; [intros Op; now apply fold_reads_CmpOp_Const_B|].
    split; [now apply fold_reads_NotOp|].
    split; [now apply fold_reads_NegateOp|].
    split; [intros i; now apply fold_reads_BindOp|].
    split; [now apply make_reads_FoldOp|].
    split; [intros p; now apply evaluate_predicate_reads|].
    intros B fB HB.
    split; intros Op; [now apply fold_reads_BinOp|now apply fold_reads_CmpOp].
  - intros A kA HA.
    split; [now apply fold_reads_IsConstOp|].
    split; [now apply make_reads_NotOp|now apply make_reads_BroadcastOp].
Qed.

Lemma fold_and_make_read_named_cells_witness :
  fst (make_folded_const
         (@mkBinOp Add _ _ (@mkWildConstInt w0) (@mkWildConstInt w0))
         (mk_env (set_bound_const w0 (of_i64 3) (Int 32) some_state) 0 100%N))
  = fst (make_folded_const
           (@mkBinOp Add _ _ (@mkWildConstInt w0) (@mkWildConstInt w0))
           (mk_env (set_bound_const w1 (of_i64 9) (Int 8)
                      (set_bound_const w0 (of_i64 3) (Int 32) some_state)) 0 100%N)).
Proof.
  destruct (@fold_and_make_read_named_cells sample_helpers 1) as (Hc & _ & Hf & _).
  destruct (Hc w0 eq_refl) as (Hint & _).
  destruct (Hf _ _ Hint) as (_ & _ & _ & _ & _ & _ & _ & _ & _ & Hbin).
  destruct (Hbin _ _ Hint) as (Hadd & _).
  apply (Hadd Add). split; [|split; reflexivity]. cbn [state].
  intros j. split.
  - intros Hk. destruct j; try discriminate Hk. split; reflexivity.
  - intros Hk. reflexivity.
Defined.

(** ** A rewriter does not depend on what its state held *)

(** X13: [reset] does nothing, and nothing needs to be reset.  For a rule
    whose [before] reads only bound cells and whose predicate and
    replacement read only the cells [before] binds, two rewriters on the
    same instance whose states hold anything whatever return the same
    answer, leave the counter and the allocator the same, and when the
    rule fires stage the same result; likewise without a predicate. *)
Theorem rewriter_ignores_stale_state {Before After Predicate : Type}
  `{pattern_tag Before} `{Matcher Before} `{Maker After} `{Folder Predicate}
  (before : Before) (after : After) (pred : Predicate)
  (rw1 rw2 : Rewriter) (c : Z) (b : ptr) :
  reads_bound_cells_only Before ->
  make_reads (binds Before) After ->
  fold_reads (binds Before) Predicate ->
  instance rw1 = instance rw2 ->
  (let '(ok1, r1, g1) := Rewriter_call_pred before after pred rw1 c b in
   let '(ok2, r2, g2) := Rewriter_call_pred before after pred rw2 c b in
   ok1 = ok2 /\ g1 = g2 /\ (ok1 = true -> result r1 = result r2)) /\
  (let '(ok1, r1, g1) := Rewriter_call before after rw1 c b in
   let '(ok2, r2, g2) := Rewriter_call before after rw2 c b in
   ok1 = ok2 /\ g1 = g2 /\ (ok1 = true -> result r1 = result r2)).
Proof.
  intros HB HA HP Hinst.
  unfold Rewriter_call_pred, Rewriter_call, reset. rewrite Hinst.
  destruct (match_from_empty_mask HB before (instance rw2) (rw_state rw1) (rw_state rw2))
    as [Hf Hs].
  destruct (match_ 0 before (instance rw2) (rw_state rw1)) as [m1 s1].
  destruct (match_ 0 before (instance rw2) (rw_state rw2)) as [m2 s2].
  cbn [fst snd] in *. subst m2. destruct m1.
  - assert (Hag : env_agree (binds Before) (mk_env s1 c b) (mk_env s2 c b))
      by (split; [exact (Hs eq_refl)|split; reflexivity]).
    split.
    + destruct (evaluate_predicate_reads (binds Before) HP pred _ _ Hag) as [Hok Hag'].
      destruct (evaluate_predicate pred (mk_env s1 c b)) as [ok1 u1].
      destruct (evaluate_predicate pred (mk_env s2 c b)) as [ok2 u2].
      cbn [fst snd] in *. subst ok2. destruct ok1.
      * destruct (HA after _ _ Hag') as [Hr (_ & Hc & Hbk)].
        destruct (make after u1) as [e1 v1], (make after u2) as [e2 v2].
        cbn [fst snd matched result] in *. unfold matched. cbn [result].
        split; [reflexivity|]. split; [congruence|]. intros _. exact Hr.
      * destruct Hag' as (_ & Hc & Hbk). unfold no_match.
        split; [reflexivity|]. split; [congruence|discriminate].
    + destruct (HA after _ _ Hag) as [Hr (_ & Hc & Hbk)].
      destruct (make after (mk_env s1 c b)) as [e1 v1].
      destruct (make after (mk_env s2 c b)) as [e2 v2].
      cbn [fst snd] in *. unfold matched. cbn [result].
      split; [reflexivity|]. split; [congruence|]. intros _. exact Hr.
  - unfold no_match. cbn [counter brk].
    split; (split; [reflexivity|]; split; [reflexivity|discriminate]).
Qed.

Lemma rewriter_ignores_stale_state_witness :
  let sum := @mkBinOp Add _ _ (@mkWildConstInt w0) (@mkWildConstInt w1) in
  let nonzero := @mkCmpOp NE _ _ (@mkWildConstInt w1) (mkConst 0) in
  let e := Binary 20%N (Int 32) Add three three in
  let rw1 := mkRewriter e None some_state in
  let rw2 := mkRewriter e None (set_binding w3 var_y
                                  (set_bound_const w1 (of_i64 0) (Float 64) some_state)) in
  fst (fst (Rewriter_call_pred sum (mkFoldOp sum) nonzero rw1 0 100%N))
  = fst (fst (Rewriter_call_pred sum (mkFoldOp sum) nonzero rw2 0 100%N)).
Proof.
  cbv zeta.
  assert (Hi : forall i, reads_bound_cells_only (WildConstInt i))
    by (intros i bound p e; apply reads_bound_WildConstInt).
  assert (Hf : forall i, Z.testbit 3 (index i) = true -> fold_reads 3 (WildConstInt i))
    by (intros i Hb p; now apply reads_cells_WildConst_fold).
  pose proof (rewriter_ignores_stale_state
                (@mkBinOp Add _ _ (@mkWildConstInt w0) (@mkWildConstInt w1))
                (mkFoldOp (@mkBinOp Add _ _ (@mkWildConstInt w0) (@mkWildConstInt w1)))
                (@mkCmpOp NE _ _ (@mkWildConstInt w1) (mkConst 0))
                (mkRewriter (Binary 20%N (Int 32) Add three three) None some_state)
                (mkRewriter (Binary 20%N (Int 32) Add three three) None
                   (set_binding w3 var_y
                      (set_bound_const w1 (of_i64 0) (Float 64) some_state)))
                0 100%N
                (reads_bound_BinOp (Hi w0) (Hi w1) Add)
                (make_reads_FoldOp 3 (fold_reads_BinOp 3 (Hf w0 eq_refl) (Hf w1 eq_refl) Add))
                (fold_reads_CmpOp_A_Const 3 (Hf w1 eq_refl) NE)
                eq_refl) as [H _].
  destruct (Rewriter_call_pred _ _ _
              (mkRewriter (Binary 20%N (Int 32) Add three three) None some_state) _ _)
    as [[ok1 r1] g1].
  destruct (Rewriter_call_pred _ _ _
              (mkRewriter (Binary 20%N (Int 32) Add three three) None
                 (set_binding w3 var_y
                    (set_bound_const w1 (of_i64 0) (Float 64) some_state))) _ _)
    as [[ok2 r2] g2].
  exact (proj1 H).
Defined.

(** ** One wildcard used twice *)

Lemma bin_op_eqb_eq (x y : bin_op) : bin_op_eqb x y = true <-> x = y.
Proof.
  unfold bin_op_eqb, IRNodeType.eqb.
  destruct (IRNodeType.eq_dec (bin_node_type x) (bin_node_type y)) as [E|E].
  - split; [|reflexivity]. intros _. destruct x, y; try reflexivity; discriminate.
  - split; [discriminate|]. intros ->. now contradiction E.
Qed.

(** X14: the pattern [x op x], with [x] an unbound subtree wildcard,
    matches a node exactly when the node is of class [op] and its two
    operands are [equal]; whenever the node is of class [op] the first
    operand is left bound to [x], also when the operands differ; on any
    other node the match fails and the state is untouched. *)
Theorem same_wildcard_twice `{IRHelpers} (Op : bin_op) (i : wild) (bound : Z)
  (e : BaseExprNode) (s : MatcherState) :
  Z.testbit bound (index i + 16) = false ->
  let r := match_ bound (@mkBinOp Op _ _ (@mkWild i) (@mkWild i)) e s in
  (forall p t op a b, e = Binary p t op a b ->
     (fst r = true <-> op = Op /\ equal a b = true) /\
     (op = Op -> snd r = set_binding i a s) /\
     (op <> Op -> snd r = s)) /\
  (node_type e <> bin_node_type Op -> r = (false, s)).
Proof.
  intros Hb. pose proof (index_range i) as Hi. cbv zeta.
  cbn [match_ BinOp_Matcher Wild_Matcher BinOp_a BinOp_b binds Wild_tag].
  unfold BinOp_match. cbn [match_ Wild_Matcher BinOp_a BinOp_b binds Wild_tag].
  split.
  - intros p t op a b ->.
    destruct (bin_op_eqb op Op) eqn:E.
    + apply bin_op_eqb_eq in E. subst op.
      unfold and_then, Wild_match. cbn [binds Wild_tag].
      rewrite !is_bound_testbit, Hb by lia. cbn [fst snd].
      rewrite Z.lor_spec, one_bit_set, orb_true_r by lia. cbn [fst snd].
      unfold get_binding, set_binding. cbn [bindings]. rewrite store_same.
      split; [tauto|]. split; [reflexivity|]. intros Hne. now contradiction Hne.
    + assert (Hne : op <> Op) by (intros ->; rewrite (proj2 (bin_op_eqb_eq Op Op) eq_refl) in E; discriminate).
      cbn [fst snd]. split; [split; [discriminate|tauto]|].
      split; [intros Heq; contradiction|reflexivity].
  - intros Hnt. destruct e; try reflexivity.
    destruct (bin_op_eqb op Op) eqn:E; [|reflexivity].
    apply bin_op_eqb_eq in E. subst op. now contradiction Hnt.
Qed.

Lemma same_wildcard_twice_witness :
  let x_min_x := @mkBinOp Min _ _ (@mkWild w0) (@mkWild w0) in
  fst (@match_ _ (@BinOp_Matcher Min _ _ _ (@Wild_Matcher sample_helpers w0)
                    (@Wild_Matcher sample_helpers w0))
         0 x_min_x (Binary 20%N (Int 32) Min var_y var_y') some_state) = true /\
  @match_ _ (@BinOp_Matcher Min _ _ _ (@Wild_Matcher sample_helpers w0)
               (@Wild_Matcher sample_helpers w0))
    0 x_min_x (Binary 20%N (Int 32) Max var_y var_y') some_state = (false, some_state).
Proof.
  cbv zeta.
  destruct (@same_wildcard_twice sample_helpers Min w0 0
              (Binary 20%N (Int 32) Min var_y var_y') some_state eq_refl) as (H1 & _).
  destruct (@same_wildcard_twice sample_helpers Min w0 0
              (Binary 20%N (Int 32) Max var_y var_y') some_state eq_refl) as (_ & H2).
  destruct (H1 _ _ _ _ _ eq_refl) as (Hiff & _).
  split.
  - apply Hiff. split; reflexivity.
  - apply H2. discriminate.
Defined.

(** ** Instances that are patterns *)

Lemma bin_op_eqb_sym (x y : bin_op) : bin_op_eqb x y = bin_op_eqb y x.
Proof. destruct x, y; reflexivity. Qed.

Lemma cmp_op_eqb_sym (x y : cmp_op) : cmp_op_eqb x y = cmp_op_eqb y x.
Proof. destruct x, y; reflexivity. Qed.

Lemma and_then_check (m : MatcherState -> bool * MatcherState) (c : bool)
  (s : MatcherState) :
  and_then m (fun s' => (c, s')) s = (fst (m s) && c, snd (m s)).
Proof. unfold and_then. destruct (m s) as [[|] s1]; reflexivity. Qed.

(** X15: matching a combinator against an instance of its own struct
    built on expressions gives what matching against the node does: the
    same answer and the same state for [BinOp], [CmpOp], [NotOp],
    [SelectOp], [RampOp] and [CastOp], and for [NegateOp] against the
    subtraction from a node that [is_zero].  For [BroadcastOp] on an
    instance with a given lane count the answer is the same, and so is the
    state when the lane counts agree; on a lane mismatch the instance
    overload has already matched the operand and leaves what that wrote. *)
Theorem instance_pattern_as_node {A B C : Type}
  `{pattern_tag A} `{pattern_tag B} `{Matcher A} `{Matcher B} `{Matcher C}
  `{IRHelpers} (bound : Z) (s : MatcherState) (q : ptr) (t : halide_type_t) :
  (forall Op Op2 (p : BinOp Op A B) ea eb,
     match_pattern bound p (instance_of_binary Op2 ea eb) s
     = match_ bound p (Binary q t Op2 ea eb) s) /\
  (forall Op Op2 (p : CmpOp Op A B) ea eb,
     match_pattern bound p (@mkCmpOp Op2 _ _ ea eb) s
     = match_ bound p (Compare q t Op2 ea eb) s) /\
  (forall (p : NotOp A) ea,
     match_pattern bound p (mkNotOp ea) s = match_ bound p (Not q t ea) s) /\
  (forall (p : SelectOp A B C) ec et ef,
     match_pattern bound p (instance_of_select ec et ef) s
     = match_ bound p (Select q t ec et ef) s) /\
  (forall (p : RampOp A B) ebase estride n n',
     match_pattern bound p (mkRampOp ebase estride n) s
     = match_ bound p (Ramp q t ebase estride n') s) /\
  (forall (p : CastOp A) ev ty,
     match_pattern bound p (mkCastOp ty ev) s = match_ bound p (Cast q t ev) s) /\
  (forall (p : NegateOp A) zero ev,
     is_zero (Some zero) = true ->
     match_pattern bound p (mkNegateOp ev) s = match_ bound p (Binary q t Sub zero ev) s) /\
  (forall (p : BroadcastOp A) ev n,
     n <> -1 ->
     fst (match_pattern bound p (mkBroadcastOp ev n) s)
     = fst (match_ bound p (Broadcast q t ev n) s) /\
     ((BroadcastOp_lanes p = n \/ BroadcastOp_lanes p = -1) ->
      match_pattern bound p (mkBroadcastOp ev n) s
      = match_ bound p (Broadcast q t ev n) s)).
Proof.
  repeat match goal with |- _ /\ _ => split end.
  - intros Op Op2 p ea eb. unfold instance_of_binary.
    cbn [match_pattern BinOp_InstanceMatcher node_InstanceMatcher match_ BinOp_Matcher
           BinOp_a BinOp_b].
    unfold BinOp_match. rewrite (bin_op_eqb_sym Op2 Op).
    destruct (bin_op_eqb Op Op2); reflexivity.
  - intros Op Op2 p ea eb.
    cbn [match_pattern CmpOp_InstanceMatcher node_InstanceMatcher match_ CmpOp_Matcher
           CmpOp_a CmpOp_b].
    unfold CmpOp_match. rewrite (cmp_op_eqb_sym Op2 Op).
    destruct (cmp_op_eqb Op Op2); reflexivity.
  - intros p ea. reflexivity.
  - intros p ec et ef. reflexivity.
  - intros p ebase estride n n'. reflexivity.
  - intros p ev ty. reflexivity.
  - intros p zero ev Hz.
    cbn [match_pattern NegateOp_InstanceMatcher node_InstanceMatcher match_
           NegateOp_Matcher NegateOp_a].
    unfold NegateOp_match. rewrite and_then_check, Hz, andb_true_r.
    now destruct (match_ bound (NegateOp_a p) ev s).
  - intros p ev n Hn.
    cbn [match_pattern BroadcastOp_InstanceMatcher node_InstanceMatcher match_
           BroadcastOp_Matcher BroadcastOp_a BroadcastOp_lanes].
    unfold BroadcastOp_match. rewrite and_then_check.
    assert (Hn' : (n =? -1) = false) by now apply Z.eqb_neq.
    rewrite Hn', orb_false_r, (orb_comm (BroadcastOp_lanes p =? n)).
    split.
    + destruct ((BroadcastOp_lanes p =? -1) || (BroadcastOp_lanes p =? n));
        cbn [fst]; [apply andb_true_r|apply andb_false_r].
    + intros Hl.
      assert (E : (BroadcastOp_lanes p =? -1) || (BroadcastOp_lanes p =? n) = true).
      { destruct Hl as [-> | ->]; [rewrite Z.eqb_refl; apply orb_true_r|reflexivity]. }
      rewrite E, andb_true_r. now destruct (match_ bound (BroadcastOp_a p) ev s).
Qed.

Lemma instance_pattern_as_node_witness :
  @match_pattern _ _ (@BroadcastOp_InstanceMatcher _ _
                        (@node_InstanceMatcher _ (@Wild_Matcher sample_helpers w0)))
    0 (mkBroadcastOp (@mkWild w0) (-1)) (mkBroadcastOp three 4) some_state
  = (true, set_binding w0 three some_state) /\
  @match_pattern _ _ (@NegateOp_InstanceMatcher _ _
                        (@node_InstanceMatcher _ (@Wild_Matcher sample_helpers w0)))
    0 (mkNegateOp (@mkWild w0)) (mkNegateOp three) some_state
  = (true, set_binding w0 three some_state).
Proof.
  destruct (@instance_pattern_as_node (Wild w0) (Wild w0) (Wild w0) _ _
              (@Wild_Matcher sample_helpers w0) (@Wild_Matcher sample_helpers w0)
              (@Wild_Matcher sample_helpers w0) sample_helpers 0 some_state 2%N
              (mk_type halide_type_int 32 4))
    as (_ & _ & _ & _ & _ & _ & Hneg & Hbr).
  split.
  - destruct (Hbr (mkBroadcastOp (@mkWild w0) (-1)) three 4 ltac:(discriminate))
      as (_ & Hsame).
    rewrite (Hsame (or_intror eq_refl)). reflexivity.
  - rewrite (Hneg (mkNegateOp (@mkWild w0)) (IntImm 9%N (Int 32) 0) three eq_refl).
    reflexivity.
Defined.
